(** * DokuwebTicketClient: a shallow embedding and its specification

    The client of the Doku@WEB ticket API (class [DokuwebTicketClient]) is
    embedded method by method.  JavaScript strings are sequences of UTF-16
    code units; the three regular expressions of the source are terms of a
    small backtracking matcher with ECMAScript's priorities (leftmost start,
    greedy or lazy quantifiers); the remote calls ([axios.get], the SOAP
    client) are nodes of a finite interaction tree, so that "which request
    is sent" and "no request is sent" are statements about the tree.  The
    text of the messages that the engine words itself (a SyntaxError of
    [JSON.parse], a TypeError, a URIError) is a parameter, [engine]. *)

From Stdlib Require Import NArith ZArith Ascii String DecimalString.
From Stdlib Require Import DecimalFacts DecimalPos DecimalN.
From stdpp Require Import base list gmap.

#[local] Set Warnings "-register-all".

Local Open Scope N_scope.

(** ** JavaScript strings *)

(** A string is a sequence of UTF-16 code units. *)
Definition code_unit := N.
Abbreviation jsstring := (list N).

(** ASCII literals of the source text. *)
Definition lit (s : string) : jsstring :=
  map N_of_ascii (list_ascii_of_string s).

(** WhiteSpace and LineTerminator code points: the set shared by the
    regular-expression class [\s] and by [String.prototype.trim]. *)
Definition is_space (c : code_unit) : bool :=
  ((9 <=? c) && (c <=? 13)) || (c =? 32) || (c =? 160) || (c =? 5760)
  || ((8192 <=? c) && (c <=? 8202)) || (c =? 8232) || (c =? 8233)
  || (c =? 8239) || (c =? 8287) || (c =? 12288) || (c =? 65279).

(** The class [\w] (no [i] or [u] flag): [A-Za-z0-9_]. *)
Definition is_word (c : code_unit) : bool :=
  ((65 <=? c) && (c <=? 90)) || ((97 <=? c) && (c <=? 122))
  || ((48 <=? c) && (c <=? 57)) || (c =? 95).

Fixpoint trim_start (s : jsstring) : jsstring :=
  match s with
  | c :: s' => if is_space c then trim_start s' else s
  | [] => []
  end.

Definition trim_end (s : jsstring) : jsstring :=
  rev (trim_start (rev s)).

(** [s.trim()] *)
Definition trim (s : jsstring) : jsstring := trim_end (trim_start s).

(** [s.split(sep)] for a separator of one code unit: the pieces between
    the occurrences of [sep]; never an empty array. *)
Fixpoint split (sep : code_unit) (s : jsstring) : list jsstring :=
  match s with
  | [] => [[]]
  | c :: s' =>
      if c =? sep then [] :: split sep s'
      else match split sep s' with
           | p :: ps => (c :: p) :: ps
           | [] => [[c]]
           end
  end.

(** [s.startsWith(t)], returning what follows [t]. *)
Fixpoint strip_prefix (t s : jsstring) : option jsstring :=
  match t, s with
  | [], _ => Some s
  | a :: t', b :: s' => if a =? b then strip_prefix t' s' else None
  | _ :: _, [] => None
  end.

(** [s.includes(t)] *)
Fixpoint includes (s t : jsstring) : bool :=
  match strip_prefix t s, s with
  | Some _, _ => true
  | None, _ :: s' => includes s' t
  | None, [] => false
  end.

(** ** Regular expressions

    The fragment of ECMAScript patterns the client uses: literal text,
    a character class, a class under [+] or [*] (greedy or lazy), a
    capturing group, and sequencing. *)

Inductive charclass : Type :=
| ClsSpace                          (* \s *)
| ClsWord                           (* \w *)
| ClsNoneOf (l : list code_unit).   (* [^...] *)

Definition class_matches (cls : charclass) (c : code_unit) : bool :=
  match cls with
  | ClsSpace => is_space c
  | ClsWord => is_word c
  | ClsNoneOf l => negb (existsb (N.eqb c) l)
  end.

Inductive regex : Type :=
| RLit (l : jsstring)
| RClass (cls : charclass)
| RQuant (cls : charclass) (min : nat) (greedy : bool)
| RGroup (i : nat) (r : regex)
| RSeq (r1 r2 : regex).

Section Matcher.
Context {R : Type}.

(** [cls*]: the longest run first, giving characters back one by one
    while the continuation fails. *)
Fixpoint quant_greedy (cls : charclass) (k : jsstring -> option R)
    (s : jsstring) : option R :=
  match s with
  | c :: s' =>
      if class_matches cls c then
        match quant_greedy cls k s' with
        | Some r => Some r
        | None => k s
        end
      else k s
  | [] => k s
  end.

(** [cls*?]: the continuation first, one more character each time it
    fails. *)
Fixpoint quant_lazy (cls : charclass) (k : jsstring -> option R)
    (s : jsstring) : option R :=
  match k s with
  | Some r => Some r
  | None =>
      match s with
      | c :: s' => if class_matches cls c then quant_lazy cls k s' else None
      | [] => None
      end
  end.

(** The [min] mandatory repetitions of [cls{min,}]. *)
Fixpoint quant_min (cls : charclass) (min : nat)
    (k : jsstring -> option R) (s : jsstring) : option R :=
  match min with
  | O => k s
  | S n =>
      match s with
      | c :: s' => if class_matches cls c then quant_min cls n k s' else None
      | [] => None
      end
  end.

(** Backtracking matcher in continuation-passing style: [s] is the input
    from the current position on, [caps] the groups captured so far, and
    [k] tries the rest of the pattern. *)
Fixpoint rmatch (r : regex) (s : jsstring) (caps : gmap nat jsstring)
    (k : jsstring -> gmap nat jsstring -> option R) : option R :=
  match r with
  | RLit l =>
      match strip_prefix l s with
      | Some s' => k s' caps
      | None => None
      end
  | RClass cls =>
      match s with
      | c :: s' => if class_matches cls c then k s' caps else None
      | [] => None
      end
  | RQuant cls min greedy =>
      quant_min cls min
        ((if greedy then quant_greedy else quant_lazy) cls
           (fun s' => k s' caps)) s
  | RGroup i r1 =>
      rmatch r1 s caps
        (fun s' caps' =>
           k s' (<[i := take (length s - length s') s]> caps'))
  | RSeq r1 r2 =>
      rmatch r1 s caps (fun s1 caps1 => rmatch r2 s1 caps1 k)
  end.
End Matcher.

(** A match: [index] is [m.index], [m_end] the position after the match
    (the new [lastIndex] of a global regex), [groups !! i] is [m[i]]. *)
Record match_result : Type := MatchResult {
  index : nat;
  m_end : nat;
  groups : gmap nat jsstring
}.

(** The pattern tried at the current position; the whole match is group 0. *)
Definition match_here (r : regex) (s : jsstring)
    : option (jsstring * gmap nat jsstring) :=
  rmatch (RGroup 0 r) s ∅ (fun s' caps => Some (s', caps)).

(** Leftmost match at or after position [i], where [s] is the input from
    [i] on. *)
Fixpoint search (r : regex) (i : nat) (s : jsstring) : option match_result :=
  match match_here r s with
  | Some (s', caps) =>
      Some (MatchResult i (i + (length s - length s')) caps)
  | None =>
      match s with
      | _ :: s' => search r (S i) s'
      | [] => None
      end
  end.

(** [re.exec(s)] with [re.lastIndex = lastIndex]. *)
Definition regexp_exec (r : regex) (s : jsstring) (lastIndex : nat)
    : option match_result :=
  if (length s <? lastIndex)%nat then None
  else search r lastIndex (drop lastIndex s).

(** [s.match(re)] for a regex without the [g] flag. *)
Definition string_match (s : jsstring) (r : regex) : option match_result :=
  regexp_exec r s 0.

(** [m[i]]; a group that took no part in the match reads as the empty
    string here (every group of the client's patterns takes part). *)
Definition group (m : match_result) (i : nat) : jsstring :=
  default [] (groups m !! i).

(** [while ((m = re.exec(s)) !== null) acc = body m acc] for a global regex
    whose [lastIndex] starts at [lastIndex].  [fuel] counts the iterations
    still allowed; [None] means they did not suffice. *)
Fixpoint exec_loop {A : Type} (fuel : nat) (r : regex) (s : jsstring)
    (lastIndex : nat) (body : match_result -> A -> A) (acc : A) : option A :=
  match fuel with
  | O => None
  | S fuel' =>
      match regexp_exec r s lastIndex with
      | None => Some acc
      | Some m => exec_loop fuel' r s (m_end m) body (body m acc)
      end
  end.

(** The patterns of the source. *)

(** [/<ticket\s([^>]+)\/>/] *)
Definition ticketMatchRegex : regex :=
  RSeq (RLit (lit "<ticket"))
    (RSeq (RClass ClsSpace)
       (RSeq (RGroup 1 (RQuant (ClsNoneOf (lit ">")) 1 true))
          (RLit (lit "/>")))).

(** [/<ticket\s([^>]+?)\/>/g] *)
Definition ticketRegex : regex :=
  RSeq (RLit (lit "<ticket"))
    (RSeq (RClass ClsSpace)
       (RSeq (RGroup 1 (RQuant (ClsNoneOf (lit ">")) 1 false))
          (RLit (lit "/>")))).

(** The global pattern of attribute pairs: group 1 is [\w+], then the
    equals sign (code unit 61) and a double quote (34), group 2 is a greedy
    star over the class of all characters but the double quote, then the
    closing double quote. *)
Definition attrRegex : regex :=
  RSeq (RGroup 1 (RQuant ClsWord 1 true))
    (RSeq (RLit [61; 34])
       (RSeq (RGroup 2 (RQuant (ClsNoneOf [34]) 0 true))
          (RLit [34]))).

(** ** Text encodings of the runtime *)

(** The code points of a string; [None] stands for a lone surrogate. *)
Fixpoint code_points (s : jsstring) : list (option N) :=
  match s with
  | [] => []
  | hi :: s1 =>
      if (55296 <=? hi) && (hi <=? 56319) then
        match s1 with
        | lo :: s2 =>
            if (56320 <=? lo) && (lo <=? 57343)
            then Some (65536 + (hi - 55296) * 1024 + (lo - 56320))
                   :: code_points s2
            else None :: code_points s1
        | [] => [None]
        end
      else if (56320 <=? hi) && (hi <=? 57343) then None :: code_points s1
      else Some hi :: code_points s1
  end.

Definition utf8_of_code_point (cp : N) : list N :=
  if cp <? 128 then [cp]
  else if cp <? 2048 then [192 + cp / 64; 128 + cp mod 64]
  else if cp <? 65536 then
    [224 + cp / 4096; 128 + (cp / 64) mod 64; 128 + cp mod 64]
  else [240 + cp / 262144; 128 + (cp / 4096) mod 64;
        128 + (cp / 64) mod 64; 128 + cp mod 64].

(** [Buffer.from(s)]: the UTF-8 bytes of [s], a lone surrogate encoded as
    U+FFFD. *)
Definition Buffer_from (s : jsstring) : list N :=
  flat_map (fun cp => utf8_of_code_point (default 65533 cp)) (code_points s).

Definition base64_digit (i : N) : code_unit :=
  if i <? 26 then 65 + i
  else if i <? 52 then 97 + (i - 26)
  else if i <? 62 then 48 + (i - 52)
  else if i =? 62 then 43 else 47.

(** [buf.toString("base64")] *)
Fixpoint toString_base64 (bytes : list N) : jsstring :=
  match bytes with
  | [] => []
  | [a] => [base64_digit (a / 4); base64_digit ((a mod 4) * 16); 61; 61]
  | [a; b] =>
      [base64_digit (a / 4); base64_digit ((a mod 4) * 16 + b / 16);
       base64_digit ((b mod 16) * 4); 61]
  | a :: b :: c :: rest =>
      base64_digit (a / 4) :: base64_digit ((a mod 4) * 16 + b / 16)
      :: base64_digit ((b mod 16) * 4 + c / 64) :: base64_digit (c mod 64)
      :: toString_base64 rest
  end.

Definition hex_digit (i : N) : code_unit :=
  if i <? 10 then 48 + i else 65 + (i - 10).

Definition percent_encode (byte : N) : jsstring :=
  [37; hex_digit (byte / 16); hex_digit (byte mod 16)].

(** The characters [encodeURIComponent] leaves as they are:
    [A-Za-z0-9] and the marks - _ . ! ~ * ' ( ) *)
Definition uri_unreserved (c : N) : bool :=
  ((65 <=? c) && (c <=? 90)) || ((97 <=? c) && (c <=? 122))
  || ((48 <=? c) && (c <=? 57))
  || existsb (N.eqb c) [45; 95; 46; 33; 126; 42; 39; 40; 41].

(** [encodeURIComponent(s)]; [None] when it throws a URIError (a lone
    surrogate in [s]). *)
Definition encodeURIComponent (s : jsstring) : option jsstring :=
  let encode (cp : option N) : option jsstring :=
    match cp with
    | Some cp0 =>
        Some (if uri_unreserved cp0 then [cp0]
              else flat_map percent_encode (utf8_of_code_point cp0))
    | None => None
    end in
  match mapM encode (code_points s) with
  | Some pieces => Some (concat pieces)
  | None => None
  end.

(** [String(n)] for a non-negative integer. *)
Definition string_of_N (n : N) : jsstring :=
  lit (NilEmpty.string_of_uint (N.to_uint n)).

(** ** JavaScript values *)

(** The values the client handles.  A number is kept as the exact decimal
    [m * 10^e] it was written as; an object as its own properties in
    creation order. *)
Inductive jsvalue : Type :=
| JUndefined
| JNull
| JBool (b : bool)
| JNum (m e : Z)
| JStr (s : jsstring)
| JArr (items : list jsvalue)
| JObj (fields : list (jsstring * jsvalue)).

(** [obj[key] = v] as [JSON.parse] defines properties: the value of an
    existing key is replaced in place, a new key goes last. *)
Fixpoint define_field (key : jsstring) (v : jsvalue)
    (fields : list (jsstring * jsvalue)) : list (jsstring * jsvalue) :=
  match fields with
  | [] => [(key, v)]
  | (k, w) :: fs =>
      if bool_decide (k = key) then (k, v) :: fs
      else (k, w) :: define_field key v fs
  end.

Fixpoint own_field (key : jsstring) (fields : list (jsstring * jsvalue))
    : option jsvalue :=
  match fields with
  | [] => None
  | (k, w) :: fs => if bool_decide (k = key) then Some w else own_field key fs
  end.

(** [v], read in a boolean position.  A number is falsy when its double is
    zero, that is, when it is at most [2^-1075] in absolute value. *)
Definition truthy (v : jsvalue) : bool :=
  match v with
  | JUndefined | JNull => false
  | JBool b => b
  | JNum m e =>
      if (m =? 0)%Z then false
      else if (0 <=? e)%Z then true
      else negb (Z.abs m * 2 ^ 1075 <=? 10 ^ (- e))%Z
  | JStr s => negb (bool_decide (s = []))
  | JArr _ | JObj _ => true
  end.

(** What the engine words itself: the message of the errors the runtime
    throws, and the decimal display of a number (arithmetic on doubles). *)
Inductive runtime_fault : Type :=
| JsonSyntax (text : jsstring)                  (* SyntaxError of JSON.parse *)
| ReadOfNullish (v : jsvalue) (prop : jsstring) (* TypeError of null.prop *)
| NotAFunction (callee : jsstring)              (* TypeError of v.prop() *)
| NoPrimitive                                   (* TypeError of String(obj) *)
| UriMalformed.                                 (* URIError *)

Record engine : Type := Engine {
  fault_message : runtime_fault -> jsstring;
  number_to_string : Z -> Z -> jsstring
}.

Fixpoint join (sep : jsstring) (l : list jsstring) : jsstring :=
  match l with
  | [] => []
  | [x] => x
  | x :: l' => x ++ sep ++ join sep l'
  end.

(** [String(v)], the conversion of a template literal and of the argument
    of [RegExp.prototype.exec]; [None] is the TypeError of an object that
    cannot be converted.  An array joins its elements with commas, [null]
    and [undefined] reading as the empty string.  An object reads
    [[object Object]] through the [toString] it inherits, unless it has an
    own property [toString]: no value here is a function, so that property
    cannot be called, the inherited [valueOf] returns the object itself,
    and the conversion throws. *)
Fixpoint to_string (E : engine) (v : jsvalue) : option jsstring :=
  match v with
  | JUndefined => Some (lit "undefined")
  | JNull => Some (lit "null")
  | JBool b => Some (if b then lit "true" else lit "false")
  | JNum m e => Some (number_to_string E m e)
  | JStr s => Some s
  | JArr items =>
      option_map (join (lit ","))
        ((fix elements (l : list jsvalue) : option (list jsstring) :=
            match l with
            | [] => Some []
            | x :: l' =>
                match match x with
                      | JUndefined | JNull => Some []
                      | _ => to_string E x
                      end, elements l' with
                | Some s, Some r => Some (s :: r)
                | _, _ => None
                end
            end) items)
  | JObj fields =>
      match own_field (lit "toString") fields with
      | Some _ => None
      | None => Some (lit "[object Object]")
      end
  end.

(** ** JSON.parse *)

Definition json_ws (c : N) : bool :=
  (c =? 32) || (c =? 9) || (c =? 10) || (c =? 13).

Fixpoint skip_ws (s : jsstring) : jsstring :=
  match s with
  | c :: s' => if json_ws c then skip_ws s' else s
  | [] => []
  end.

Definition is_digit (c : N) : bool := (48 <=? c) && (c <=? 57).

(** Reads a run of digits: the value accumulated, how many were read, and
    what follows. *)
Fixpoint read_digits (acc : Z) (n : Z) (s : jsstring) : Z * Z * jsstring :=
  match s with
  | c :: s' =>
      if is_digit c
      then read_digits (10 * acc + Z.of_N (c - 48)) (n + 1) s'
      else (acc, n, s)
  | [] => (acc, n, [])
  end.

Definition parse_sign (s : jsstring) : Z * jsstring :=
  match s with
  | c :: s' => if c =? 45 then ((-1)%Z, s') else (1%Z, s)
  | [] => (1%Z, [])
  end.

Definition parse_exponent (s : jsstring) : option (Z * jsstring) :=
  match s with
  | c :: s1 =>
      if (c =? 101) || (c =? 69) then
        let '(sg, s2) :=
          match s1 with
          | d :: s2 =>
              if d =? 43 then (1%Z, s2)
              else if d =? 45 then ((-1)%Z, s2) else (1%Z, s1)
          | [] => (1%Z, [])
          end in
        let '(x, n, s3) := read_digits 0 0 s2 in
        if (n =? 0)%Z then None else Some ((sg * x)%Z, s3)
      else Some (0%Z, s)
  | [] => Some (0%Z, [])
  end.

Definition parse_number (s : jsstring) : option (jsvalue * jsstring) :=
  let '(sg, s1) := parse_sign s in
  match s1 with
  | d :: s2 =>
      if is_digit d then
        let '(int, s3) :=
          if d =? 48 then (0%Z, s2)
          else let '(x, _, r) := read_digits (Z.of_N (d - 48)) 1 s2 in (x, r) in
        let frac :=
          match s3 with
          | p :: s4 =>
              if p =? 46 then
                let '(x, n, r) := read_digits int 0 s4 in
                if (n =? 0)%Z then None else Some (x, (- n)%Z, r)
              else Some (int, 0%Z, s3)
          | [] => Some (int, 0%Z, [])
          end in
        match frac with
        | Some (m, e, s5) =>
            match parse_exponent s5 with
            | Some (x, s6) => Some (JNum (sg * m) (e + x), s6)
            | None => None
            end
        | None => None
        end
      else None
  | [] => None
  end.

Definition hex_value (c : N) : option N :=
  if is_digit c then Some (c - 48)
  else if (65 <=? c) && (c <=? 70) then Some (c - 55)
  else if (97 <=? c) && (c <=? 102) then Some (c - 87)
  else None.

Definition simple_escape (c : N) : option N :=
  if (c =? 34) || (c =? 92) || (c =? 47) then Some c
  else if c =? 98 then Some 8
  else if c =? 102 then Some 12
  else if c =? 110 then Some 10
  else if c =? 114 then Some 13
  else if c =? 116 then Some 9
  else None.

(** The characters of a string literal after its opening quote, up to the
    closing one. *)
Fixpoint parse_string (s : jsstring) : option (jsstring * jsstring) :=
  match s with
  | [] => None
  | c :: s1 =>
      if c =? 34 then Some ([], s1)
      else if c =? 92 then
        match s1 with
        | x :: s2 =>
            if x =? 117 then
              match s2 with
              | h1 :: h2 :: h3 :: h4 :: s3 =>
                  match hex_value h1, hex_value h2, hex_value h3,
                        hex_value h4, parse_string s3 with
                  | Some a, Some b, Some c', Some d, Some (str, r) =>
                      Some (((a * 16 + b) * 16 + c') * 16 + d :: str, r)
                  | _, _, _, _, _ => None
                  end
              | _ => None
              end
            else
              match simple_escape x, parse_string s2 with
              | Some y, Some (str, r) => Some (y :: str, r)
              | _, _ => None
              end
        | [] => None
        end
      else if c <? 32 then None
      else match parse_string s1 with
           | Some (str, r) => Some (c :: str, r)
           | None => None
           end
  end.

Definition parse_literal (s : jsstring) : option (jsvalue * jsstring) :=
  match strip_prefix (lit "true") s with
  | Some r => Some (JBool true, r)
  | None =>
      match strip_prefix (lit "false") s with
      | Some r => Some (JBool false, r)
      | None =>
          match strip_prefix (lit "null") s with
          | Some r => Some (JNull, r)
          | None => parse_number s
          end
      end
  end.

(** A JSON value, then the elements of an array after its first bracket,
    then the members of an object after its first brace.  Each call spends
    one unit of [fuel]. *)
Fixpoint parse_value (fuel : nat) (s : jsstring)
    : option (jsvalue * jsstring) :=
  match fuel with
  | O => None
  | S f =>
      match skip_ws s with
      | [] => None
      | c :: r =>
          if c =? 123 then
            match skip_ws r with
            | c1 :: r1 =>
                if c1 =? 125 then Some (JObj [], r1)
                else parse_members f (c1 :: r1) []
            | [] => None
            end
          else if c =? 91 then
            match skip_ws r with
            | c1 :: r1 =>
                if c1 =? 93 then Some (JArr [], r1)
                else parse_elements f (c1 :: r1) []
            | [] => None
            end
          else if c =? 34 then
            match parse_string r with
            | Some (str, r1) => Some (JStr str, r1)
            | None => None
            end
          else parse_literal (c :: r)
      end
  end
with parse_elements (fuel : nat) (s : jsstring) (acc : list jsvalue)
    : option (jsvalue * jsstring) :=
  match fuel with
  | O => None
  | S f =>
      match parse_value f s with
      | Some (v, r) =>
          match skip_ws r with
          | c :: r1 =>
              if c =? 44 then parse_elements f r1 (acc ++ [v])
              else if c =? 93 then Some (JArr (acc ++ [v]), r1)
              else None
          | [] => None
          end
      | None => None
      end
  end
with parse_members (fuel : nat) (s : jsstring)
    (acc : list (jsstring * jsvalue)) : option (jsvalue * jsstring) :=
  match fuel with
  | O => None
  | S f =>
      match skip_ws s with
      | q :: r =>
          if q =? 34 then
            match parse_string r with
            | Some (key, r1) =>
                match skip_ws r1 with
                | c :: r2 =>
                    if c =? 58 then
                      match parse_value f r2 with
                      | Some (v, r3) =>
                          match skip_ws r3 with
                          | c' :: r4 =>
                              if c' =? 44
                              then parse_members f r4 (define_field key v acc)
                              else if c' =? 125
                              then Some (JObj (define_field key v acc), r4)
                              else None
                          | [] => None
                          end
                      | None => None
                      end
                    else None
                | [] => None
                end
            | None => None
            end
          else None
      | [] => None
      end
  end.

(** [JSON.parse(text)]; [None] when it throws a SyntaxError.  Two units of
    fuel for each character cover every chain of calls. *)
Definition JSON_parse (text : jsstring) : option jsvalue :=
  match parse_value (2 * length text + 2) text with
  | Some (v, r) => match skip_ws r with [] => Some v | _ :: _ => None end
  | None => None
  end.

(** ** The remote service and the effects of a method *)

(** What [axios] hands over of an HTTP response.  [data] is the body as
    the client receives it: a string for plain text and XML, and the parsed
    value when the body is a JSON text (the body 12345 arrives as a
    number). *)
Record http_response : Type := HttpResponse {
  status : N;
  statusText : jsstring;
  data : jsvalue
}.

(** A thrown value: its [message] and, for the rejection of an HTTP request
    that was answered, the [response]. *)
Record js_error : Type := JsError {
  message : jsstring;
  response : option http_response
}.

(** [new Error(msg)] *)
Definition Error (msg : jsstring) : js_error := JsError msg None.

Record axios_config : Type := AxiosConfig {
  params : list (jsstring * jsvalue);
  headers : list (jsstring * jsstring)
}.

(** The handle [soap.createClientAsync] resolves to. *)
Inductive soap_client : Type := SoapClient (id : N).

(** A method run, as the tree of its remote calls: each call carries the
    request and continues with the answer (a resolved promise on the left,
    a rejected one on the right).  [SoapCallAsync c op args] is
    [c.<op>Async(args)] and resolves to the field [<op>Return] of its
    result.  [Hang] is a run that never returns. *)
Inductive io (A : Type) : Type :=
| Ret (a : A)
| Hang
| AxiosGet (url : jsstring) (config : axios_config)
    (k : http_response + js_error -> io A)
| SoapCreateClientAsync (wsdl : jsstring)
    (k : soap_client + js_error -> io A)
| SoapCallAsync (c : soap_client) (op : jsstring)
    (args : list (jsstring * jsvalue)) (k : jsstring + js_error -> io A)
| ConsoleLog (e : js_error) (k : io A).
Arguments Ret {A} a.
Arguments Hang {A}.
Arguments AxiosGet {A} url config k.
Arguments SoapCreateClientAsync {A} wsdl k.
Arguments SoapCallAsync {A} c op args k.
Arguments ConsoleLog {A} e k.

Fixpoint io_bind {A B : Type} (m : io A) (f : A -> io B) : io B :=
  match m with
  | Ret a => f a
  | Hang => Hang
  | AxiosGet url config k => AxiosGet url config (fun x => io_bind (k x) f)
  | SoapCreateClientAsync wsdl k =>
      SoapCreateClientAsync wsdl (fun x => io_bind (k x) f)
  | SoapCallAsync c op args k =>
      SoapCallAsync c op args (fun x => io_bind (k x) f)
  | ConsoleLog e k => ConsoleLog e (io_bind k f)
  end.

(** The fields of a [DokuwebTicketClient]; [None] is [null]. *)
Record client : Type := Client {
  baseUrl : jsstring;
  soapWsdl : jsstring;
  username : jsstring;
  password : jsstring;
  authToken : option jsstring;
  soapClient : option soap_client
}.

Inductive outcome (A : Type) : Type :=
| Returned (a : A)
| Thrown (e : js_error).
Arguments Returned {A} a.
Arguments Thrown {A} e.

(** An async method of the client: from the fields of [this] to the tree
    of its calls, ending in what it returns or throws and in the fields
    it leaves. *)
Definition M (A : Type) : Type := client -> io (outcome A * client).

Definition ret {A : Type} (a : A) : M A := fun this => Ret (Returned a, this).

Definition throw {A : Type} (e : js_error) : M A :=
  fun this => Ret (Thrown e, this).

Definition hang {A : Type} : M A := fun _ => Hang.

Definition bind {A B : Type} (m : M A) (f : A -> M B) : M B :=
  fun this =>
    io_bind (m this) (fun r =>
      match r with
      | (Returned a, this') => f a this'
      | (Thrown e, this') => Ret (Thrown e, this')
      end).

(** [try { m } catch (err) { handler err }] *)
Definition try_catch {A : Type} (m : M A) (handler : js_error -> M A) : M A :=
  fun this =>
    io_bind (m this) (fun r =>
      match r with
      | (Returned a, this') => Ret (Returned a, this')
      | (Thrown e, this') => handler e this'
      end).

Declare Scope client_scope.
Delimit Scope client_scope with client.
Notation "x <- m ;; k" := (bind m (fun x => k))
  (at level 100, m at next level, right associativity) : client_scope.
Notation "m ;; k" := (bind m (fun _ => k))
  (at level 100, right associativity) : client_scope.
Local Open Scope client_scope.

Definition get_this : M client := fun this => Ret (Returned this, this).

(** [this.authToken = t] and [this.soapClient = s] *)
Definition with_authToken (t : option jsstring) (this : client) : client :=
  Client (baseUrl this) (soapWsdl this) (username this) (password this)
    t (soapClient this).

Definition with_soapClient (s : option soap_client) (this : client)
    : client :=
  Client (baseUrl this) (soapWsdl this) (username this) (password this)
    (authToken this) s.

Definition set_authToken (t : option jsstring) : M unit :=
  fun this => Ret (Returned tt, with_authToken t this).

Definition set_soapClient (s : option soap_client) : M unit :=
  fun this => Ret (Returned tt, with_soapClient s this).

Definition settle {A : Type} (answer : A + js_error) : outcome A :=
  match answer with
  | inl a => Returned a
  | inr e => Thrown e
  end.

(** [await axios.get(url, config)] *)
Definition axios_get (url : jsstring) (config : axios_config)
    : M http_response :=
  fun this => AxiosGet url config (fun x => Ret (settle x, this)).

(** [await soap.createClientAsync(wsdl)] *)
Definition soap_createClientAsync (wsdl : jsstring) : M soap_client :=
  fun this => SoapCreateClientAsync wsdl (fun x => Ret (settle x, this)).

(** [await c.<op>Async(args)], read at [<op>Return] *)
Definition soap_callAsync (c : soap_client) (op : jsstring)
    (args : list (jsstring * jsvalue)) : M jsstring :=
  fun this => SoapCallAsync c op args (fun x => Ret (settle x, this)).

(** [console.log(e)] *)
Definition console_log (e : js_error) : M unit :=
  fun this => ConsoleLog e (Ret (Returned tt, this)).

(** The result of a loop: a loop that never ends hangs the method. *)
Definition finished {A : Type} (r : option A) : M A :=
  match r with
  | Some a => ret a
  | None => hang
  end.

(** *** Running a method against a remote service *)

Record remote : Type := Remote {
  on_get : jsstring -> axios_config -> http_response + js_error;
  on_createClient : jsstring -> soap_client + js_error;
  on_call : soap_client -> jsstring -> list (jsstring * jsvalue) ->
            jsstring + js_error
}.

(** A transport call, as the remote service sees it. *)
Inductive call : Type :=
| HttpGet (url : jsstring) (config : axios_config)
| SoapCreateClient (wsdl : jsstring)
| SoapCall (c : soap_client) (op : jsstring)
    (args : list (jsstring * jsvalue)).

(** The transport calls of a run, in order, and its end ([None]: it never
    returns). *)
Fixpoint run {A : Type} (w : remote) (m : io A) : list call * option A :=
  match m with
  | Ret a => ([], Some a)
  | Hang => ([], None)
  | AxiosGet url config k =>
      let '(tr, r) := run w (k (on_get w url config)) in
      (HttpGet url config :: tr, r)
  | SoapCreateClientAsync wsdl k =>
      let '(tr, r) := run w (k (on_createClient w wsdl)) in
      (SoapCreateClient wsdl :: tr, r)
  | SoapCallAsync c op args k =>
      let '(tr, r) := run w (k (on_call w c op args)) in
      (SoapCall c op args :: tr, r)
  | ConsoleLog _ k => run w k
  end.

(** ** The client *)

(** [baseUrl.replace(/\/$/, empty)]: one slash at the very end is dropped. *)
Definition strip_trailing_slash (s : jsstring) : jsstring :=
  match rev s with
  | c :: r => if c =? 47 then rev r else s
  | [] => []
  end.

(** [new DokuwebTicketClient({ baseUrl, soapWsdl, username, password })] *)
Definition new_client (baseUrl soapWsdl username password : jsstring)
    : client :=
  {| baseUrl := strip_trailing_slash baseUrl;
     soapWsdl := soapWsdl;
     username := username;
     password := password;
     authToken := None;
     soapClient := None |}.

(** [this.authToken] as a value. *)
Definition token_value (t : option jsstring) : jsvalue :=
  match t with
  | Some s => JStr s
  | None => JNull
  end.

(** [!this.authToken]: [null] and the empty string are falsy. *)
Definition token_missing (t : option jsstring) : bool :=
  negb (truthy (token_value t)).

(** [x || d] for an optional string [x] ([None]: [undefined]). *)
Definition or_default (x : option jsstring) (d : jsstring) : jsstring :=
  match x with
  | Some s => if truthy (JStr s) then s else d
  | None => d
  end.

(** A parameter with a default value [d]. *)
Definition with_default {A : Type} (x : option A) (d : A) : A :=
  match x with
  | Some a => a
  | None => d
  end.

(** A destructuring default [{ x = d }]: it applies when the property is
    missing ([None]) and when it is [undefined]. *)
Definition destructured (x : option jsvalue) (d : jsvalue) : jsvalue :=
  match x with
  | None | Some JUndefined => d
  | Some v => v
  end.

(** [err.response?.status] and [err.response?.statusText] inside a template
    literal. *)
Definition show_status (err : js_error) : jsstring :=
  match response err with
  | Some r => string_of_N (status r)
  | None => lit "undefined"
  end.

Definition show_statusText (err : js_error) : jsstring :=
  match response err with
  | Some r => statusText r
  | None => lit "undefined"
  end.

(** [attrs[key] = value] on an object created by [{}]: the key
    [__proto__] reaches the setter inherited from [Object.prototype], which
    ignores a string; every other key becomes an own property. *)
Definition set_prop (key value : jsstring) (attrs : gmap jsstring jsstring)
    : gmap jsstring jsstring :=
  if bool_decide (key = lit "__proto__") then attrs
  else <[key := value]> attrs.

(** The loop over [attrRegex] that both REST methods run on the attribute
    text of an element.  Each match takes at least one character, so the
    iterations allowed here always suffice ([parse_attrs_ends]). *)
Definition parse_attrs (attrString : jsstring)
    : option (gmap jsstring jsstring) :=
  exec_loop (S (length attrString)) attrRegex attrString 0
    (fun m attrs => set_prop (group m 1) (group m 2) attrs) ∅.

(** The loop over [ticketRegex] of [searchTicketsByCreator]; a hanging
    inner loop hangs the outer one.  It always ends as well
    ([parse_tickets_ends]). *)
Definition parse_tickets (xml : jsstring)
    : option (list (gmap jsstring jsstring)) :=
  mjoin (exec_loop (S (length xml)) ticketRegex xml 0
    (fun m tickets =>
       match tickets, parse_attrs (group m 1) with
       | Some ts, Some attrs => Some (ts ++ [attrs])
       | _, _ => None
       end) (Some [])).

(** The arguments of [createTicket]; [None] is a property left out. *)
Record ticket_options : Type := TicketOptions {
  category : option jsstring;
  channel : option jsstring;
  description : option jsstring;
  type : option jsstring;
  ticketGroup : option jsstring;
  fieldValues : option jsstring;
  priority : option jsstring;
  ticketSystem : option jsstring
}.

Definition no_options : ticket_options :=
  TicketOptions None None None None None None None None.

Record ticket_params : Type := TicketParams {
  subject : jsstring;
  partnerId : jsstring;
  keyword : jsstring;
  options : option ticket_options
}.

Record created_ticket : Type := CreatedTicket {
  ticketid : option jsstring;
  ticketnr : option jsstring
}.

Record keyword_params : Type := KeywordParams {
  k_channel : option jsstring;
  k_ticketSystem : option jsstring
}.

Record search_options : Type := SearchOptions {
  start : option jsvalue;
  max : option jsvalue
}.

Section Client.
Context (E : engine).

(** The receiver [v] of a call [v.name(...)] of a string method ([trim],
    [match]): only a string has these methods.  On [null] and [undefined]
    the read of the property throws; on every other value the property is
    missing or is an own property that holds no function, and the call
    throws.  [callee] is the text of the callee, which the engine quotes
    in its message. *)
Definition string_receiver (v : jsvalue) (name callee : jsstring)
    : M jsstring :=
  match v with
  | JStr s => ret s
  | JUndefined | JNull =>
      throw (Error (fault_message E (ReadOfNullish v name)))
  | _ => throw (Error (fault_message E (NotAFunction callee)))
  end.

(** [String(v)], throwing the engine's TypeError. *)
Definition js_String (v : jsvalue) : M jsstring :=
  match to_string E v with
  | Some s => ret s
  | None => throw (Error (fault_message E NoPrimitive))
  end.

(** [async authenticate()] *)
Definition authenticate : M (option jsstring) :=
  this <- get_this ;;
  let authUrl := baseUrl this ++ lit "/dokuweb/auth/token" in
  let credentials :=
    toString_base64
      (Buffer_from (username this ++ lit ":" ++ password this)) in
  try_catch
    (response <- axios_get authUrl
       {| params := [];
          headers :=
            [(lit "Authorization", lit "Basic " ++ credentials)] |} ;;
     body <- string_receiver (data response) (lit "trim")
               (lit "response.data.trim") ;;
     set_authToken (Some (trim body)) ;;
     this <- get_this ;;
     ret (authToken this))
    (fun err =>
       throw (Error (lit "Authentication failed: " ++ show_status err
                       ++ lit " " ++ show_statusText err))).

(** [async _getSoapClient()] *)
Definition _getSoapClient : M soap_client :=
  this <- get_this ;;
  match soapClient this with
  | None =>
      if token_missing (authToken this) then
        throw (Error (lit "authToken is missing. Call authenticate() first."))
      else
        c <- soap_createClientAsync (soapWsdl this) ;;
        set_soapClient (Some c) ;;
        ret c
  | Some c => ret c
  end.

(** [async createTicket({ subject, partnerId, keyword, options = {} })] *)
Definition createTicket (p : ticket_params) : M created_ticket :=
  let options := with_default (options p) no_options in
  client <- _getSoapClient ;;
  this <- get_this ;;
  let methodArgs :=
    [(lit "authToken", token_value (authToken this));
     (lit "sSubject", JStr (subject p));
     (lit "sPartner", JStr (partnerId p));
     (lit "sKeyword", JStr (keyword p));
     (lit "sCategory", JStr (or_default (category options) []));
     (lit "sChannel", JStr (or_default (channel options) (lit "POST")));
     (lit "sDescription", JStr (or_default (description options) []));
     (lit "sType", JStr (or_default (type options) (lit "1")));
     (lit "sPLZ", JStr []);
     (lit "sTicketgroup", JStr (or_default (ticketGroup options) []));
     (lit "sFieldvalues", JStr (or_default (fieldValues options) []));
     (lit "sPriority", JStr (or_default (priority options) []));
     (lit "sTicketsystem", JStr (or_default (ticketSystem options) []))] in
  try_catch
    (ret_ <- soap_callAsync client (lit "createTicket") methodArgs ;;
     let parts := split 124 ret_ in
     if negb (bool_decide (parts !! 0%nat = Some (lit "true"))) then
       throw (Error (lit "Ticket creation failed: " ++ ret_))
     else
       let ticketid := parts !! 1%nat in
       let ticketnr := parts !! 2%nat in
       ret (CreatedTicket ticketid ticketnr))
    (fun err =>
       console_log err ;;
       throw (Error (lit "createTicket SOAP error: " ++ message err))).

(** [JSON.parse(text)], throwing the engine's SyntaxError. *)
Definition json_parse (text : jsstring) : M jsvalue :=
  match JSON_parse text with
  | Some v => ret v
  | None => throw (Error (fault_message E (JsonSyntax text)))
  end.

(** [v.key] for a key that no prototype defines: an own property of an
    object, [undefined] on any other value, a TypeError on [null] and
    [undefined]. *)
Definition get_prop (v : jsvalue) (key : jsstring) : M jsvalue :=
  match v with
  | JUndefined | JNull =>
      throw (Error (fault_message E (ReadOfNullish v key)))
  | JObj fields => ret (with_default (own_field key fields) JUndefined)
  | _ => ret JUndefined
  end.

(** [async getKeywords({ channel, ticketSystem } = {})], both defaulting
    to the empty string *)
Definition getKeywords (p : option keyword_params) : M jsvalue :=
  let p := with_default p (KeywordParams None None) in
  let channel := with_default (k_channel p) [] in
  let ticketSystem := with_default (k_ticketSystem p) [] in
  client <- _getSoapClient ;;
  this <- get_this ;;
  let methodArgs :=
    [(lit "authToken", token_value (authToken this));
     (lit "sChannel", JStr channel);
     (lit "sTicketsystem", JStr ticketSystem)] in
  try_catch
    (ret_ <- soap_callAsync client (lit "getKeywords") methodArgs ;;
     parsed <- json_parse ret_ ;;
     success <- get_prop parsed (lit "SUCCESS") ;;
     if negb (truthy success) then
       errortext <- get_prop parsed (lit "ERRORTEXT") ;;
       text <- js_String errortext ;;
       throw (Error (lit "getKeywords failed: " ++ text))
     else get_prop parsed (lit "DATA"))
    (fun err =>
       console_log err ;;
       throw (Error (lit "getKeywords SOAP error: " ++ message err))).

(** [async getTicketDetails(ticketId)] *)
Definition getTicketDetails (ticketId : jsstring)
    : M (gmap jsstring jsstring) :=
  this <- get_this ;;
  match encodeURIComponent ticketId with
  | None => throw (Error (fault_message E UriMalformed))
  | Some encoded =>
      let url := baseUrl this ++ lit "/dokuweb/ticket/" ++ encoded in
      try_catch
        (response <- axios_get url
           {| params := [(lit "authtoken", token_value (authToken this))];
              headers := [] |} ;;
         let xml := data response in
         text <- string_receiver xml (lit "match") (lit "xml.match") ;;
         match string_match text ticketMatchRegex with
         | None =>
             throw (Error (lit "No <ticket> element found in response."))
         | Some ticketMatch =>
             let attrString := group ticketMatch 1 in
             finished (parse_attrs attrString)
         end)
        (fun err =>
           throw (Error (lit "getTicketDetails REST error: "
                           ++ show_status err ++ lit " "
                           ++ show_statusText err)))
  end.

(** [async searchTicketsByCreator(creatorLogin, { start = 1, max = 10 } = {})];
    [ticketRegex.exec(xml)] converts [xml] to a string at each call. *)
Definition searchTicketsByCreator (creatorLogin : jsstring)
    (opts : option search_options)
    : M (list (gmap jsstring jsstring)) :=
  let opts := with_default opts (SearchOptions None None) in
  let start := destructured (start opts) (JNum 1 0) in
  let max := destructured (max opts) (JNum 10 0) in
  this <- get_this ;;
  let params :=
    [(lit "authtoken", token_value (authToken this));
     (lit "start", start);
     (lit "max", max);
     (lit "field_count", JNum 1 0);
     (lit "f1", JStr (lit "CREATE_BY"));
     (lit "f1_op", JStr (lit "="));
     (lit "f1_val", JStr creatorLogin)] in
  let url := baseUrl this ++ lit "/dokuweb/tickets/" in
  try_catch
    (response <- axios_get url {| params := params; headers := [] |} ;;
     let xml := data response in
     text <- js_String xml ;;
     finished (parse_tickets text))
    (fun err =>
       throw (Error (lit "searchTicketsByCreator REST error: "
                       ++ show_status err ++ lit " "
                       ++ show_statusText err))).
End Client.

(** * Specification *)

(** ** Vocabulary *)

(** What a run leaves: its outcome and the fields of the client; the
    transport calls it made. *)
Definition result {A : Type} (r : list call * option (outcome A * client))
    : option (outcome A * client) := snd r.

Definition trace {A : Type} (r : list call * option (outcome A * client))
    : list call := fst r.

Definition final {A : Type} (r : list call * option (outcome A * client))
    : option client :=
  match snd r with
  | Some (_, c) => Some c
  | None => None
  end.

(** The handle [_getSoapClient] ends with, if it does: the cached one, or
    a new one when the token is there and the remote side grants it. *)
Definition soap_ready (w : remote) (c : client) : option soap_client :=
  match soapClient c with
  | Some h => Some h
  | None =>
      if token_missing (authToken c) then None
      else match on_createClient w (soapWsdl c) with
           | inl h => Some h
           | inr _ => None
           end
  end.

(** The precondition failure of [_getSoapClient]. *)
Definition missing_token_error : js_error :=
  Error (lit "authToken is missing. Call authenticate() first.").

(** The public methods, to speak of sequences of calls on one client. *)
Inductive method : Type :=
| Authenticate
| CreateTicket (p : ticket_params)
| GetKeywords (p : option keyword_params)
| GetTicketDetails (ticketId : jsstring)
| SearchTicketsByCreator (creatorLogin : jsstring)
    (opts : option search_options).

(** The fields a method call leaves on [c] when the remote side is [w]. *)
Definition invoke (E : engine) (m : method) (w : remote) (c : client)
    : option client :=
  match m with
  | Authenticate => final (run w (authenticate E c))
  | CreateTicket p => final (run w (createTicket p c))
  | GetKeywords p => final (run w (getKeywords E p c))
  | GetTicketDetails ticketId => final (run w (getTicketDetails E ticketId c))
  | SearchTicketsByCreator login opts =>
      final (run w (searchTicketsByCreator E login opts c))
  end.

(** The states of a client: as constructed, then after any method call
    that returned or threw, whatever the remote side answered. *)
Inductive reachable (E : engine) : client -> Prop :=
| reachable_new (b s u p : jsstring) : reachable E (new_client b s u p)
| reachable_invoke (m : method) (w : remote) (c c' : client) :
    reachable E c -> invoke E m w c = Some c' -> reachable E c'.

(** A method keeps the relation [R] between the fields before and after. *)
Definition maintains (R : client -> client -> Prop) {A : Type} (m : M A)
    : Prop :=
  forall w c o c', result (run w (m c)) = Some (o, c') -> R c c'.

(** A handle is only ever acquired with a token in hand. *)
Definition handle_needs_token (c : client) : Prop :=
  authToken c = None -> soapClient c = None.

Definition keeps_handle_needs_token (c c' : client) : Prop :=
  handle_needs_token c -> handle_needs_token c'.

(** *** The requests *)

Definition auth_url (c : client) : jsstring :=
  baseUrl c ++ lit "/dokuweb/auth/token".

Definition auth_config (c : client) : axios_config :=
  {| params := [];
     headers :=
       [(lit "Authorization",
         lit "Basic "
         ++ toString_base64
              (Buffer_from (username c ++ lit ":" ++ password c)))] |}.

Definition details_url (c : client) (encoded : jsstring) : jsstring :=
  baseUrl c ++ lit "/dokuweb/ticket/" ++ encoded.

Definition details_config (c : client) : axios_config :=
  {| params := [(lit "authtoken", token_value (authToken c))];
     headers := [] |}.

Definition search_url (c : client) : jsstring :=
  baseUrl c ++ lit "/dokuweb/tickets/".

(** The query of [searchTicketsByCreator]. *)
Definition search_config (c : client) (creatorLogin : jsstring)
    (start max : jsvalue) : axios_config :=
  {| params :=
       [(lit "authtoken", token_value (authToken c));
        (lit "start", start);
        (lit "max", max);
        (lit "field_count", JNum 1 0);
        (lit "f1", JStr (lit "CREATE_BY"));
        (lit "f1_op", JStr (lit "="));
        (lit "f1_val", JStr creatorLogin)];
     headers := [] |}.

(** [start] and [max] as the method reads them from its second argument:
    a property that is missing or [undefined] reads as its default. *)
Definition start_of (opts : option search_options) : jsvalue :=
  match opts with
  | Some {| start := Some JUndefined |} => JNum 1 0
  | Some {| start := Some s |} => s
  | _ => JNum 1 0
  end.

Definition max_of (opts : option search_options) : jsvalue :=
  match opts with
  | Some {| max := Some JUndefined |} => JNum 10 0
  | Some {| max := Some m |} => m
  | _ => JNum 10 0
  end.

(** The number a run of decimal digits stands for, read from the left with
    [acc] for what was read so far. *)
Fixpoint digits_value (acc : N) (s : jsstring) : option N :=
  match s with
  | [] => Some acc
  | d :: s' =>
      if is_digit d then digits_value (10 * acc + (d - 48)) s' else None
  end.

(** [s] is the number [n] as JavaScript writes an integer: decimal digits,
    at least one, without a leading zero (but for zero itself). *)
Definition decimal (s : jsstring) (n : N) : Prop :=
  s <> [] /\ digits_value 0 s = Some n /\ (head s = Some 48 -> s = [48]).

(** The error of the [catch] blocks of the REST methods. *)
Definition rest_error (method_name : jsstring) (err : js_error) : js_error :=
  Error (method_name ++ lit " REST error: " ++ show_status err ++ lit " "
         ++ show_statusText err).

Definition ticket_created (parts : list jsstring) : created_ticket :=
  {| ticketid := parts !! 1%nat; ticketnr := parts !! 2%nat |}.

(** *** Text and classes *)

Definition in_class (cls : charclass) (s : jsstring) : Prop :=
  Forall (fun c => class_matches cls c = true) s.

(** The text stops the class: it is empty or starts outside of [cls]. *)
Definition stops (cls : charclass) (s : jsstring) : Prop :=
  match s with
  | c :: _ => class_matches cls c = false
  | [] => True
  end.

Definition word_chars (s : jsstring) : Prop :=
  Forall (fun c => is_word c = true) s.

Definition no_word (s : jsstring) : Prop :=
  Forall (fun c => is_word c = false) s.

Definition no_quote (s : jsstring) : Prop := Forall (fun c => c <> 34) s.

Definition no_gt (s : jsstring) : Prop := Forall (fun c => c <> 62) s.

(** The text [s] between double quotes. *)
Definition quoted (s : jsstring) : jsstring := 34 :: s ++ [34].

(** *** A model of the documents *)

(** An attribute as written: the text before its name (white space, as a
    rule), the name, and the value between the quotes. *)
Record attr_src : Type := AttrSrc {
  a_before : jsstring;
  a_name : jsstring;
  a_value : jsstring
}.

Definition render_attr (a : attr_src) : jsstring :=
  a_before a ++ a_name a ++ [61; 34] ++ a_value a ++ [34].

Definition render_attrs (l : list attr_src) : jsstring :=
  flat_map render_attr l.

(** An element as written: the text before it, the white space after
    [<ticket], its attributes, and the text between the last of them and
    the closing [/>]. *)
Record ticket_src : Type := TicketSrc {
  t_before : jsstring;
  t_space : code_unit;
  t_attrs : list attr_src;
  t_tail : jsstring
}.

Definition attr_text (t : ticket_src) : jsstring :=
  render_attrs (t_attrs t) ++ t_tail t.

Definition render_ticket (t : ticket_src) : jsstring :=
  t_before t ++ lit "<ticket" ++ t_space t :: attr_text t ++ lit "/>".

Definition render_tickets (ts : list ticket_src) : jsstring :=
  flat_map render_ticket ts.

(** The object the attribute loop builds from the pairs, in order. *)
Definition attrs_of (l : list attr_src) (attrs : gmap jsstring jsstring)
    : gmap jsstring jsstring :=
  fold_left (fun attrs a => set_prop (a_name a) (a_value a) attrs) l attrs.

(** The mapping of an element. *)
Definition ticket_attrs (t : ticket_src) : gmap jsstring jsstring :=
  attrs_of (t_attrs t) ∅.

Definition names (l : list attr_src) : list jsstring := map a_name l.

(** An opening [<ticket] followed by white space starts here. *)
Definition opens_here (s : jsstring) : bool :=
  match strip_prefix (lit "<ticket") s with
  | Some (w :: _) => is_space w
  | _ => false
  end.

(** ... starts somewhere in [s]. *)
Fixpoint has_ticket_open (s : jsstring) : bool :=
  opens_here s
  || match s with
     | _ :: s' => has_ticket_open s'
     | [] => false
     end.

(** What follows a stretch of text: the end of the input, or the [<] of
    the next element. *)
Definition boundary (next : jsstring) : Prop :=
  next = [] \/ exists n, next = 60 :: n.

(** Text between two attributes: no word character, no [>]. *)
Definition separator_ok (s : jsstring) : bool :=
  forallb (fun c => negb (is_word c) && negb (c =? 62)) s.

(** A name: word characters, at least one. *)
Definition name_ok (s : jsstring) : bool :=
  match s with
  | [] => false
  | _ :: _ => forallb is_word s
  end.

(** A value: no double quote, no [>]. *)
Definition value_ok (s : jsstring) : bool :=
  forallb (fun c => negb (c =? 34) && negb (c =? 62)) s.

Definition attr_ok (a : attr_src) : bool :=
  separator_ok (a_before a) && name_ok (a_name a) && value_ok (a_value a).

(** An element the patterns read as written: no opening in the text
    before it, white space after [<ticket], attributes as [attr_ok] says,
    and an attribute text that is not empty. *)
Definition ticket_ok (t : ticket_src) : bool :=
  negb (has_ticket_open (t_before t)) && is_space (t_space t)
  && forallb attr_ok (t_attrs t) && separator_ok (t_tail t)
  && negb (bool_decide (attr_text t = [])).

(** The body holds an element in the sense of the patterns: an opening,
    white space, a non-empty attribute text without [>], and the closing
    [/>]. *)
Definition contains_ticket_element (body : jsstring) : Prop :=
  exists pre w a post,
    body = pre ++ lit "<ticket" ++ w :: a ++ lit "/>" ++ post
    /\ is_space w = true /\ a <> [] /\ no_gt a.

(** Every match of [r] takes at least one character. *)
Definition advances (r : regex) : Prop :=
  forall s rest caps,
    match_here r s = Some (rest, caps) ->
    exists x, x <> [] /\ s = x ++ rest.

(** The groups of a match of [attrRegex] and of the ticket patterns. *)
Definition attr_groups (name value : jsstring) : gmap nat jsstring :=
  <[0%nat := name ++ [61; 34] ++ value ++ [34]]>
    (<[2%nat := value]> (<[1%nat := name]> ∅)).

Definition ticket_groups (w : code_unit) (a : jsstring) : gmap nat jsstring :=
  <[0%nat := lit "<ticket" ++ w :: a ++ lit "/>"]> (<[1%nat := a]> ∅).

(** *** More vocabulary: white space, arguments, what is written *)

Definition all_space (s : jsstring) : Prop :=
  Forall (fun c => is_space c = true) s.

(** No white space at either end. *)
Definition trimmed (s : jsstring) : Prop :=
  (forall c, head s = Some c -> is_space c = false)
  /\ (forall c, last s = Some c -> is_space c = false).

Definition no_bar (s : jsstring) : Prop := Forall (fun c => c <> 124) s.

(** The arguments [createTicket] hands to the remote operation when the
    token is [token]. *)
Definition ticket_args (token : option jsstring) (p : ticket_params)
    : list (jsstring * jsvalue) :=
  let options := with_default (options p) no_options in
  [(lit "authToken", token_value token);
   (lit "sSubject", JStr (subject p));
   (lit "sPartner", JStr (partnerId p));
   (lit "sKeyword", JStr (keyword p));
   (lit "sCategory", JStr (or_default (category options) []));
   (lit "sChannel", JStr (or_default (channel options) (lit "POST")));
   (lit "sDescription", JStr (or_default (description options) []));
   (lit "sType", JStr (or_default (type options) (lit "1")));
   (lit "sPLZ", JStr []);
   (lit "sTicketgroup", JStr (or_default (ticketGroup options) []));
   (lit "sFieldvalues", JStr (or_default (fieldValues options) []));
   (lit "sPriority", JStr (or_default (priority options) []));
   (lit "sTicketsystem", JStr (or_default (ticketSystem options) []))].

(** ... and [getKeywords]. *)
Definition keywords_args (token : option jsstring)
    (p : option keyword_params) : list (jsstring * jsvalue) :=
  let p := with_default p (KeywordParams None None) in
  [(lit "authToken", token_value token);
   (lit "sChannel", JStr (with_default (k_channel p) []));
   (lit "sTicketsystem", JStr (with_default (k_ticketSystem p) []))].

(** The value of an argument by its name. *)
Fixpoint arg (name : jsstring) (args : list (jsstring * jsvalue))
    : option jsvalue :=
  match args with
  | [] => None
  | (k, v) :: rest => if bool_decide (k = name) then Some v else arg name rest
  end.

(** What [createTicket] makes of the answer of the remote operation. *)
Definition createTicket_settled (answer : jsstring + js_error)
    : outcome created_ticket :=
  match answer with
  | inl returned =>
      if bool_decide (split 124 returned !! 0%nat = Some (lit "true"))
      then Returned {| ticketid := split 124 returned !! 1%nat;
                       ticketnr := split 124 returned !! 2%nat |}
      else Thrown (Error (lit "createTicket SOAP error: "
                            ++ lit "Ticket creation failed: " ++ returned))
  | inr err => Thrown (Error (lit "createTicket SOAP error: " ++ message err))
  end.

(** Characters that keep their meaning inside a path segment. *)
Definition uri_safe (c : code_unit) : bool := uri_unreserved c || (c =? 37).

(** The value of the last attribute of [l] named [k]. *)
Fixpoint last_value (k : jsstring) (l : list attr_src) : option jsstring :=
  match l with
  | [] => None
  | a :: l' =>
      match last_value k l' with
      | Some v => Some v
      | None => if bool_decide (a_name a = k) then Some (a_value a) else None
      end
  end.

(** The pair [k], equals sign, [v] between double quotes stands in
    [body]. *)
Definition written_in (body k v : jsstring) : Prop :=
  exists pre post, body = pre ++ k ++ [61; 34] ++ v ++ 34 :: post.

(** Every entry of [attrs] is a pair written in [body], with a word for
    its name. *)
Definition read_from (body : jsstring) (attrs : gmap jsstring jsstring)
    : Prop :=
  forall k v, attrs !! k = Some v ->
    k <> [] /\ word_chars k /\ k <> lit "__proto__"
    /\ no_quote v /\ written_in body k v.

(** The mapping was read from one element of the body: every entry is
    written there as a pair, name, equals sign, value between double
    quotes, inside the attribute text of that element. *)
Definition read_from_element (body : jsstring)
    (attrs : gmap jsstring jsstring) : Prop :=
  exists pre w a post,
    body = pre ++ lit "<ticket" ++ w :: a ++ lit "/>" ++ post
    /\ is_space w = true
    /\ forall k v, attrs !! k = Some v ->
         k <> [] /\ word_chars k /\ k <> lit "__proto__"
         /\ no_quote v /\ no_gt v /\ written_in a k v.

(** *** Sample data *)

(** An engine to run examples with: V8's wording of the TypeError and of
    the URIError, one text for every SyntaxError, a number shown as its
    mantissa and exponent. *)
Definition sample_engine : engine :=
  {| fault_message f :=
       match f with
       | JsonSyntax _ => lit "Unexpected token in JSON"
       | ReadOfNullish v prop =>
           lit "Cannot read properties of "
           ++ (match v with JNull => lit "null" | _ => lit "undefined" end)
           ++ lit " (reading '" ++ prop ++ lit "')"
       | NotAFunction callee => callee ++ lit " is not a function"
       | NoPrimitive => lit "Cannot convert object to primitive value"
       | UriMalformed => lit "URI malformed"
       end;
     number_to_string m e :=
       (if (m <? 0)%Z then lit "-" else [])
       ++ string_of_N (Z.abs_N m) ++ lit "e"
       ++ (if (e <? 0)%Z then lit "-" else []) ++ string_of_N (Z.abs_N e) |}.

Definition sample_client : client :=
  new_client (lit "https://dokuweb.example/api/")
    (lit "https://dokuweb.example/api/webservices/Tickets.cfc?wsdl")
    (lit "user") (lit "secret").

Definition signed_in : client :=
  with_authToken (Some (lit "TOKEN")) sample_client.

(** A remote side that answers every GET with [get] and every SOAP
    operation with [soap]. *)
Definition sample_remote (get : http_response + js_error)
    (soap : jsstring + js_error) : remote :=
  {| on_get _ _ := get;
     on_createClient _ := inl (SoapClient 1);
     on_call _ _ _ := soap |}.

(** An answer 200 OK whose body arrives as the text [body]. *)
Definition ok (body : jsstring) : http_response + js_error :=
  inl (HttpResponse 200 (lit "OK") (JStr body)).

Definition unauthorized : http_response + js_error :=
  inr (JsError (lit "Request failed with status code 401")
         (Some (HttpResponse 401 (lit "Unauthorized") (JStr [])))).

Definition sample_ticket : ticket_params :=
  {| subject := lit "Test Ticket"; partnerId := lit "1000.4711.00123.01";
     keyword := lit "Miete"; options := None |}.

(** The envelope of the specification's example: the object with SUCCESS
    true and one keyword in DATA. *)
Definition keywords_envelope : jsstring :=
  lit "{" ++ quoted (lit "SUCCESS") ++ lit ": true, "
  ++ quoted (lit "DATA") ++ lit ": [{" ++ quoted (lit "KEYWORD") ++ lit ":"
  ++ quoted (lit "Mieterh" ++ [246] ++ lit "hung") ++ lit "}]}".

Definition keywords_data : jsvalue :=
  JArr [JObj [(lit "KEYWORD", JStr (lit "Mieterh" ++ [246] ++ lit "hung"))]].

(** Two elements inside a [tickets] root. *)
Definition ticket_55 : ticket_src :=
  {| t_before := lit "<tickets>";
     t_space := 32;
     t_attrs := [AttrSrc [] (lit "ticketid") (lit "55");
                 AttrSrc (lit " ") (lit "subject")
                   (lit "Heizung & Wasser = kalt/warm")];
     t_tail := [] |}.

Definition ticket_56 : ticket_src :=
  {| t_before := [10; 32; 32];
     t_space := 32;
     t_attrs := [AttrSrc [] (lit "ticketid") (lit "56");
                 AttrSrc [10; 32] (lit "create_by") (lit "me")];
     t_tail := lit " " |}.

(** An element whose value holds the character [>]. *)
Definition ticket_gt : ticket_src :=
  {| t_before := [];
     t_space := 32;
     t_attrs := [AttrSrc [] (lit "subject") (lit "a>b")];
     t_tail := [] |}.

(** A client that holds a token and a handle, and an element that names
    an attribute twice. *)
Definition cached : client := with_soapClient (Some (SoapClient 1)) signed_in.

Definition ticket_twice : ticket_src :=
  {| t_before := [];
     t_space := 32;
     t_attrs := [AttrSrc [] (lit "status") (lit "open");
                 AttrSrc (lit " ") (lit "status") (lit "closed")];
     t_tail := [] |}.

(** * Proofs *)

(** ** Strings *)

Lemma strip_prefix_app (t r : jsstring) : strip_prefix t (t ++ r) = Some r.
Proof.
  induction t as [|a t IH]; simpl; [reflexivity|].
  rewrite N.eqb_refl. exact IH.
Qed.

Lemma strip_prefix_Some (t s r : jsstring) :
  strip_prefix t s = Some r -> s = t ++ r.
Proof.
  revert s. induction t as [|a t IH]; intros s H; simpl in *.
  - congruence.
  - destruct s as [|b s]; [discriminate|].
    destruct (N.eqb_spec a b) as [->|]; [|discriminate].
    f_equal. apply IH, H.
Qed.

Lemma includes_here (s t r : jsstring) :
  strip_prefix t s = Some r -> includes s t = true.
Proof. intros H. destruct s; simpl; rewrite H; reflexivity. Qed.

Lemma includes_app (pre t post : jsstring) :
  includes (pre ++ t ++ post) t = true.
Proof.
  induction pre as [|a pre IH].
  - rewrite app_nil_l. apply (includes_here _ _ post), strip_prefix_app.
  - simpl.
    destruct (strip_prefix t (a :: pre ++ t ++ post)); [reflexivity|exact IH].
Qed.

Lemma includes_suffix (pre t : jsstring) : includes (pre ++ t) t = true.
Proof.
  rewrite <- (app_nil_r t) at 1. apply includes_app.
Qed.

(** ** The runtime on examples *)

Example trim_example :
  trim ([32; 10] ++ lit "a b" ++ [9; 160; 13; 10]) = lit "a b".
Proof. reflexivity. Qed.

Example split_example :
  split 124 (lit "true|55|TK-2024-001")
  = [lit "true"; lit "55"; lit "TK-2024-001"]
  /\ split 124 [] = [[]]
  /\ split 124 (lit "a||") = [lit "a"; []; []].
Proof. repeat split; reflexivity. Qed.

(** The pattern of [getTicketDetails] finds the first element, at index 9
    here, and ends after its [/>]. *)
Example ticketMatchRegex_first :
  let xml := lit "<tickets><ticket a=" ++ quoted (lit "1") ++ lit "/><ticket b="
             ++ quoted (lit "2") ++ lit "/></tickets>" in
  match string_match xml ticketMatchRegex with
  | Some m =>
      index m = 9%nat /\ m_end m = 24%nat
      /\ group m 1 = lit "a=" ++ quoted (lit "1")
  | None => False
  end.
Proof. vm_compute. repeat split; reflexivity. Qed.

(** The greedy quantifier gives characters back until the closing [/>]
    fits: the slash of a value stays in group 1. *)
Example ticketMatchRegex_backtracks :
  let xml := lit "<ticket url=" ++ quoted (lit "a/b/") ++ lit "/>" in
  match string_match xml ticketMatchRegex with
  | Some m => group m 1 = lit "url=" ++ quoted (lit "a/b/")
  | None => False
  end.
Proof. vm_compute. reflexivity. Qed.

(** An element without attribute text, or without white space after the
    name, is not matched. *)
Example ticketRegex_needs_attribute_text :
  regexp_exec ticketRegex (lit "<ticket />") 0 = None
  /\ regexp_exec ticketRegex (lit "<ticket/>") 0 = None
  /\ regexp_exec ticketRegex (lit "<ticketx a/>") 0 = None.
Proof. vm_compute. repeat split; reflexivity. Qed.

(** The loop over [attrRegex] resumes after each match. *)
Example attrRegex_loop :
  exec_loop 10 attrRegex
    (lit "a=" ++ quoted (lit "1") ++ lit " bb=" ++ quoted [] ++ lit " c")
    0 (fun m acc => acc ++ [(index m, group m 1, group m 2)]) []
  = Some [(0%nat, lit "a", lit "1"); (6%nat, lit "bb", [])].
Proof. vm_compute. reflexivity. Qed.

Example JSON_parse_examples :
  JSON_parse (lit " [1, -2.50e1, true, null, {}] ")
  = Some (JArr [JNum 1 0; JNum (-250) (-1); JBool true; JNull; JObj []])
  /\ JSON_parse (lit "{" ++ quoted (lit "a") ++ lit ":"
                 ++ quoted (lit "x" ++ [233] ++ lit "\n") ++ lit "}")
     = Some (JObj [(lit "a", JStr [120; 233; 10])])
  /\ JSON_parse (lit "[1,]") = None
  /\ JSON_parse (lit "01") = None
  /\ JSON_parse [] = None.
Proof. vm_compute. repeat split; reflexivity. Qed.

Example encodings_examples :
  toString_base64 (Buffer_from (lit "Aladdin:open sesame"))
  = lit "QWxhZGRpbjpvcGVuIHNlc2FtZQ=="
  /\ encodeURIComponent (lit "a b/" ++ [246])
     = Some (lit "a%20b%2F%C3%B6")
  /\ encodeURIComponent [55357] = None.
Proof. vm_compute. repeat split; reflexivity. Qed.

(** ** The session *)

Lemma with_soapClient_id (c : client) : with_soapClient (soapClient c) c = c.
Proof. destruct c; reflexivity. Qed.

Lemma with_soapClient_same (c : client) (h : soap_client) :
  soapClient c = Some h -> with_soapClient (Some h) c = c.
Proof. intros <-. apply with_soapClient_id. Qed.

(** The two ends of [_getSoapClient] inside a method [m >>= f]. *)
Lemma run_getSoapClient_ready {A : Type} (w : remote) (c : client)
    (h : soap_client) (f : soap_client -> M A) :
  soap_ready w c = Some h ->
  result (run w (bind _getSoapClient f c))
  = result (run w (f h (with_soapClient (Some h) c))).
Proof.
  unfold soap_ready, _getSoapClient, bind, get_this. cbn [io_bind].
  destruct (soapClient c) as [h'|] eqn:Hc.
  - intros [= ->]. unfold ret. cbn [io_bind].
    rewrite (with_soapClient_same c h Hc). reflexivity.
  - destruct (token_missing (authToken c)); [discriminate|].
    unfold soap_createClientAsync, set_soapClient, ret. cbn [io_bind run].
    destruct (on_createClient w (soapWsdl c)) as [h'|e]; [|discriminate].
    intros [= ->]. cbn [settle io_bind].
    destruct (run w (f h (with_soapClient (Some h) c))); reflexivity.
Qed.

Lemma getSoapClient_missing {A : Type} (c : client) (f : soap_client -> M A) :
  soapClient c = None -> token_missing (authToken c) = true ->
  bind _getSoapClient f c = Ret (Thrown missing_token_error, c).
Proof.
  intros Hs Ht. unfold _getSoapClient, bind, get_this. cbn [io_bind].
  rewrite Hs, Ht. reflexivity.
Qed.

(** ** trim and the decimal display *)

Lemma trim_start_split (s : jsstring) :
  exists sp, s = sp ++ trim_start s /\ all_space sp.
Proof.
  induction s as [|c s (sp & Hs & Hsp)]; simpl.
  - exists []. split; [reflexivity|constructor].
  - destruct (is_space c) eqn:Hc.
    + exists (c :: sp). split; [simpl; f_equal; exact Hs|].
      constructor; assumption.
    + exists []. split; [reflexivity|constructor].
Qed.

Lemma trim_start_head (s : jsstring) (c : code_unit) :
  head (trim_start s) = Some c -> is_space c = false.
Proof.
  induction s as [|d s IH]; simpl; [discriminate|].
  destruct (is_space d) eqn:Hd; [exact IH|].
  simpl. intros [= <-]. exact Hd.
Qed.

Lemma trim_start_id (s : jsstring) :
  (forall c, head s = Some c -> is_space c = false) -> trim_start s = s.
Proof.
  destruct s as [|c s]; [reflexivity|]. intros H. simpl.
  rewrite (H c eq_refl). reflexivity.
Qed.

Lemma trim_start_all_space (s : jsstring) : all_space s -> trim_start s = [].
Proof.
  induction 1 as [|c s Hc _ IH]; simpl; [reflexivity|]. rewrite Hc. exact IH.
Qed.

Lemma last_rev_head (s : jsstring) : last (rev s) = head s.
Proof. destruct s as [|c s]; [reflexivity|]. simpl. apply last_snoc. Qed.

Lemma head_rev_last (s : jsstring) : head (rev s) = last s.
Proof. rewrite <- (rev_involutive s) at 2. symmetry. apply last_rev_head. Qed.

Lemma trim_end_split (s : jsstring) :
  exists sp, s = trim_end s ++ sp /\ all_space sp.
Proof.
  unfold trim_end. destruct (trim_start_split (rev s)) as (sp & Hs & Hsp).
  exists (rev sp). split.
  - rewrite <- rev_app_distr, <- Hs, rev_involutive. reflexivity.
  - apply Forall_rev, Hsp.
Qed.

Lemma trim_end_last (s : jsstring) (c : code_unit) :
  last (trim_end s) = Some c -> is_space c = false.
Proof.
  unfold trim_end. rewrite last_rev_head. apply trim_start_head.
Qed.

Lemma trim_end_head (s : jsstring) (c : code_unit) :
  (forall d, head s = Some d -> is_space d = false) ->
  head (trim_end s) = Some c -> is_space c = false.
Proof.
  intros Hs. destruct (trim_end_split s) as (sp & Heq & _).
  destruct (trim_end s) as [|d t]; [discriminate|].
  simpl. intros [= <-]. apply Hs. rewrite Heq. reflexivity.
Qed.

Lemma trim_trimmed (s : jsstring) : trimmed (trim s).
Proof.
  unfold trim. split; intros c.
  - apply trim_end_head. intros d. apply trim_start_head.
  - apply trim_end_last.
Qed.

Lemma trim_end_id (s : jsstring) :
  (forall c, last s = Some c -> is_space c = false) -> trim_end s = s.
Proof.
  intros H. unfold trim_end. rewrite trim_start_id, rev_involutive;
    [reflexivity|].
  intros c. rewrite head_rev_last. apply H.
Qed.

Lemma trimmed_trim (s : jsstring) : trimmed s -> trim s = s.
Proof.
  intros [Hh Hl]. unfold trim. rewrite (trim_start_id s Hh).
  apply trim_end_id, Hl.
Qed.

Lemma trim_all_space (s : jsstring) : all_space s -> trim s = [].
Proof. intros H. unfold trim. rewrite trim_start_all_space; auto. Qed.

Lemma trim_split (s : jsstring) :
  exists before after,
    s = before ++ trim s ++ after /\ all_space before /\ all_space after.
Proof.
  destruct (trim_start_split s) as (b & Hs & Hb).
  destruct (trim_end_split (trim_start s)) as (a & Ht & Ha).
  exists b, a. unfold trim. rewrite <- Ht. auto.
Qed.

Lemma trim_nonempty (s : jsstring) :
  ~ all_space s -> trim s <> [].
Proof.
  intros Hs Ht. destruct (trim_split s) as (b & a & Heq & Hb & Ha).
  apply Hs. rewrite Heq, Ht. apply Forall_app. split; assumption.
Qed.

Lemma digits_value_acc (d : Decimal.uint) (acc : positive) :
  digits_value (N.pos acc) (lit (NilEmpty.string_of_uint d))
  = Some (N.pos (Pos.of_uint_acc d acc)).
Proof.
  revert acc.
  induction d as [|d IH|d IH|d IH|d IH|d IH|d IH|d IH|d IH|d IH|d IH];
    intros acc; [reflexivity|..].
  all: cbn [NilEmpty.string_of_uint lit list_ascii_of_string map].
  all: cbn [digits_value].
  all: match goal with
       | |- context [is_digit ?c] =>
           replace (is_digit c) with true by reflexivity
       end.
  all: cbn [Pos.of_uint_acc]; rewrite <- IH;
    fold (lit (NilEmpty.string_of_uint d)).
  all: f_equal.
  all: match goal with
       | |- context [N_of_ascii ?c - 48] =>
           let k := eval vm_compute in (N_of_ascii c - 48) in
           change (N_of_ascii c - 48) with k
       end; lia.
Qed.

Lemma digits_value_of_uint (d : Decimal.uint) :
  digits_value 0 (lit (NilEmpty.string_of_uint d)) = Some (Pos.of_uint d).
Proof.
  induction d as [|d IH|d IH|d IH|d IH|d IH|d IH|d IH|d IH|d IH|d IH];
    [reflexivity|exact IH|..];
    cbn [Pos.of_uint]; rewrite <- digits_value_acc; reflexivity.
Qed.

Lemma nzhead_no_zero (d d' : Decimal.uint) :
  Decimal.nzhead d <> Decimal.D0 d'.
Proof. induction d; cbn [Decimal.nzhead]; try discriminate. exact IHd. Qed.

Lemma to_uint_no_leading_zero (n : N) (d : Decimal.uint) :
  N.to_uint n = Decimal.D0 d -> d = Decimal.Nil.
Proof.
  rewrite <- (DecimalN.Unsigned.of_to n) at 1.
  rewrite DecimalN.Unsigned.to_of. unfold Decimal.unorm.
  destruct (Decimal.nzhead (N.to_uint n)) eqn:Hn; try discriminate.
  - intros [= <-]. reflexivity.
  - intros _. exfalso. exact (nzhead_no_zero _ _ Hn).
Qed.

(** [String(n)] is [n] in decimal. *)
Lemma string_of_N_decimal (n : N) : decimal (string_of_N n) n.
Proof.
  unfold decimal, string_of_N. split; [|split].
  - destruct n as [|p]; [discriminate|]. cbn [N.to_uint].
    pose proof (Unsigned.to_uint_nonnil p) as H.
    destruct (Pos.to_uint p); [contradiction|..]; discriminate.
  - rewrite digits_value_of_uint. f_equal. apply DecimalN.Unsigned.of_to.
  - destruct (N.to_uint n) as [|d|d|d|d|d|d|d|d|d|d] eqn:Hn;
      try discriminate.
    apply to_uint_no_leading_zero in Hn. subst d. reflexivity.
Qed.

(** ** authenticate *)

Lemma run_authenticate (E : engine) (w : remote) (c : client) :
  run w (authenticate E c)
  = ([HttpGet (auth_url c) (auth_config c)],
     Some match on_get w (auth_url c) (auth_config c) with
          | inl r =>
              match data r with
              | JStr body =>
                  (Returned (Some (trim body)),
                   with_authToken (Some (trim body)) c)
              | _ =>
                  (Thrown (Error (lit "Authentication failed: undefined undefined")),
                   c)
              end
          | inr err =>
              (Thrown (Error (lit "Authentication failed: "
                                ++ show_status err ++ lit " "
                                ++ show_statusText err)), c)
          end).
Proof.
  unfold authenticate, bind, try_catch, get_this, axios_get, set_authToken,
    string_receiver, ret, throw, auth_url, auth_config.
  cbn [io_bind run].
  destruct (on_get w _ _) as [r|e]; [|reflexivity].
  cbn [settle io_bind]. destruct (data r); reflexivity.
Qed.

(** C8, as the code has it.  [authenticate()] sends one GET to the token
    endpoint.  When the request is answered with success and the body
    arrives as text, the text without the white space around it becomes
    [authToken] and is returned.  When the body arrives as anything else
    (a body that is a JSON text arrives parsed), the method throws
    "Authentication failed: undefined undefined".  When the request is
    rejected with a response, it throws "Authentication failed: " followed
    by the status code in decimal, a space and the status text; when the
    rejection carries no response (the transport failed), the message is
    again "Authentication failed: undefined undefined".  No failure
    changes the client. *)
Theorem authenticate_outcomes (E : engine) (w : remote) (c : client) :
  trace (run w (authenticate E c)) = [HttpGet (auth_url c) (auth_config c)]
  /\ (forall r body,
        on_get w (auth_url c) (auth_config c) = inl r ->
        data r = JStr body ->
        exists before token after,
          body = before ++ token ++ after
          /\ all_space before /\ all_space after /\ trimmed token
          /\ result (run w (authenticate E c))
             = Some (Returned (Some token), with_authToken (Some token) c))
  /\ (forall r,
        on_get w (auth_url c) (auth_config c) = inl r ->
        (forall body, data r <> JStr body) ->
        result (run w (authenticate E c))
        = Some (Thrown (Error (lit "Authentication failed: undefined undefined")),
                c))
  /\ (forall err r,
        on_get w (auth_url c) (auth_config c) = inr err ->
        response err = Some r ->
        exists code,
          decimal code (status r)
          /\ result (run w (authenticate E c))
             = Some (Thrown (Error (lit "Authentication failed: " ++ code
                                      ++ lit " " ++ statusText r)), c))
  /\ (forall err,
        on_get w (auth_url c) (auth_config c) = inr err ->
        response err = None ->
        result (run w (authenticate E c))
        = Some (Thrown (Error (lit "Authentication failed: undefined undefined")),
                c)).
Proof.
  rewrite run_authenticate. unfold result, trace. cbn [fst snd].
  split; [reflexivity|]. split; [|split; [|split]].
  - intros r body -> Hbody. rewrite Hbody.
    destruct (trim_split body) as (before & after & Hsplit & Hb & Ha).
    exists before, (trim body), after.
    split; [exact Hsplit|]. split; [exact Hb|]. split; [exact Ha|].
    split; [apply trim_trimmed|reflexivity].
  - intros r -> Hdata.
    destruct (data r) as [| | | |body| |]; try reflexivity.
    exfalso. apply (Hdata body). reflexivity.
  - intros err r -> Hr. exists (string_of_N (status r)).
    split; [apply string_of_N_decimal|].
    unfold show_status, show_statusText. rewrite Hr. reflexivity.
  - intros err -> Hr. unfold show_status, show_statusText. rewrite Hr.
    reflexivity.
Qed.

Lemma authenticate_outcomes_witness :
  let w := sample_remote unauthorized (inl []) in
  exists code,
    decimal code 401
    /\ result (run w (authenticate sample_engine sample_client))
       = Some (Thrown (Error (lit "Authentication failed: " ++ code
                                ++ lit " Unauthorized")), sample_client).
Proof.
  intros w.
  apply (proj1 (proj2 (proj2 (proj2
           (authenticate_outcomes sample_engine w sample_client))))
           (JsError (lit "Request failed with status code 401")
              (Some (HttpResponse 401 (lit "Unauthorized") (JStr []))))
           (HttpResponse 401 (lit "Unauthorized") (JStr []))
           eq_refl eq_refl).
Defined.

(** The example of a refused login. *)
Example authenticate_unauthorized :
  let w := sample_remote unauthorized (inl []) in
  result (run w (authenticate sample_engine sample_client))
  = Some (Thrown (Error (lit "Authentication failed: 401 Unauthorized")),
          sample_client).
Proof. vm_compute; reflexivity. Qed.

Example authenticate_trims :
  let w := sample_remote (ok ([32] ++ lit "TOKEN" ++ [13; 10])) (inl []) in
  result (run w (authenticate sample_engine sample_client))
  = Some (Returned (Some (lit "TOKEN")), signed_in).
Proof. vm_compute; reflexivity. Qed.

(** Two failures that carry neither a status code nor a reason: a request
    that was never answered, and a request answered with success whose
    body is the JSON text 12345 and arrives as a number, on which [trim]
    cannot be called. *)
Lemma authenticate_without_status :
  let refused := sample_remote (inr (Error (lit "connect ECONNREFUSED")))
                   (inl []) in
  let number := sample_remote
                  (inl (HttpResponse 200 (lit "OK") (JNum 12345 0)))
                  (inl []) in
  result (run refused (authenticate sample_engine sample_client))
  = Some (Thrown (Error (lit "Authentication failed: undefined undefined")),
          sample_client)
  /\ result (run number (authenticate sample_engine sample_client))
     = Some (Thrown (Error (lit "Authentication failed: undefined undefined")),
             sample_client).
Proof. vm_compute. split; reflexivity. Qed.

(** C10. When [authenticate()] throws, the fields of the client are the
    ones it had before the call: [authToken] keeps its value and
    [soapClient] is not touched.  This holds of both ways the method can
    fail: the request is rejected, or it is answered with success and the
    body is not text, so that the call of [trim], which comes before the
    assignment, throws. *)
Theorem authenticate_failure_keeps_state (E : engine) (w : remote)
    (c : client) :
  (forall e c',
     result (run w (authenticate E c)) = Some (Thrown e, c') ->
     c' = c /\ authToken c' = authToken c /\ soapClient c' = soapClient c)
  /\ (forall err,
        on_get w (auth_url c) (auth_config c) = inr err ->
        exists e, result (run w (authenticate E c)) = Some (Thrown e, c))
  /\ (forall r,
        on_get w (auth_url c) (auth_config c) = inl r ->
        (forall body, data r <> JStr body) ->
        exists e, result (run w (authenticate E c)) = Some (Thrown e, c)).
Proof.
  rewrite run_authenticate. unfold result. cbn [snd].
  split; [|split].
  - intros e c'. destruct (on_get w _ _) as [r|err].
    + destruct (data r); intros [= <- <-]; auto.
    + intros [= <- <-]. auto.
  - intros err ->. eexists. reflexivity.
  - intros r -> Hdata.
    destruct (data r) as [| | | |body| |]; try (eexists; reflexivity).
    exfalso. apply (Hdata body). reflexivity.
Qed.

Lemma authenticate_failure_keeps_state_witness :
  let w := sample_remote (inl (HttpResponse 200 (lit "OK") (JNum 12345 0)))
             (inl []) in
  exists e,
    result (run w (authenticate sample_engine signed_in))
    = Some (Thrown e, signed_in)
    /\ authToken signed_in = Some (lit "TOKEN").
Proof.
  intros w.
  destruct (proj2 (proj2 (authenticate_failure_keeps_state sample_engine w
                            signed_in))
              (HttpResponse 200 (lit "OK") (JNum 12345 0)) eq_refl
              ltac:(discriminate)) as [e He].
  exists e. split; [exact He|].
  destruct (proj1 (authenticate_failure_keeps_state sample_engine w
                     signed_in) e signed_in He) as (_ & Htoken & _).
  exact Htoken.
Defined.

(** ** createTicket *)

Lemma run_createTicket (w : remote) (c : client) (h : soap_client)
    (p : ticket_params) (returned : jsstring) :
  soap_ready w c = Some h ->
  (forall args, on_call w h (lit "createTicket") args = inl returned) ->
  result (run w (createTicket p c))
  = Some (if bool_decide (split 124 returned !! 0%nat = Some (lit "true"))
          then Returned (ticket_created (split 124 returned))
          else Thrown (Error (lit "createTicket SOAP error: "
                                ++ lit "Ticket creation failed: " ++ returned)),
          with_soapClient (Some h) c).
Proof.
  intros Hready Hcall. unfold createTicket.
  rewrite (run_getSoapClient_ready w c h _ Hready).
  unfold bind, try_catch, get_this, soap_callAsync. cbn [io_bind run].
  rewrite Hcall. cbn [settle io_bind].
  destruct (bool_decide (split 124 returned !! 0%nat = Some (lit "true")));
    reflexivity.
Qed.

(** C3. Let the remote operation createTicket return the string
    [returned], on a client whose SOAP handle is available.  If the first
    of the parts of [returned] between the bars is "true", [createTicket]
    returns the second part as [ticketid] and the third as [ticketnr] (a
    missing part reads [undefined]).  Otherwise it throws an [Error] whose
    message contains [returned] as it is: "createTicket SOAP error: Ticket
    creation failed: " followed by [returned]. *)
Theorem createTicket_parsing (w : remote) (c : client) (h : soap_client)
    (p : ticket_params) (returned : jsstring) :
  soap_ready w c = Some h ->
  (forall args, on_call w h (lit "createTicket") args = inl returned) ->
  (split 124 returned !! 0%nat = Some (lit "true") ->
   result (run w (createTicket p c))
   = Some (Returned {| ticketid := split 124 returned !! 1%nat;
                       ticketnr := split 124 returned !! 2%nat |},
           with_soapClient (Some h) c))
  /\ (split 124 returned !! 0%nat <> Some (lit "true") ->
      exists msg,
        result (run w (createTicket p c))
        = Some (Thrown (Error msg), with_soapClient (Some h) c)
        /\ msg = lit "createTicket SOAP error: Ticket creation failed: "
                 ++ returned
        /\ includes msg returned = true).
Proof.
  intros Hready Hcall.
  rewrite (run_createTicket w c h p returned Hready Hcall).
  split; intros Hfirst.
  - rewrite bool_decide_eq_true_2 by exact Hfirst. reflexivity.
  - rewrite bool_decide_eq_false_2 by exact Hfirst.
    exists (lit "createTicket SOAP error: Ticket creation failed: "
              ++ returned).
    split; [reflexivity|]. split; [reflexivity|].
    apply includes_suffix.
Qed.

Lemma createTicket_parsing_witness :
  let ret := lit "true|55|TK-2024-001" in
  let w := sample_remote unauthorized (inl ret) in
  let h := SoapClient 1 in
  soap_ready w signed_in = Some h
  /\ (forall args, on_call w h (lit "createTicket") args = inl ret)
  /\ result (run w (createTicket sample_ticket signed_in))
     = Some (Returned {| ticketid := Some (lit "55");
                         ticketnr := Some (lit "TK-2024-001") |},
             with_soapClient (Some h) signed_in).
Proof.
  intros ret w h.
  assert (Hready : soap_ready w signed_in = Some h) by reflexivity.
  assert (Hcall : forall args, on_call w h (lit "createTicket") args = inl ret)
    by reflexivity.
  split; [exact Hready|]. split; [exact Hcall|].
  apply (proj1 (createTicket_parsing w signed_in h sample_ticket ret
                  Hready Hcall)).
  vm_compute; reflexivity.
Defined.

(** The second example of the specification: a refusal. *)
Example createTicket_refused :
  let ret := lit "false|ERR_DUP" in
  let w := sample_remote unauthorized (inl ret) in
  result (run w (createTicket sample_ticket signed_in))
  = Some (Thrown (Error (lit "createTicket SOAP error: Ticket creation failed: false|ERR_DUP")),
          with_soapClient (Some (SoapClient 1)) signed_in).
Proof. vm_compute; reflexivity. Qed.

(** ** getKeywords *)

(** The run of [getKeywords] up to the string the remote operation
    returned. *)
Ltac getKeywords_received Hready Hcall :=
  unfold getKeywords;
  rewrite (run_getSoapClient_ready _ _ _ _ Hready);
  unfold bind, try_catch, get_this, soap_callAsync; cbn [io_bind run];
  rewrite Hcall; cbn [settle io_bind]; unfold json_parse.

(** C4. Let the remote operation getKeywords return the string [returned], on a
    client whose SOAP handle is available.  If [returned] is the JSON text of an
    object whose SUCCESS is [true], [getKeywords] returns the value of its
    DATA as parsed.  If SUCCESS is [false] and ERRORTEXT is a string, it
    throws an [Error] whose message contains that string.  If [returned] is not
    JSON, it throws an [Error] (with the SyntaxError's message after
    "getKeywords SOAP error: "). *)
Theorem getKeywords_parsing (E : engine) (w : remote) (c : client)
    (h : soap_client) (p : option keyword_params) (returned : jsstring) :
  soap_ready w c = Some h ->
  (forall args, on_call w h (lit "getKeywords") args = inl returned) ->
  (forall fields data,
     JSON_parse returned = Some (JObj fields) ->
     own_field (lit "SUCCESS") fields = Some (JBool true) ->
     own_field (lit "DATA") fields = Some data ->
     result (run w (getKeywords E p c))
     = Some (Returned data, with_soapClient (Some h) c))
  /\ (forall fields text,
        JSON_parse returned = Some (JObj fields) ->
        own_field (lit "SUCCESS") fields = Some (JBool false) ->
        own_field (lit "ERRORTEXT") fields = Some (JStr text) ->
        exists msg,
          result (run w (getKeywords E p c))
          = Some (Thrown (Error msg), with_soapClient (Some h) c)
          /\ msg = lit "getKeywords SOAP error: getKeywords failed: " ++ text
          /\ includes msg text = true)
  /\ (JSON_parse returned = None ->
      result (run w (getKeywords E p c))
      = Some (Thrown (Error (lit "getKeywords SOAP error: "
                               ++ fault_message E (JsonSyntax returned))),
              with_soapClient (Some h) c)).
Proof.
  intros Hready Hcall. split; [|split].
  - intros fields data Hparse Hsuccess Hdata.
    getKeywords_received Hready Hcall.
    rewrite Hparse. unfold ret, get_prop. cbn [io_bind].
    rewrite Hsuccess. unfold ret. cbn [io_bind with_default truthy negb].
    rewrite Hdata. reflexivity.
  - intros fields text Hparse Hsuccess Htext.
    getKeywords_received Hready Hcall.
    rewrite Hparse. unfold ret, get_prop. cbn [io_bind].
    rewrite Hsuccess. unfold ret. cbn [io_bind with_default truthy negb].
    rewrite Htext.
    exists (lit "getKeywords SOAP error: getKeywords failed: " ++ text).
    split; [reflexivity|]. split; [reflexivity|].
    apply includes_suffix.
  - intros Hparse.
    getKeywords_received Hready Hcall.
    rewrite Hparse. reflexivity.
Qed.

Lemma getKeywords_parsing_witness :
  let ret := keywords_envelope in
  let w := sample_remote unauthorized (inl ret) in
  let h := SoapClient 1 in
  soap_ready w signed_in = Some h
  /\ (forall args, on_call w h (lit "getKeywords") args = inl ret)
  /\ result (run w (getKeywords sample_engine None signed_in))
     = Some (Returned keywords_data, with_soapClient (Some h) signed_in).
Proof.
  intros ret w h.
  assert (Hready : soap_ready w signed_in = Some h) by reflexivity.
  assert (Hcall : forall args, on_call w h (lit "getKeywords") args = inl ret)
    by reflexivity.
  split; [exact Hready|]. split; [exact Hcall|].
  apply (proj1 (getKeywords_parsing sample_engine w signed_in h None ret
                  Hready Hcall)
           [(lit "SUCCESS", JBool true); (lit "DATA", keywords_data)]);
    vm_compute; reflexivity.
Defined.

(** The other example of the specification: SUCCESS false with the error
    text "no access". *)
Example getKeywords_no_access :
  let ret := lit "{" ++ quoted (lit "SUCCESS") ++ lit ": false, "
             ++ quoted (lit "ERRORTEXT") ++ lit ": "
             ++ quoted (lit "no access") ++ lit "}" in
  let w := sample_remote unauthorized (inl ret) in
  result (run w (getKeywords sample_engine None signed_in))
  = Some (Thrown (Error (lit "getKeywords SOAP error: getKeywords failed: no access")),
          with_soapClient (Some (SoapClient 1)) signed_in).
Proof. vm_compute; reflexivity. Qed.

Example getKeywords_not_json :
  let w := sample_remote unauthorized (inl (lit "<html>")) in
  result (run w (getKeywords sample_engine None signed_in))
  = Some (Thrown (Error (lit "getKeywords SOAP error: Unexpected token in JSON")),
          with_soapClient (Some (SoapClient 1)) signed_in).
Proof. vm_compute; reflexivity. Qed.

(** ** The REST methods *)

Lemma run_getTicketDetails (E : engine) (w : remote) (c : client)
    (ticketId encoded : jsstring) :
  encodeURIComponent ticketId = Some encoded ->
  run w (getTicketDetails E ticketId c)
  = ([HttpGet (details_url c encoded) (details_config c)],
     match on_get w (details_url c encoded) (details_config c) with
     | inl r =>
         match data r with
         | JStr text =>
             match string_match text ticketMatchRegex with
             | None =>
                 Some (Thrown
                         (rest_error (lit "getTicketDetails")
                            (Error (lit "No <ticket> element found in response."))),
                       c)
             | Some m =>
                 match parse_attrs (group m 1) with
                 | Some attrs => Some (Returned attrs, c)
                 | None => None
                 end
             end
         | _ =>
             Some (Thrown (rest_error (lit "getTicketDetails") (Error [])), c)
         end
     | inr err => Some (Thrown (rest_error (lit "getTicketDetails") err), c)
     end).
Proof.
  intros Henc. unfold getTicketDetails, bind, get_this. cbn [io_bind].
  rewrite Henc.
  unfold try_catch, axios_get, string_receiver, details_url, details_config.
  cbn [io_bind run].
  destruct (on_get w _ _) as [r|err]; cbn [settle io_bind]; [|reflexivity].
  destruct (data r) as [| | | |text| |]; try reflexivity.
  unfold ret. cbn [io_bind].
  destruct (string_match text ticketMatchRegex) as [m|]; [|reflexivity].
  destruct (parse_attrs (group m 1)); reflexivity.
Qed.

Lemma run_searchTicketsByCreator (E : engine) (w : remote) (c : client)
    (login : jsstring) (opts : option search_options) :
  let config := search_config c login (start_of opts) (max_of opts) in
  run w (searchTicketsByCreator E login opts c)
  = ([HttpGet (search_url c) config],
     match on_get w (search_url c) config with
     | inl r =>
         match to_string E (data r) with
         | Some text =>
             match parse_tickets text with
             | Some tickets => Some (Returned tickets, c)
             | None => None
             end
         | None =>
             Some (Thrown (rest_error (lit "searchTicketsByCreator")
                             (Error [])), c)
         end
     | inr err =>
         Some (Thrown (rest_error (lit "searchTicketsByCreator") err), c)
     end).
Proof.
  intros config.
  assert (Hconfig :
    config = search_config c login
               (destructured
                  (start (with_default opts (SearchOptions None None)))
                  (JNum 1 0))
               (destructured
                  (max (with_default opts (SearchOptions None None)))
                  (JNum 10 0))).
  { subst config. destruct opts as [[[s|] [m|]]|]; try reflexivity;
      try destruct s; try destruct m; reflexivity. }
  rewrite Hconfig.
  unfold searchTicketsByCreator, bind, get_this, try_catch, axios_get,
    js_String, search_url, search_config.
  cbn [io_bind run].
  destruct (on_get w _ _) as [r|err]; cbn [settle io_bind]; [|reflexivity].
  destruct (to_string E (data r)) as [text|]; [|reflexivity].
  unfold ret. cbn [io_bind].
  destruct (parse_tickets text); reflexivity.
Qed.

(** C7. Whatever the remote side, [searchTicketsByCreator(login, opts)]
    sends one request, a GET to [baseUrl/dokuweb/tickets/], whose query
    holds [start] and [max] as they were supplied and one filter:
    [field_count] 1, [f1] CREATE_BY, [f1_op] the equals operator (the sign
    =), [f1_val] the login.  A parameter that was not supplied, because
    there are no options, because the property is missing or because it is
    [undefined], reads as its default: 1 for [start], 10 for [max]. *)
Theorem searchTicketsByCreator_request (E : engine) (w : remote)
    (c : client) (login : jsstring) :
  (forall s m : jsvalue,
     s <> JUndefined -> m <> JUndefined ->
     trace (run w (searchTicketsByCreator E login
                     (Some (SearchOptions (Some s) (Some m))) c))
     = [HttpGet (search_url c) (search_config c login s m)])
  /\ (forall (s : jsvalue) (y : option jsvalue),
        s <> JUndefined -> y = None \/ y = Some JUndefined ->
        trace (run w (searchTicketsByCreator E login
                        (Some (SearchOptions (Some s) y)) c))
        = [HttpGet (search_url c) (search_config c login s (JNum 10 0))])
  /\ (forall (x : option jsvalue) (m : jsvalue),
        x = None \/ x = Some JUndefined -> m <> JUndefined ->
        trace (run w (searchTicketsByCreator E login
                        (Some (SearchOptions x (Some m))) c))
        = [HttpGet (search_url c) (search_config c login (JNum 1 0) m)])
  /\ (forall x y : option jsvalue,
        x = None \/ x = Some JUndefined ->
        y = None \/ y = Some JUndefined ->
        trace (run w (searchTicketsByCreator E login
                        (Some (SearchOptions x y)) c))
        = [HttpGet (search_url c)
             (search_config c login (JNum 1 0) (JNum 10 0))])
  /\ trace (run w (searchTicketsByCreator E login None c))
     = [HttpGet (search_url c)
          (search_config c login (JNum 1 0) (JNum 10 0))]
  /\ search_url c = baseUrl c ++ lit "/dokuweb/tickets/"
  /\ forall s m : jsvalue,
       search_config c login s m
       = {| params :=
              [(lit "authtoken", token_value (authToken c));
               (lit "start", s);
               (lit "max", m);
               (lit "field_count", JNum 1 0);
               (lit "f1", JStr (lit "CREATE_BY"));
               (lit "f1_op", JStr (lit "="));
               (lit "f1_val", JStr login)];
            headers := [] |}.
Proof.
  split; [|split; [|split; [|split; [|split; [|split]]]]].
  - intros s m Hs Hm. rewrite run_searchTicketsByCreator.
    destruct s; try contradiction; destruct m; try contradiction;
      reflexivity.
  - intros s y Hs [-> | ->]; rewrite run_searchTicketsByCreator;
      destruct s; try contradiction; reflexivity.
  - intros x m [-> | ->] Hm; rewrite run_searchTicketsByCreator;
      destruct m; try contradiction; reflexivity.
  - intros x y [-> | ->] [-> | ->]; rewrite run_searchTicketsByCreator;
      reflexivity.
  - rewrite run_searchTicketsByCreator. reflexivity.
  - reflexivity.
  - reflexivity.
Qed.

Lemma searchTicketsByCreator_request_witness :
  let w := sample_remote (ok []) (inl []) in
  JNum 5 0 <> JUndefined
  /\ trace (run w (searchTicketsByCreator sample_engine (lit "me")
                     (Some (SearchOptions (Some (JNum 5 0))
                              (Some JUndefined))) signed_in))
     = [HttpGet (lit "https://dokuweb.example/api/dokuweb/tickets/")
          {| params :=
               [(lit "authtoken", JStr (lit "TOKEN"));
                (lit "start", JNum 5 0);
                (lit "max", JNum 10 0);
                (lit "field_count", JNum 1 0);
                (lit "f1", JStr (lit "CREATE_BY"));
                (lit "f1_op", JStr (lit "="));
                (lit "f1_val", JStr (lit "me"))];
             headers := [] |}].
Proof.
  intros w.
  assert (Hs : JNum 5 0 <> JUndefined) by discriminate.
  split; [exact Hs|].
  exact (proj1 (proj2 (searchTicketsByCreator_request sample_engine w
                         signed_in (lit "me")))
           (JNum 5 0) (Some JUndefined) Hs (or_intror eq_refl)).
Defined.

(** ** What a method leaves of the session *)

Lemma run_io_bind {A B : Type} (w : remote) (m : io A) (f : A -> io B) :
  run w (io_bind m f)
  = match run w m with
    | (tr, Some a) => let '(tr', r) := run w (f a) in (tr ++ tr', r)
    | (tr, None) => (tr, None)
    end.
Proof.
  induction m as [a| |url config k IH|wsdl k IH|h op args k IH|e k IH];
    cbn [io_bind run].
  - destruct (run w (f a)); reflexivity.
  - reflexivity.
  - rewrite IH. destruct (run w (k _)) as [tr [a|]]; [|reflexivity].
    destruct (run w (f a)); reflexivity.
  - rewrite IH. destruct (run w (k _)) as [tr [a|]]; [|reflexivity].
    destruct (run w (f a)); reflexivity.
  - rewrite IH. destruct (run w (k _)) as [tr [a|]]; [|reflexivity].
    destruct (run w (f a)); reflexivity.
  - exact IH.
Qed.

Section Maintains.
(** A relation between the fields before and after, closed under
    sequencing. *)
Context (R : client -> client -> Prop).
Hypothesis R_refl : forall c, R c c.
Hypothesis R_trans : forall c1 c2 c3, R c1 c2 -> R c2 c3 -> R c1 c3.

Lemma maintains_ret {A : Type} (a : A) : maintains R (ret a).
Proof. intros w c o c' [= <- <-]. apply R_refl. Qed.

Lemma maintains_throw {A : Type} (e : js_error) : maintains R (@throw A e).
Proof. intros w c o c' [= <- <-]. apply R_refl. Qed.

Lemma maintains_hang {A : Type} : maintains R (@hang A).
Proof. intros w c o c' [=]. Qed.

Lemma maintains_finished {A : Type} (r : option A) : maintains R (finished r).
Proof. destruct r; [apply maintains_ret|apply maintains_hang]. Qed.

Lemma maintains_get_this : maintains R get_this.
Proof. intros w c o c' [= <- <-]. apply R_refl. Qed.

Lemma maintains_axios_get (url : jsstring) (config : axios_config) :
  maintains R (axios_get url config).
Proof.
  intros w c o c'. unfold axios_get, result. cbn [run snd].
  intros [= <- <-]. apply R_refl.
Qed.

Lemma maintains_soap_callAsync (h : soap_client) (op : jsstring)
    (args : list (jsstring * jsvalue)) :
  maintains R (soap_callAsync h op args).
Proof.
  intros w c o c'. unfold soap_callAsync, result. cbn [run snd].
  intros [= <- <-]. apply R_refl.
Qed.

Lemma maintains_console_log (e : js_error) : maintains R (console_log e).
Proof. intros w c o c' [= <- <-]. apply R_refl. Qed.

Lemma maintains_bind {A B : Type} (m : M A) (f : A -> M B) :
  maintains R m -> (forall a, maintains R (f a)) -> maintains R (bind m f).
Proof.
  intros Hm Hf w c o c'. unfold bind, result. rewrite run_io_bind.
  specialize (Hm w c). unfold result in Hm.
  destruct (run w (m c)) as [tr [[[a|e] c1]|]]; cbn [snd] in *.
  - specialize (Hf a w c1 o c'). unfold result in Hf.
    destruct (run w (f a c1)) as [tr' r]. cbn [snd] in *.
    intros Hr. eapply R_trans; [apply (Hm _ _ eq_refl)|apply Hf, Hr].
  - intros [= <- <-]. apply (Hm _ _ eq_refl).
  - discriminate.
Qed.

Lemma maintains_try_catch {A : Type} (m : M A) (handler : js_error -> M A) :
  maintains R m -> (forall e, maintains R (handler e)) ->
  maintains R (try_catch m handler).
Proof.
  intros Hm Hh w c o c'. unfold try_catch, result. rewrite run_io_bind.
  specialize (Hm w c). unfold result in Hm.
  destruct (run w (m c)) as [tr [[[a|e] c1]|]]; cbn [snd] in *.
  - intros [= <- <-]. apply (Hm _ _ eq_refl).
  - specialize (Hh e w c1 o c'). unfold result in Hh.
    destruct (run w (handler e c1)) as [tr' r]. cbn [snd] in *.
    intros Hr. eapply R_trans; [apply (Hm _ _ eq_refl)|apply Hh, Hr].
  - discriminate.
Qed.

Lemma maintains_createTicket (p : ticket_params) :
  maintains R _getSoapClient -> maintains R (createTicket p).
Proof.
  intros Hsoap. unfold createTicket.
  apply maintains_bind; [exact Hsoap|intros h].
  apply maintains_bind; [apply maintains_get_this|intros this].
  apply maintains_try_catch.
  - apply maintains_bind; [apply maintains_soap_callAsync|intros r].
    destruct (negb _); [apply maintains_throw|apply maintains_ret].
  - intros e. apply maintains_bind; [apply maintains_console_log|intros _].
    apply maintains_throw.
Qed.

Lemma maintains_get_prop (E : engine) (v : jsvalue) (key : jsstring) :
  maintains R (get_prop E v key).
Proof.
  destruct v; first [apply maintains_throw|apply maintains_ret].
Qed.

Lemma maintains_string_receiver (E : engine) (v : jsvalue)
    (name callee : jsstring) :
  maintains R (string_receiver E v name callee).
Proof.
  destruct v; first [apply maintains_throw|apply maintains_ret].
Qed.

Lemma maintains_js_String (E : engine) (v : jsvalue) :
  maintains R (js_String E v).
Proof.
  unfold js_String.
  destruct (to_string E v); [apply maintains_ret|apply maintains_throw].
Qed.

Lemma maintains_getKeywords (E : engine) (p : option keyword_params) :
  maintains R _getSoapClient -> maintains R (getKeywords E p).
Proof.
  intros Hsoap. unfold getKeywords.
  apply maintains_bind; [exact Hsoap|intros h].
  apply maintains_bind; [apply maintains_get_this|intros this].
  apply maintains_try_catch.
  - apply maintains_bind; [apply maintains_soap_callAsync|intros r].
    apply maintains_bind.
    { unfold json_parse.
      destruct (JSON_parse r); [apply maintains_ret|apply maintains_throw]. }
    intros parsed.
    apply maintains_bind; [apply maintains_get_prop|intros success].
    destruct (negb _); [|apply maintains_get_prop].
    apply maintains_bind; [apply maintains_get_prop|intros errortext].
    apply maintains_bind; [apply maintains_js_String|intros text].
    apply maintains_throw.
  - intros e. apply maintains_bind; [apply maintains_console_log|intros _].
    apply maintains_throw.
Qed.

Lemma maintains_getTicketDetails (E : engine) (ticketId : jsstring) :
  maintains R (getTicketDetails E ticketId).
Proof.
  unfold getTicketDetails.
  apply maintains_bind; [apply maintains_get_this|intros this].
  destruct (encodeURIComponent ticketId); [|apply maintains_throw].
  apply maintains_try_catch; [|intros e; apply maintains_throw].
  apply maintains_bind; [apply maintains_axios_get|intros r].
  apply maintains_bind; [apply maintains_string_receiver|intros text].
  destruct (string_match _ _); [apply maintains_finished|].
  apply maintains_throw.
Qed.

Lemma maintains_searchTicketsByCreator (E : engine) (login : jsstring)
    (opts : option search_options) :
  maintains R (searchTicketsByCreator E login opts).
Proof.
  unfold searchTicketsByCreator.
  apply maintains_bind; [apply maintains_get_this|intros this].
  apply maintains_try_catch; [|intros e; apply maintains_throw].
  apply maintains_bind; [apply maintains_axios_get|intros r].
  apply maintains_bind; [apply maintains_js_String|intros text].
  apply maintains_finished.
Qed.
End Maintains.

Lemma getSoapClient_keeps :
  maintains keeps_handle_needs_token _getSoapClient.
Proof.
  intros w c o c'. unfold _getSoapClient, bind, get_this, result.
  cbn [io_bind].
  destruct (soapClient c) as [h|] eqn:Hs.
  - intros [= <- <-] H. exact H.
  - destruct (token_missing (authToken c)) eqn:Ht.
    + intros [= <- <-] H. exact H.
    + unfold soap_createClientAsync, set_soapClient, ret. cbn [io_bind run].
      destruct (on_createClient w (soapWsdl c)) as [h|e];
        cbn [settle io_bind run snd]; intros [= <- <-] _ Hnone.
      * cbn in Hnone. rewrite Hnone in Ht. discriminate.
      * exact Hs.
Qed.

Lemma authenticate_keeps (E : engine) :
  maintains keeps_handle_needs_token (authenticate E).
Proof.
  intros w c o c'. rewrite run_authenticate. unfold result. cbn [snd].
  destruct (on_get w _ _) as [r|err]; [destruct (data r)|];
    intros [= <- <-] H; try exact H.
  intros Hnone. discriminate.
Qed.

Lemma reachable_handle_needs_token (E : engine) (c : client) :
  reachable E c -> handle_needs_token c.
Proof.
  assert (Hrefl : forall c, keeps_handle_needs_token c c) by (intros ? H; exact H).
  assert (Htrans : forall c1 c2 c3, keeps_handle_needs_token c1 c2 ->
            keeps_handle_needs_token c2 c3 -> keeps_handle_needs_token c1 c3)
    by (intros ? ? ? H1 H2 H; exact (H2 (H1 H))).
  induction 1 as [b s u p|m w c c' Hc IH Hstep].
  - intros _. reflexivity.
  - revert IH.
    assert (Hfinal : forall A (r : list call * option (outcome A * client)),
              final r = Some c' -> exists o, result r = Some (o, c')).
    { intros A [tr [[o c'']|]]; unfold final, result; cbn [snd];
        [intros [= ->]; eauto|discriminate]. }
    destruct m as [|p|p|ticketId|login opts]; cbn [invoke] in Hstep;
      apply Hfinal in Hstep; destruct Hstep as [o Hstep]; revert Hstep.
    + apply authenticate_keeps.
    + apply (maintains_createTicket _ Hrefl Htrans), getSoapClient_keeps.
    + apply (maintains_getKeywords _ Hrefl Htrans), getSoapClient_keeps.
    + apply (maintains_getTicketDetails _ Hrefl Htrans).
    + apply (maintains_searchTicketsByCreator _ Hrefl Htrans).
Qed.

(** ** The token precondition *)

(** C1, on the code.  The guard is in [_getSoapClient] alone.  On a client
    on which [authenticate()] has not succeeded ([authToken] is [null]),
    [createTicket] and [getKeywords] throw "authToken is missing. Call
    authenticate() first." and send nothing, whatever the remote side; the
    fields of the client stay as they are.  The two REST methods miss the
    guard: on the same client [getTicketDetails] and
    [searchTicketsByCreator] send their GET, with [null] for the token. *)
Theorem token_guard_on_soap_only (E : engine) (w : remote) (c : client)
    (p : ticket_params) (kp : option keyword_params)
    (ticketId encoded login : jsstring) (opts : option search_options) :
  reachable E c -> authToken c = None ->
  encodeURIComponent ticketId = Some encoded ->
  run w (createTicket p c) = ([], Some (Thrown missing_token_error, c))
  /\ run w (getKeywords E kp c) = ([], Some (Thrown missing_token_error, c))
  /\ trace (run w (getTicketDetails E ticketId c))
     = [HttpGet (details_url c encoded)
          {| params := [(lit "authtoken", JNull)]; headers := [] |}]
  /\ trace (run w (searchTicketsByCreator E login opts c))
     = [HttpGet (search_url c)
          (search_config c login (start_of opts) (max_of opts))]
  /\ params (search_config c login (start_of opts) (max_of opts)) !! 0%nat
     = Some (lit "authtoken", JNull).
Proof.
  intros Hreach Htoken Henc.
  pose proof (reachable_handle_needs_token E c Hreach Htoken) as Hsoap.
  assert (Hmissing : token_missing (authToken c) = true)
    by (rewrite Htoken; reflexivity).
  split; [|split; [|split; [|split]]].
  - unfold createTicket.
    rewrite (getSoapClient_missing c _ Hsoap Hmissing). reflexivity.
  - unfold getKeywords.
    rewrite (getSoapClient_missing c _ Hsoap Hmissing). reflexivity.
  - rewrite (run_getTicketDetails E w c _ _ Henc).
    unfold trace, details_config. rewrite Htoken. reflexivity.
  - rewrite run_searchTicketsByCreator. reflexivity.
  - unfold search_config. rewrite Htoken. reflexivity.
Qed.

Lemma token_guard_on_soap_only_witness :
  let w := sample_remote (ok []) (inl (lit "true|55|TK-2024-001")) in
  let c := sample_client in
  reachable sample_engine c
  /\ authToken c = None
  /\ encodeURIComponent (lit "55") = Some (lit "55")
  /\ run w (createTicket sample_ticket c)
     = ([], Some (Thrown missing_token_error, c))
  /\ run w (getKeywords sample_engine None c)
     = ([], Some (Thrown missing_token_error, c))
  /\ trace (run w (getTicketDetails sample_engine (lit "55") c))
     = [HttpGet (lit "https://dokuweb.example/api/dokuweb/ticket/55")
          {| params := [(lit "authtoken", JNull)]; headers := [] |}].
Proof.
  intros w c.
  assert (Hreach : reachable sample_engine c) by apply reachable_new.
  assert (Henc : encodeURIComponent (lit "55") = Some (lit "55"))
    by reflexivity.
  split; [exact Hreach|]. split; [reflexivity|]. split; [exact Henc|].
  destruct (token_guard_on_soap_only sample_engine w c sample_ticket None
              (lit "55") (lit "55") (lit "me") None Hreach eq_refl Henc)
    as (Hcreate & Hkeywords & Hdetails & _).
  split; [exact Hcreate|]. split; [exact Hkeywords|].
  rewrite Hdetails. vm_compute. reflexivity.
Defined.

(** On a client that never authenticated, [getTicketDetails] sends its
    GET with a [null] token and returns what the answer holds, and so does
    [searchTicketsByCreator]. *)
Lemma rest_operations_send_without_token :
  let body := lit "<ticket ticketid=" ++ quoted (lit "55") ++ lit "/>" in
  let w := sample_remote (ok body) (inl []) in
  authToken sample_client = None
  /\ run w (getTicketDetails sample_engine (lit "55") sample_client)
     = ([HttpGet (lit "https://dokuweb.example/api/dokuweb/ticket/55")
           {| params := [(lit "authtoken", JNull)]; headers := [] |}],
        Some (Returned {[ lit "ticketid" := lit "55" ]}, sample_client))
  /\ trace (run w (searchTicketsByCreator sample_engine (lit "me") None sample_client))
     = [HttpGet (lit "https://dokuweb.example/api/dokuweb/tickets/")
          (search_config sample_client (lit "me") (JNum 1 0) (JNum 10 0))]
  /\ result (run w (searchTicketsByCreator sample_engine (lit "me") None sample_client))
     = Some (Returned [ {[ lit "ticketid" := lit "55" ]} ], sample_client).
Proof. vm_compute. repeat split; reflexivity. Qed.

(** ** The matcher on text of a known shape *)

Lemma take_consumed (s x rest : jsstring) :
  s = x ++ rest -> take (length s - length rest) s = x.
Proof.
  intros ->. rewrite length_app, Nat.add_sub. apply take_app_length.
Qed.

(** Equations between concatenations of the same pieces. *)
Ltac same_text :=
  repeat (progress (cbn [app]; rewrite <- ?app_assoc)); reflexivity.

Section Quantifiers.
Context {R : Type} (cls : charclass) (k : jsstring -> option R).

Lemma quant_greedy_stop (s : jsstring) :
  stops cls s -> quant_greedy cls k s = k s.
Proof.
  destruct s as [|c s]; simpl; [reflexivity|]. intros ->. reflexivity.
Qed.

(** A greedy star takes the whole run when the continuation accepts what
    follows it. *)
Lemma quant_greedy_run (a s : jsstring) (r : R) :
  in_class cls a -> stops cls s -> k s = Some r ->
  quant_greedy cls k (a ++ s) = Some r.
Proof.
  intros Ha Hs Hk. induction Ha as [|c a Hc Ha IH]; simpl.
  - rewrite quant_greedy_stop; assumption.
  - rewrite Hc, IH. reflexivity.
Qed.

(** It gives one character back when the continuation refuses what
    follows the run but accepts it one character earlier. *)
Lemma quant_greedy_back (a : jsstring) (c : code_unit) (s : jsstring)
    (r : R) :
  in_class cls a -> class_matches cls c = true -> stops cls s ->
  k s = None -> k (c :: s) = Some r ->
  quant_greedy cls k (a ++ c :: s) = Some r.
Proof.
  intros Ha Hc Hs Hnone Hk. induction Ha as [|c' a Hc' Ha IH]; simpl.
  - rewrite Hc, quant_greedy_stop, Hnone; [exact Hk|exact Hs].
  - rewrite Hc', IH. reflexivity.
Qed.

(** A lazy star stops at the first place where the continuation
    accepts. *)
Lemma quant_lazy_first (a s : jsstring) (r : R) :
  in_class cls a ->
  (forall a1 a2, a = a1 ++ a2 -> a2 <> [] -> k (a2 ++ s) = None) ->
  k s = Some r ->
  quant_lazy cls k (a ++ s) = Some r.
Proof.
  intros Ha Hnone Hk. induction Ha as [|c a Hc Ha IH].
  - destruct s; simpl; rewrite Hk; reflexivity.
  - pose proof (Hnone [] (c :: a) eq_refl ltac:(discriminate)) as H0.
    simpl in *. rewrite H0, Hc. apply IH. intros a1 a2 -> Hne.
    apply (Hnone (c :: a1) a2 eq_refl Hne).
Qed.

(** Whatever a star returns, the continuation returned it after a run of
    the class. *)
Lemma quant_lazy_inv (s : jsstring) (r : R) :
  quant_lazy cls k s = Some r ->
  exists a s', s = a ++ s' /\ in_class cls a /\ k s' = Some r.
Proof.
  induction s as [|c s IH]; simpl.
  - destruct (k []) eqn:Hk; [|discriminate].
    intros [= ->]. exists [], []. repeat split; [constructor|exact Hk].
  - destruct (k (c :: s)) eqn:Hk.
    + intros [= ->]. exists [], (c :: s). repeat split; [constructor|exact Hk].
    + destruct (class_matches cls c) eqn:Hc; [|discriminate].
      intros H. destruct (IH H) as (a & s' & -> & Ha & Hk').
      exists (c :: a), s'. repeat split; [constructor; assumption|exact Hk'].
Qed.

Lemma quant_greedy_inv (s : jsstring) (r : R) :
  quant_greedy cls k s = Some r ->
  exists a s', s = a ++ s' /\ in_class cls a /\ k s' = Some r.
Proof.
  induction s as [|c s IH]; simpl.
  - intros Hk. exists [], []. repeat split; [constructor|exact Hk].
  - destruct (class_matches cls c) eqn:Hc.
    + destruct (quant_greedy cls k s) eqn:Hq.
      * intros [= ->]. destruct (IH eq_refl) as (a & s' & -> & Ha & Hk').
        exists (c :: a), s'.
        repeat split; [constructor; assumption|exact Hk'].
      * intros Hk. exists [], (c :: s).
        repeat split; [constructor|exact Hk].
    + intros Hk. exists [], (c :: s). repeat split; [constructor|exact Hk].
Qed.
End Quantifiers.

(** *** The pattern of an attribute pair *)

Lemma no_quote_class (s : jsstring) : no_quote s -> in_class (ClsNoneOf [34]) s.
Proof.
  intros H. eapply Forall_impl; [exact H|]. intros c Hc. simpl.
  destruct (N.eqb_spec c 34); [contradiction|reflexivity].
Qed.

(** At the first character of [name="value"], the pattern matches exactly
    this pair. *)
Lemma attr_match_here (name value rest : jsstring) :
  name <> [] -> word_chars name -> no_quote value ->
  match_here attrRegex (name ++ [61; 34] ++ value ++ 34 :: rest)
  = Some (rest, attr_groups name value).
Proof.
  intros Hne Hname Hvalue.
  destruct name as [|c name]; [contradiction|].
  inversion Hname as [|? ? Hc Hname']; subst.
  unfold match_here, attrRegex. cbn [rmatch quant_min app].
  unfold class_matches at 1. rewrite Hc.
  rewrite (quant_greedy_run ClsWord _ name _
             (rest, attr_groups (c :: name) value) Hname');
    [reflexivity|reflexivity|].
  cbn [strip_prefix N.eqb Pos.eqb quant_min].
  rewrite (quant_greedy_run (ClsNoneOf [34]) _ value (34 :: rest)
             (rest, attr_groups (c :: name) value));
    [reflexivity|apply no_quote_class, Hvalue|reflexivity|].
  cbn [strip_prefix N.eqb Pos.eqb].
  unfold attr_groups.
  rewrite (take_consumed _ value (34 :: rest)) by same_text.
  rewrite (take_consumed _ (c :: name) (61 :: 34 :: value ++ 34 :: rest))
    by same_text.
  rewrite (take_consumed _ ((c :: name) ++ [61; 34] ++ value ++ [34]) rest)
    by same_text.
  reflexivity.
Qed.

Lemma attr_no_match_here (c : code_unit) (s : jsstring) :
  is_word c = false -> match_here attrRegex (c :: s) = None.
Proof.
  intros Hc. unfold match_here, attrRegex. cbn [rmatch quant_min].
  unfold class_matches. rewrite Hc. reflexivity.
Qed.

Lemma attr_no_match_end : match_here attrRegex [] = None.
Proof. reflexivity. Qed.

(** The search runs over text without word characters. *)
Lemma attr_search_skip (sep s : jsstring) (i : nat) :
  no_word sep ->
  search attrRegex i (sep ++ s) = search attrRegex (i + length sep) s.
Proof.
  intros Hsep. revert i. induction Hsep as [|c sep Hc Hsep IH]; intros i.
  - simpl. rewrite Nat.add_0_r. reflexivity.
  - cbn [app search]. rewrite (attr_no_match_here c _ Hc), IH.
    f_equal. simpl. lia.
Qed.

Lemma attr_search_none (sep : jsstring) (i : nat) :
  no_word sep -> search attrRegex i sep = None.
Proof.
  intros Hsep. rewrite <- (app_nil_r sep), attr_search_skip by exact Hsep.
  reflexivity.
Qed.

Lemma search_found (r : regex) (i : nat) (s rest : jsstring)
    (caps : gmap nat jsstring) :
  match_here r s = Some (rest, caps) ->
  search r i s = Some (MatchResult i (i + (length s - length rest)) caps).
Proof. intros H. destruct s; simpl; rewrite H; reflexivity. Qed.

Lemma regexp_exec_at (r : regex) (done todo : jsstring) :
  regexp_exec r (done ++ todo) (length done) = search r (length done) todo.
Proof.
  unfold regexp_exec. rewrite drop_app_length.
  destruct (Nat.ltb_spec (length (done ++ todo)) (length done)) as [H|H];
    [|reflexivity].
  rewrite length_app in H. lia.
Qed.

Lemma forallb_Forall {A : Type} (f : A -> bool) (l : list A) :
  forallb f l = true -> Forall (fun x => f x = true) l.
Proof.
  induction l as [|x l IH]; simpl; [constructor|].
  intros [Hx Hl]%andb_true_iff. constructor; auto.
Qed.

Lemma separator_ok_no_word (s : jsstring) : separator_ok s = true -> no_word s.
Proof.
  intros H%forallb_Forall. eapply Forall_impl; [exact H|]. simpl.
  intros c [Hc _]%andb_true_iff. apply negb_true_iff, Hc.
Qed.

Lemma separator_ok_no_gt (s : jsstring) : separator_ok s = true -> no_gt s.
Proof.
  intros H%forallb_Forall. eapply Forall_impl; [exact H|]. simpl.
  intros c [_ Hc]%andb_true_iff ->. discriminate.
Qed.

Lemma name_ok_word (s : jsstring) :
  name_ok s = true -> s <> [] /\ word_chars s.
Proof.
  destruct s as [|c s]; [discriminate|].
  intros H%forallb_Forall. split; [discriminate|exact H].
Qed.

Lemma word_no_gt (s : jsstring) : word_chars s -> no_gt s.
Proof.
  intros H. eapply Forall_impl; [exact H|]. simpl. intros c Hc ->.
  discriminate.
Qed.

Lemma value_ok_no_quote (s : jsstring) : value_ok s = true -> no_quote s.
Proof.
  intros H%forallb_Forall. eapply Forall_impl; [exact H|]. simpl.
  intros c [Hc _]%andb_true_iff ->. discriminate.
Qed.

Lemma value_ok_no_gt (s : jsstring) : value_ok s = true -> no_gt s.
Proof.
  intros H%forallb_Forall. eapply Forall_impl; [exact H|]. simpl.
  intros c [_ Hc]%andb_true_iff ->. discriminate.
Qed.

Lemma render_attr_no_gt (a : attr_src) :
  attr_ok a = true -> no_gt (render_attr a).
Proof.
  unfold attr_ok. intros [[Hb Hn]%andb_true_iff Hv]%andb_true_iff.
  unfold render_attr, no_gt. rewrite !Forall_app.
  split; [apply separator_ok_no_gt, Hb|].
  split; [apply word_no_gt, (name_ok_word _ Hn)|].
  split; [repeat constructor; discriminate|].
  split; [apply value_ok_no_gt, Hv|repeat constructor; discriminate].
Qed.

Lemma render_attrs_no_gt (l : list attr_src) :
  forallb attr_ok l = true -> no_gt (render_attrs l).
Proof.
  induction l as [|a l IH]; simpl; [constructor|].
  intros [Ha Hl]%andb_true_iff. apply Forall_app.
  split; [apply render_attr_no_gt, Ha|apply IH, Hl].
Qed.

Lemma render_attrs_length (l : list attr_src) :
  (length l <= length (render_attrs l))%nat.
Proof.
  induction l as [|a l IH]; simpl; [lia|].
  unfold render_attr. rewrite !length_app. simpl. lia.
Qed.

Lemma attr_groups_1 (name value : jsstring) (i e : nat) :
  group (MatchResult i e (attr_groups name value)) 1 = name.
Proof. reflexivity. Qed.

Lemma attr_groups_2 (name value : jsstring) (i e : nat) :
  group (MatchResult i e (attr_groups name value)) 2 = value.
Proof. reflexivity. Qed.

(** The attribute loop, started after [done], reads the pairs that follow
    one by one. *)
Lemma attr_loop (l : list attr_src) :
  forall (done tail : jsstring) (attrs : gmap jsstring jsstring) (fuel : nat),
    forallb attr_ok l = true -> no_word tail -> (length l < fuel)%nat ->
    exec_loop fuel attrRegex (done ++ render_attrs l ++ tail) (length done)
      (fun m attrs => set_prop (group m 1) (group m 2) attrs) attrs
    = Some (attrs_of l attrs).
Proof.
  induction l as [|a l IH]; intros done tail attrs [|fuel] Hok Htail Hfuel;
    try (simpl in Hfuel; lia).
  - cbn [exec_loop render_attrs flat_map app].
    rewrite regexp_exec_at, attr_search_none by exact Htail. reflexivity.
  - simpl in Hok. apply andb_true_iff in Hok as [Ha Hl].
    pose proof Ha as Ha'. unfold attr_ok in Ha'.
    apply andb_true_iff in Ha' as [[Hb Hn]%andb_true_iff Hv].
    apply name_ok_word in Hn as [Hne Hword].
    cbn [exec_loop].
    replace (done ++ render_attrs (a :: l) ++ tail)
      with (done ++ a_before a
              ++ (a_name a ++ [61; 34] ++ a_value a
                    ++ 34 :: (render_attrs l ++ tail)))
      by (unfold render_attrs, render_attr; cbn [flat_map]; same_text).
    rewrite regexp_exec_at, attr_search_skip
      by (apply separator_ok_no_word, Hb).
    rewrite (search_found _ _ _ _ _
               (attr_match_here _ _ _ Hne Hword (value_ok_no_quote _ Hv))).
    rewrite attr_groups_1, attr_groups_2. cbn [m_end attrs_of fold_left].
    replace (done ++ a_before a
              ++ (a_name a ++ [61; 34] ++ a_value a
                    ++ 34 :: (render_attrs l ++ tail)))
      with ((done ++ render_attr a) ++ render_attrs l ++ tail)
      by (unfold render_attr; same_text).
    replace (_ + _ + (_ - _))%nat with (length (done ++ render_attr a)).
    + apply IH; [exact Hl|exact Htail|simpl in Hfuel; lia].
    + unfold render_attr. rewrite !length_app. simpl. rewrite !length_app.
      simpl. lia.
Qed.

Lemma parse_attrs_rendered (l : list attr_src) (tail : jsstring) :
  forallb attr_ok l = true -> separator_ok tail = true ->
  parse_attrs (render_attrs l ++ tail) = Some (attrs_of l ∅).
Proof.
  intros Hl Htail. unfold parse_attrs.
  apply (attr_loop l [] tail ∅ _ Hl (separator_ok_no_word _ Htail)).
  rewrite length_app. pose proof (render_attrs_length l). lia.
Qed.

(** *** The patterns of a ticket element *)

Lemma class_not_gt (c : code_unit) :
  class_matches (ClsNoneOf (lit ">")) c = negb (c =? 62).
Proof.
  unfold class_matches. change (lit ">") with [62]. simpl.
  rewrite orb_false_r. reflexivity.
Qed.

Lemma no_gt_class (s : jsstring) : no_gt s -> in_class (ClsNoneOf (lit ">")) s.
Proof.
  intros H. eapply Forall_impl; [exact H|]. intros c Hc. simpl in Hc.
  rewrite class_not_gt. destruct (N.eqb_spec c 62); [contradiction|reflexivity].
Qed.

Lemma class_no_gt (s : jsstring) : in_class (ClsNoneOf (lit ">")) s -> no_gt s.
Proof.
  intros H. eapply Forall_impl; [exact H|]. intros c Hc ->. discriminate.
Qed.

(** The closing [/>] cannot start inside text without [>]. *)
Lemma close_not_inside (a rest : jsstring) :
  a <> [] -> no_gt a -> strip_prefix (lit "/>") (a ++ lit "/>" ++ rest) = None.
Proof.
  intros Hne Ha. destruct a as [|c a]; [contradiction|].
  inversion Ha as [|? ? Hc Ha']; subst.
  change (strip_prefix [47; 62] (c :: a ++ 47 :: 62 :: rest) = None).
  cbn [strip_prefix].
  destruct (47 =? c); [|reflexivity].
  destruct a as [|c' a]; [reflexivity|].
  inversion Ha' as [|? ? Hc' _]; subst. cbn [app].
  destruct (N.eqb_spec 62 c') as [<-|]; [contradiction|reflexivity].
Qed.

(** At the first character of an element both patterns match the element,
    and group 1 is its attribute text. *)
Lemma ticket_match_here (r : regex) (w : code_unit) (a rest : jsstring) :
  r = ticketRegex \/ r = ticketMatchRegex ->
  is_space w = true -> a <> [] -> no_gt a ->
  match_here r (lit "<ticket" ++ w :: a ++ lit "/>" ++ rest)
  = Some (rest, ticket_groups w a).
Proof.
  intros Hr Hw Hne Ha. destruct a as [|c a]; [contradiction|].
  inversion Ha as [|? ? Hc Ha']; subst.
  assert (Hcls : class_matches (ClsNoneOf (lit ">")) c = true).
  { rewrite class_not_gt.
    destruct (N.eqb_spec c 62); [contradiction|reflexivity]. }
  assert (Hcaps :
    <[0%nat := take
        (length (lit "<ticket" ++ w :: (c :: a) ++ lit "/>" ++ rest)
         - length rest)
        (lit "<ticket" ++ w :: (c :: a) ++ lit "/>" ++ rest)]>
      (<[1%nat := take (length ((c :: a) ++ lit "/>" ++ rest)
                        - length (lit "/>" ++ rest))
                    ((c :: a) ++ lit "/>" ++ rest)]> ∅)
    = ticket_groups w (c :: a)).
  { unfold ticket_groups.
    rewrite (take_consumed _ (c :: a) (lit "/>" ++ rest)) by reflexivity.
    rewrite (take_consumed _ (lit "<ticket" ++ w :: (c :: a) ++ lit "/>") rest)
      by same_text.
    reflexivity. }
  destruct Hr as [-> | ->]; unfold match_here, ticketRegex, ticketMatchRegex;
    cbn [rmatch]; rewrite strip_prefix_app; unfold class_matches at 1;
    rewrite Hw; cbn [quant_min app]; rewrite Hcls.
  - rewrite (quant_lazy_first _ _ a (lit "/>" ++ rest)
               (rest, ticket_groups w (c :: a)) (no_gt_class _ Ha')).
    + reflexivity.
    + intros a1 a2 -> Hne2.
      rewrite close_not_inside; [reflexivity|exact Hne2|].
      apply Forall_app in Ha' as [_ H]. exact H.
    + rewrite strip_prefix_app, <- Hcaps. reflexivity.
  - change (a ++ lit "/>" ++ rest) with (a ++ 47 :: 62 :: rest).
    rewrite (quant_greedy_back _ _ a 47 (62 :: rest)
               (rest, ticket_groups w (c :: a)) (no_gt_class _ Ha'));
      [reflexivity|reflexivity|reflexivity|reflexivity|].
    change (47 :: 62 :: rest) with (lit "/>" ++ rest).
    rewrite strip_prefix_app, <- Hcaps. reflexivity.
Qed.

(** What either pattern matched is an element. *)
Lemma ticket_match_here_inv (r : regex) (s rest : jsstring)
    (caps : gmap nat jsstring) :
  r = ticketRegex \/ r = ticketMatchRegex ->
  match_here r s = Some (rest, caps) ->
  exists w a,
    s = lit "<ticket" ++ w :: a ++ lit "/>" ++ rest
    /\ is_space w = true /\ a <> [] /\ no_gt a.
Proof.
  intros Hr.
  destruct Hr as [-> | ->]; unfold match_here, ticketRegex, ticketMatchRegex;
    cbn [rmatch];
    (destruct (strip_prefix (lit "<ticket") s) as [s1|] eqn:Hopen;
       [|discriminate]);
    apply strip_prefix_Some in Hopen; subst s;
    (destruct s1 as [|w s1]; [discriminate|]);
    unfold class_matches at 1;
    (destruct (is_space w) eqn:Hw; [|discriminate]);
    cbn [quant_min];
    (destruct s1 as [|c s1]; [discriminate|]);
    (destruct (class_matches (ClsNoneOf (lit ">")) c) eqn:Hc; [|discriminate]);
    intros H.
  - apply quant_lazy_inv in H as (a & s' & -> & Ha & H).
    destruct (strip_prefix (lit "/>") s') as [s''|] eqn:Hclose; [|discriminate].
    injection H as <- _. apply strip_prefix_Some in Hclose. subst s'.
    exists w, (c :: a). split; [reflexivity|]. split; [exact Hw|].
    split; [discriminate|]. apply class_no_gt. constructor; assumption.
  - apply quant_greedy_inv in H as (a & s' & -> & Ha & H).
    destruct (strip_prefix (lit "/>") s') as [s''|] eqn:Hclose; [|discriminate].
    injection H as <- _. apply strip_prefix_Some in Hclose. subst s'.
    exists w, (c :: a). split; [reflexivity|]. split; [exact Hw|].
    split; [discriminate|]. apply class_no_gt. constructor; assumption.
Qed.

(** *** Text between the elements *)

Lemma ticket_no_match_here (r : regex) (s : jsstring) :
  r = ticketRegex \/ r = ticketMatchRegex ->
  opens_here s = false -> match_here r s = None.
Proof.
  unfold opens_here.
  intros [-> | ->] H; unfold match_here, ticketRegex, ticketMatchRegex;
    cbn [rmatch];
    (destruct (strip_prefix (lit "<ticket") s) as [[|w s1]|];
       [reflexivity| |reflexivity]);
    unfold class_matches at 1; rewrite H; reflexivity.
Qed.

Ltac split_eqb :=
  repeat match goal with
         | |- context [N.eqb ?a ?b] =>
             destruct (N.eqb_spec a b); try discriminate; subst
         end.

(** An opening cannot straddle the boundary. *)
Lemma opens_here_app (f next : jsstring) :
  f <> [] -> boundary next ->
  opens_here f = false -> opens_here (f ++ next) = false.
Proof.
  intros Hne Hnext. unfold opens_here.
  change (lit "<ticket") with [60; 116; 105; 99; 107; 101; 116].
  destruct f as [|c1 [|c2 [|c3 [|c4 [|c5 [|c6 [|c7 [|c8 f]]]]]]]];
    [contradiction|..]; cbn [app strip_prefix];
    try (destruct Hnext as [->|[n ->]]; cbn [strip_prefix]; split_eqb;
         reflexivity).
  split_eqb; try reflexivity. intros H; exact H.
Qed.

Lemma ticket_search_skip (r : regex) (f next : jsstring) (i : nat) :
  r = ticketRegex \/ r = ticketMatchRegex ->
  has_ticket_open f = false -> boundary next ->
  search r i (f ++ next) = search r (i + length f) next.
Proof.
  intros Hr Hf Hnext. revert i Hf.
  induction f as [|c f IH]; intros i Hf.
  - simpl. rewrite Nat.add_0_r. reflexivity.
  - cbn [has_ticket_open] in Hf. apply orb_false_iff in Hf as [Hhere Hf].
    cbn [app search].
    rewrite (ticket_no_match_here r (c :: f ++ next) Hr
               (opens_here_app (c :: f) next ltac:(discriminate) Hnext Hhere)).
    rewrite (IH _ Hf). f_equal. simpl. lia.
Qed.

Lemma ticket_search_none (r : regex) (f : jsstring) (i : nat) :
  r = ticketRegex \/ r = ticketMatchRegex ->
  has_ticket_open f = false -> search r i f = None.
Proof.
  intros Hr Hf.
  rewrite <- (app_nil_r f), (ticket_search_skip r f [] i Hr Hf)
    by (left; reflexivity).
  destruct Hr as [-> | ->]; reflexivity.
Qed.

Lemma search_ticket_inv (r : regex) (s : jsstring) (i : nat)
    (m : match_result) :
  r = ticketRegex \/ r = ticketMatchRegex ->
  search r i s = Some m -> contains_ticket_element s.
Proof.
  intros Hr. revert i. induction s as [|c s IH]; intros i; cbn [search].
  - destruct (match_here r []) as [[rest caps]|] eqn:Hm; [|discriminate].
    intros _. apply (ticket_match_here_inv r _ _ _ Hr) in Hm
      as (w & a & Hs & Hw & Hne & Ha).
    exists [], w, a, rest. auto.
  - destruct (match_here r (c :: s)) as [[rest caps]|] eqn:Hm.
    + intros _. apply (ticket_match_here_inv r _ _ _ Hr) in Hm
        as (w & a & Hs & Hw & Hne & Ha).
      exists [], w, a, rest. auto.
    + intros H. apply IH in H as (pre & w & a & post & -> & Hw & Hne & Ha).
      exists (c :: pre), w, a, post. auto.
Qed.

Lemma search_ticket_complete (r : regex) (body : jsstring) (i : nat) :
  r = ticketRegex \/ r = ticketMatchRegex ->
  contains_ticket_element body -> search r i body <> None.
Proof.
  intros Hr (pre & w & a & post & -> & Hw & Hne & Ha). revert i.
  induction pre as [|c pre IH]; intros i.
  - rewrite app_nil_l.
    rewrite (search_found _ _ _ _ _ (ticket_match_here r w a post Hr Hw Hne Ha)).
    discriminate.
  - cbn [app search]. destruct (match_here r _) as [[rest caps]|];
      [discriminate|apply IH].
Qed.

Lemma regexp_exec_0 (r : regex) (s : jsstring) :
  regexp_exec r s 0 = search r 0 s.
Proof. apply (regexp_exec_at r [] s). Qed.

(** Without an element in the body, neither pattern matches it. *)
Lemma no_element_no_match (r : regex) (body : jsstring) :
  r = ticketRegex \/ r = ticketMatchRegex ->
  ~ contains_ticket_element body -> regexp_exec r body 0 = None.
Proof.
  intros Hr Hnone. rewrite regexp_exec_0.
  destruct (search r 0 body) as [m|] eqn:Hs; [|reflexivity].
  exfalso. apply Hnone, (search_ticket_inv r body 0 m Hr Hs).
Qed.

Lemma no_match_no_element (r : regex) (body : jsstring) :
  r = ticketRegex \/ r = ticketMatchRegex ->
  regexp_exec r body 0 = None -> ~ contains_ticket_element body.
Proof.
  intros Hr Hexec Hin. apply (search_ticket_complete r body 0 Hr Hin).
  rewrite <- regexp_exec_0. exact Hexec.
Qed.

Lemma ticket_ok_inv (t : ticket_src) :
  ticket_ok t = true ->
  has_ticket_open (t_before t) = false /\ is_space (t_space t) = true
  /\ forallb attr_ok (t_attrs t) = true /\ separator_ok (t_tail t) = true
  /\ attr_text t <> [] /\ no_gt (attr_text t).
Proof.
  unfold ticket_ok.
  intros [[[[Hb Hw]%andb_true_iff Ha]%andb_true_iff Ht]%andb_true_iff Hne]%andb_true_iff.
  apply negb_true_iff in Hb. apply negb_true_iff, bool_decide_eq_false in Hne.
  repeat split; try assumption.
  apply Forall_app. split; [apply render_attrs_no_gt, Ha|].
  apply separator_ok_no_gt, Ht.
Qed.

Lemma boundary_open (s : jsstring) : boundary (lit "<ticket" ++ s).
Proof. right. exists (lit "ticket" ++ s). reflexivity. Qed.

(** Both patterns find the first element of a body that starts with it. *)
Lemma search_first_ticket (r : regex) (t : ticket_src) (rest : jsstring)
    (i : nat) :
  r = ticketRegex \/ r = ticketMatchRegex -> ticket_ok t = true ->
  search r i (render_ticket t ++ rest)
  = Some (MatchResult (i + length (t_before t))
            (i + length (render_ticket t))
            (ticket_groups (t_space t) (attr_text t))).
Proof.
  intros Hr (Hb & Hw & Ha & Ht & Hne & Hgt)%ticket_ok_inv.
  replace (render_ticket t ++ rest)
    with (t_before t
            ++ (lit "<ticket" ++ t_space t :: attr_text t ++ lit "/>" ++ rest))
    by (unfold render_ticket; same_text).
  rewrite (ticket_search_skip r _ _ i Hr Hb) by apply boundary_open.
  rewrite (search_found _ _ _ _ _
             (ticket_match_here r _ _ rest Hr Hw Hne Hgt)).
  do 2 f_equal. unfold render_ticket. rewrite !length_app. simpl.
  rewrite !length_app. simpl. lia.
Qed.

Lemma ticket_groups_1 (w : code_unit) (a : jsstring) (i e : nat) :
  group (MatchResult i e (ticket_groups w a)) 1 = a.
Proof. reflexivity. Qed.

Lemma parse_attrs_ticket (t : ticket_src) :
  ticket_ok t = true -> parse_attrs (attr_text t) = Some (ticket_attrs t).
Proof.
  intros (_ & _ & Ha & Ht & _)%ticket_ok_inv.
  apply parse_attrs_rendered; assumption.
Qed.

Lemma render_tickets_length (ts : list ticket_src) :
  (length ts <= length (render_tickets ts))%nat.
Proof.
  induction ts as [|t ts IH]; simpl; [lia|].
  unfold render_ticket. rewrite !length_app. simpl. lia.
Qed.

(** The ticket loop, started after [done], reads the elements that follow
    one by one. *)
Lemma ticket_loop (ts : list ticket_src) :
  forall (done last : jsstring) (acc : list (gmap jsstring jsstring))
         (fuel : nat),
    forallb ticket_ok ts = true -> has_ticket_open last = false ->
    (length ts < fuel)%nat ->
    exec_loop fuel ticketRegex (done ++ render_tickets ts ++ last)
      (length done)
      (fun m tickets =>
         match tickets, parse_attrs (group m 1) with
         | Some ts, Some attrs => Some (ts ++ [attrs])
         | _, _ => None
         end) (Some acc)
    = Some (Some (acc ++ map ticket_attrs ts)).
Proof.
  induction ts as [|t ts IH]; intros done last acc [|fuel] Hok Hlast Hfuel;
    try (simpl in Hfuel; lia).
  - cbn [exec_loop render_tickets flat_map app map].
    rewrite regexp_exec_at, ticket_search_none, app_nil_r;
      [reflexivity|left; reflexivity|exact Hlast].
  - simpl in Hok. apply andb_true_iff in Hok as [Ht Hts].
    cbn [exec_loop].
    replace (done ++ render_tickets (t :: ts) ++ last)
      with (done ++ render_ticket t ++ (render_tickets ts ++ last))
      by (unfold render_tickets; cbn [flat_map]; same_text).
    rewrite regexp_exec_at.
    rewrite (search_first_ticket ticketRegex t _ _ (or_introl eq_refl) Ht).
    rewrite ticket_groups_1, (parse_attrs_ticket t Ht). cbn [m_end].
    rewrite app_assoc, <- length_app.
    rewrite (IH (done ++ render_ticket t) last (acc ++ [ticket_attrs t]) fuel
               Hts Hlast ltac:(simpl in Hfuel; lia)).
    rewrite <- app_assoc. reflexivity.
Qed.

Lemma parse_tickets_rendered (ts : list ticket_src) (last : jsstring) :
  forallb ticket_ok ts = true -> has_ticket_open last = false ->
  parse_tickets (render_tickets ts ++ last) = Some (map ticket_attrs ts).
Proof.
  intros Hts Hlast. unfold parse_tickets.
  rewrite (ticket_loop ts [] last [] _ Hts Hlast); [reflexivity|].
  rewrite length_app. pose proof (render_tickets_length ts). lia.
Qed.

(** *** The mapping of an element *)

Lemma set_prop_lookup (key value k : jsstring)
    (attrs : gmap jsstring jsstring) :
  set_prop key value attrs !! k
  = if bool_decide (key = k /\ key <> lit "__proto__") then Some value
    else attrs !! k.
Proof.
  unfold set_prop.
  destruct (bool_decide_reflect (key = lit "__proto__")) as [Hp|Hp].
  - rewrite bool_decide_eq_false_2; [reflexivity|tauto].
  - destruct (decide (key = k)) as [->|Hk].
    + rewrite lookup_insert_eq, bool_decide_eq_true_2; [reflexivity|tauto].
    + rewrite lookup_insert_ne by exact Hk.
      rewrite bool_decide_eq_false_2; [reflexivity|tauto].
Qed.

Lemma attrs_of_other (l : list attr_src) (attrs : gmap jsstring jsstring)
    (k : jsstring) :
  k ∉ names l -> attrs_of l attrs !! k = attrs !! k.
Proof.
  revert attrs. induction l as [|a l IH]; intros attrs Hk; [reflexivity|].
  cbn [attrs_of fold_left]. unfold names in Hk. cbn [map] in Hk.
  apply not_elem_of_cons in Hk as [Hne Hk].
  change (attrs_of l (set_prop (a_name a) (a_value a) attrs) !! k = attrs !! k).
  rewrite (IH _ Hk), set_prop_lookup.
  rewrite bool_decide_eq_false_2; [reflexivity|]. intros [Heq _]. congruence.
Qed.

(** Every attribute is in the mapping, with its value as written; the name
    [__proto__] apart, which an object refuses. *)
Lemma attrs_of_lookup (l : list attr_src) (attrs : gmap jsstring jsstring)
    (a : attr_src) :
  NoDup (names l) -> a ∈ l -> a_name a <> lit "__proto__" ->
  attrs_of l attrs !! a_name a = Some (a_value a).
Proof.
  revert attrs. induction l as [|b l IH]; intros attrs Hnd Hin Hp.
  - inversion Hin.
  - unfold names in Hnd. cbn [map] in Hnd.
    apply NoDup_cons in Hnd as [Hb Hnd].
    change (attrs_of l (set_prop (a_name b) (a_value b) attrs) !! a_name a
            = Some (a_value a)).
    apply elem_of_cons in Hin as [->|Hin].
    + rewrite (attrs_of_other l _ _ Hb), set_prop_lookup.
      rewrite bool_decide_eq_true_2; [reflexivity|tauto].
    + apply IH; assumption.
Qed.

(** Nothing else is in it. *)
Lemma attrs_of_names (l : list attr_src) (k : jsstring) :
  is_Some (attrs_of l ∅ !! k) -> k ∈ names l.
Proof.
  intros Hk. destruct (decide (k ∈ names l)) as [H|H]; [exact H|].
  rewrite (attrs_of_other l ∅ k H), lookup_empty in Hk.
  destruct Hk as [? [=]].
Qed.

(** *** The loops end *)

Lemma search_advances (r : regex) (s : jsstring) (i : nat)
    (m : match_result) :
  advances r -> search r i s = Some m ->
  (i < m_end m)%nat /\ (m_end m <= i + length s)%nat.
Proof.
  intros Hr. revert i. induction s as [|c s IH]; intros i; cbn [search];
    destruct (match_here r _) as [[rest caps]|] eqn:Hm.
  - intros [= <-]. apply Hr in Hm as (x & Hx & Hs).
    destruct x; [contradiction|discriminate].
  - discriminate.
  - intros [= <-]. apply Hr in Hm as (x & Hx & Hs). cbn [m_end].
    apply (f_equal length) in Hs. rewrite length_app in Hs.
    destruct x; [contradiction|]. simpl in *. lia.
  - intros H. apply IH in H. simpl. lia.
Qed.

Lemma regexp_exec_advances (r : regex) (s : jsstring) (i : nat)
    (m : match_result) :
  advances r -> regexp_exec r s i = Some m ->
  (i < m_end m)%nat /\ (m_end m <= length s)%nat.
Proof.
  intros Hr. unfold regexp_exec.
  destruct (Nat.ltb_spec (length s) i) as [|Hi]; [discriminate|].
  intros H. apply (search_advances r _ _ _ Hr) in H.
  rewrite length_drop in H. lia.
Qed.

(** A loop over such a pattern ends within [length s + 1] iterations, and
    what holds of the accumulator at each turn holds at the end. *)
Lemma exec_loop_ends {A : Type} (P : A -> Prop) (r : regex) (s : jsstring)
    (body : match_result -> A -> A) :
  advances r -> (forall m acc, P acc -> P (body m acc)) ->
  forall (fuel i : nat) (acc : A),
    (length s - i < fuel)%nat -> P acc ->
    exists a, exec_loop fuel r s i body acc = Some a /\ P a.
Proof.
  intros Hr Hbody. induction fuel as [|fuel IH]; intros i acc Hfuel Hacc;
    [lia|].
  cbn [exec_loop]. destruct (regexp_exec r s i) as [m|] eqn:Hm.
  - apply IH; [|apply Hbody, Hacc].
    apply (regexp_exec_advances r s i m Hr) in Hm. lia.
  - exists acc. split; [reflexivity|exact Hacc].
Qed.

Lemma ticket_advances (r : regex) :
  r = ticketRegex \/ r = ticketMatchRegex -> advances r.
Proof.
  intros Hr s rest caps Hm.
  apply (ticket_match_here_inv r _ _ _ Hr) in Hm as (w & a & -> & _).
  exists (lit "<ticket" ++ w :: a ++ lit "/>").
  split; [discriminate|same_text].
Qed.

Lemma attr_advances : advances attrRegex.
Proof.
  intros s rest caps. unfold match_here, attrRegex. cbn [rmatch quant_min].
  destruct s as [|c s]; [discriminate|].
  destruct (class_matches ClsWord c); [|discriminate].
  intros H. apply quant_greedy_inv in H as (a & s' & -> & _ & H).
  destruct (strip_prefix [61; 34] s') as [s1|] eqn:H1; [|discriminate].
  apply strip_prefix_Some in H1. subst s'. cbn [quant_min] in H.
  apply quant_greedy_inv in H as (b & s' & -> & _ & H).
  destruct (strip_prefix [34] s') as [s2|] eqn:H2; [|discriminate].
  apply strip_prefix_Some in H2. subst s'. injection H as <- _.
  exists (c :: a ++ [61; 34] ++ b ++ [34]). split; [discriminate|same_text].
Qed.

(** The attribute loop ends on every text, and so does the ticket loop. *)
Lemma parse_attrs_ends (attrString : jsstring) :
  exists attrs, parse_attrs attrString = Some attrs.
Proof.
  destruct (exec_loop_ends (fun _ => True) attrRegex attrString
              (fun m attrs => set_prop (group m 1) (group m 2) attrs)
              attr_advances (fun _ _ _ => I)
              (S (length attrString)) 0 ∅ ltac:(lia) I) as (attrs & H & _).
  exists attrs. exact H.
Qed.

Lemma parse_tickets_ends (xml : jsstring) :
  exists tickets, parse_tickets xml = Some tickets.
Proof.
  unfold parse_tickets.
  destruct (exec_loop_ends (fun acc => is_Some acc) ticketRegex xml
              (fun m tickets =>
                 match tickets, parse_attrs (group m 1) with
                 | Some ts, Some attrs => Some (ts ++ [attrs])
                 | _, _ => None
                 end)
              (ticket_advances _ (or_introl eq_refl)))
    with (fuel := S (length xml)) (i := 0%nat) (acc := Some (@nil (gmap jsstring jsstring)))
    as (acc & -> & [tickets ->]).
  - intros m acc [ts ->].
    destruct (parse_attrs_ends (group m 1)) as [attrs ->]. eauto.
  - lia.
  - eauto.
  - exists tickets. reflexivity.
Qed.

(** The REST methods always end: they return or throw. *)
Lemma getTicketDetails_ends (E : engine) (w : remote) (c : client)
    (ticketId : jsstring) :
  exists o, result (run w (getTicketDetails E ticketId c)) = Some (o, c).
Proof.
  destruct (encodeURIComponent ticketId) as [encoded|] eqn:Henc.
  - rewrite (run_getTicketDetails E w c _ _ Henc). unfold result. cbn [snd].
    destruct (on_get w _ _) as [r|err]; [|eauto].
    destruct (data r) as [| | | |text| |]; eauto.
    destruct (string_match _ _) as [m|]; [|eauto].
    destruct (parse_attrs_ends (group m 1)) as [attrs ->]. eauto.
  - unfold getTicketDetails, bind, get_this. cbn [io_bind]. rewrite Henc.
    eexists. reflexivity.
Qed.

Lemma searchTicketsByCreator_ends (E : engine) (w : remote) (c : client)
    (login : jsstring) (opts : option search_options) :
  exists o,
    result (run w (searchTicketsByCreator E login opts c)) = Some (o, c).
Proof.
  rewrite run_searchTicketsByCreator. cbv zeta. unfold result. cbn [snd].
  destruct (on_get w _ _) as [r|err]; [|eauto].
  destruct (to_string E (data r)) as [text|]; [|eauto].
  destruct (parse_tickets_ends text) as [tickets ->]. eauto.
Qed.

(** Names that are not made of word characters are read from their last
    word on, and the name [__proto__] is not stored. *)
Example parse_attrs_other_names :
  parse_attrs (lit "data-id=" ++ quoted (lit "5") ++ lit " __proto__="
               ++ quoted (lit "x"))
  = Some {[ lit "id" := lit "5" ]}.
Proof. vm_compute. reflexivity. Qed.

(** ** getTicketDetails and searchTicketsByCreator on a body *)

(** C2, as the code has it.  Let the GET of [getTicketDetails] be answered
    with success.  If the body is not a text that holds an element (an
    opening [<ticket], white space, a non-empty attribute text without
    [>], the closing [/>]), the method throws.  If the body is a text that
    starts, after text without an
    opening, with an element written as [ticket_ok] says (names of word
    characters, values without double quote and without [>]), the method
    returns the mapping of its pairs: each attribute (of a name other than
    [__proto__], names being distinct) has its value exactly as written,
    and the mapping has no other key. *)
Theorem getTicketDetails_parsing (E : engine) (w : remote) (c : client)
    (ticketId encoded : jsstring) (r : http_response) :
  encodeURIComponent ticketId = Some encoded ->
  on_get w (details_url c encoded) (details_config c) = inl r ->
  ((forall body, data r = JStr body -> ~ contains_ticket_element body) ->
   exists e, result (run w (getTicketDetails E ticketId c))
             = Some (Thrown e, c))
  /\ (forall (t : ticket_src) (rest : jsstring),
        data r = JStr (render_ticket t ++ rest) -> ticket_ok t = true ->
        result (run w (getTicketDetails E ticketId c))
        = Some (Returned (ticket_attrs t), c)
        /\ (NoDup (names (t_attrs t)) ->
            forall a, a ∈ t_attrs t -> a_name a <> lit "__proto__" ->
                      ticket_attrs t !! a_name a = Some (a_value a))
        /\ (forall k, is_Some (ticket_attrs t !! k) -> k ∈ names (t_attrs t))).
Proof.
  intros Henc Hget. rewrite (run_getTicketDetails E w c _ _ Henc), Hget.
  unfold result. cbn [snd]. split.
  - intros Hnone. destruct (data r) as [| | | |body| |];
      try (eexists; reflexivity).
    unfold string_match.
    rewrite (no_element_no_match ticketMatchRegex _ (or_intror eq_refl)
               (Hnone body eq_refl)).
    eexists. reflexivity.
  - intros t rest Hbody Ht. split; [|split].
    + rewrite Hbody. unfold string_match. rewrite regexp_exec_0.
      rewrite (search_first_ticket ticketMatchRegex t rest 0
                 (or_intror eq_refl) Ht).
      rewrite ticket_groups_1, (parse_attrs_ticket t Ht). reflexivity.
    + intros Hnd a Ha Hp. apply attrs_of_lookup; assumption.
    + apply attrs_of_names.
Qed.

Lemma getTicketDetails_parsing_witness :
  let body := render_ticket ticket_55 ++ lit "</tickets>" in
  let w := sample_remote (ok body) (inl []) in
  let c := signed_in in
  encodeURIComponent (lit "55") = Some (lit "55")
  /\ on_get w (details_url c (lit "55")) (details_config c)
     = inl (HttpResponse 200 (lit "OK") (JStr body))
  /\ ticket_ok ticket_55 = true
  /\ result (run w (getTicketDetails sample_engine (lit "55") c))
     = Some (Returned
               {[ lit "ticketid" := lit "55";
                  lit "subject" := lit "Heizung & Wasser = kalt/warm" ]},
             c).
Proof.
  intros body w c.
  assert (Henc : encodeURIComponent (lit "55") = Some (lit "55"))
    by reflexivity.
  assert (Hget : on_get w (details_url c (lit "55")) (details_config c)
                 = inl (HttpResponse 200 (lit "OK") (JStr body))) by reflexivity.
  assert (Hok : ticket_ok ticket_55 = true) by (vm_compute; reflexivity).
  split; [exact Henc|]. split; [exact Hget|]. split; [exact Hok|].
  destruct (proj2 (getTicketDetails_parsing sample_engine w c (lit "55")
                     (lit "55") _ Henc Hget)
              ticket_55 (lit "</tickets>") eq_refl Hok) as [Hrun _].
  rewrite Hrun. vm_compute. reflexivity.
Defined.

(** A value may hold any character but the double quote in a document; one
    that holds [>] makes the element unreadable for the pattern
    [ticketMatchRegex], and the method throws. *)
Lemma getTicketDetails_gt_in_value :
  let body := render_ticket ticket_gt in
  let w := sample_remote (ok body) (inl []) in
  body = lit "<ticket subject=" ++ quoted (lit "a>b") ++ lit "/>"
  /\ result (run w (getTicketDetails sample_engine (lit "55") signed_in))
     = Some (Thrown (Error (lit "getTicketDetails REST error: undefined undefined")),
             signed_in)
  /\ result (run w (getTicketDetails sample_engine (lit "55") signed_in))
     <> Some (Returned {[ lit "subject" := lit "a>b" ]}, signed_in).
Proof.
  vm_compute. split; [reflexivity|]. split; [reflexivity|discriminate].
Qed.

(** C5, as the code has it.  Let the GET of [searchTicketsByCreator] be
    answered with success, and let its body read as text (a text body
    reads as itself) be a document of [N] elements written as [ticket_ok]
    says
    (names of word characters, values without double quote and without
    [>]), followed by text without an opening.  The loop ends and the
    method returns [N] mappings, in the order of the document; the mapping
    of each element is the one of its pairs: each attribute (of a name
    other than [__proto__], names being distinct) has its value exactly as
    written, and the mapping has no other key. *)
Theorem searchTicketsByCreator_document (E : engine) (w : remote)
    (c : client) (login : jsstring) (opts : option search_options)
    (r : http_response) (ts : list ticket_src) (last : jsstring) :
  on_get w (search_url c)
    (search_config c login (start_of opts) (max_of opts)) = inl r ->
  to_string E (data r) = Some (render_tickets ts ++ last) ->
  forallb ticket_ok ts = true -> has_ticket_open last = false ->
  exists tickets,
    result (run w (searchTicketsByCreator E login opts c))
    = Some (Returned tickets, c)
    /\ length tickets = length ts
    /\ forall i t, ts !! i = Some t ->
         tickets !! i = Some (ticket_attrs t)
         /\ (NoDup (names (t_attrs t)) ->
             forall a, a ∈ t_attrs t -> a_name a <> lit "__proto__" ->
                       ticket_attrs t !! a_name a = Some (a_value a))
         /\ (forall k, is_Some (ticket_attrs t !! k) ->
                       k ∈ names (t_attrs t)).
Proof.
  intros Hget Hbody Hts Hlast. exists (map ticket_attrs ts).
  split.
  { rewrite run_searchTicketsByCreator. cbv zeta. rewrite Hget, Hbody.
    rewrite (parse_tickets_rendered ts last Hts Hlast). reflexivity. }
  split; [apply length_map|].
  intros i t Hi. split; [rewrite list_lookup_fmap, Hi; reflexivity|].
  split; [intros Hnd a Ha Hp; apply attrs_of_lookup; assumption|].
  apply attrs_of_names.
Qed.

Lemma searchTicketsByCreator_document_witness :
  let ts := [ticket_55; ticket_56] in
  let last := lit "</tickets>" in
  let body := render_tickets ts ++ last in
  let w := sample_remote (ok body) (inl []) in
  let c := signed_in in
  on_get w (search_url c)
    (search_config c (lit "me") (start_of None) (max_of None))
  = inl (HttpResponse 200 (lit "OK") (JStr body))
  /\ forallb ticket_ok ts = true
  /\ has_ticket_open last = false
  /\ result (run w (searchTicketsByCreator sample_engine (lit "me") None c))
     = Some (Returned
               [ {[ lit "ticketid" := lit "55";
                    lit "subject" := lit "Heizung & Wasser = kalt/warm" ]};
                 {[ lit "ticketid" := lit "56";
                    lit "create_by" := lit "me" ]} ],
             c).
Proof.
  intros ts last body w c.
  assert (Hget : on_get w (search_url c)
                   (search_config c (lit "me") (start_of None) (max_of None))
                 = inl (HttpResponse 200 (lit "OK") (JStr body))) by reflexivity.
  assert (Hts : forallb ticket_ok ts = true) by (vm_compute; reflexivity).
  assert (Hlast : has_ticket_open last = false) by (vm_compute; reflexivity).
  split; [exact Hget|]. split; [exact Hts|]. split; [exact Hlast|].
  destruct (searchTicketsByCreator_document sample_engine w c (lit "me")
              None _ ts last
              Hget eq_refl Hts Hlast) as (tickets & Hrun & _ & _).
  rewrite Hrun. revert Hrun. vm_compute. intros [= <-]. reflexivity.
Defined.

(** A document of one element whose value holds [>]: the pattern
    [ticketRegex] does not match it, and the method returns no mapping
    where the document has one element. *)
Lemma searchTicketsByCreator_gt_in_value :
  let body := render_tickets [ticket_gt] in
  let w := sample_remote (ok body) (inl []) in
  body = lit "<ticket subject=" ++ quoted (lit "a>b") ++ lit "/>"
  /\ result (run w (searchTicketsByCreator sample_engine (lit "me") None signed_in))
     = Some (Returned [], signed_in)
  /\ result (run w (searchTicketsByCreator sample_engine (lit "me") None signed_in))
     <> Some (Returned [ {[ lit "subject" := lit "a>b" ]} ], signed_in).
Proof.
  vm_compute. split; [reflexivity|]. split; [reflexivity|discriminate].
Qed.

(** C6. When the GET of [searchTicketsByCreator] is answered with success
    and the body, read as text, holds no element, the method returns the
    empty array: it does not throw. *)
Theorem searchTicketsByCreator_no_ticket (E : engine) (w : remote)
    (c : client) (login : jsstring) (opts : option search_options)
    (r : http_response) (body : jsstring) :
  on_get w (search_url c)
    (search_config c login (start_of opts) (max_of opts)) = inl r ->
  to_string E (data r) = Some body ->
  ~ contains_ticket_element body ->
  result (run w (searchTicketsByCreator E login opts c))
  = Some (Returned [], c).
Proof.
  intros Hget Hbody Hnone. rewrite run_searchTicketsByCreator. cbv zeta.
  rewrite Hget, Hbody. unfold result, parse_tickets. cbn [snd exec_loop].
  rewrite (no_element_no_match ticketRegex _ (or_introl eq_refl) Hnone).
  reflexivity.
Qed.

Lemma searchTicketsByCreator_no_ticket_witness :
  let body := lit "<tickets></tickets>" in
  let w := sample_remote (ok body) (inl []) in
  let c := signed_in in
  on_get w (search_url c)
    (search_config c (lit "me") (start_of None) (max_of None))
  = inl (HttpResponse 200 (lit "OK") (JStr body))
  /\ ~ contains_ticket_element body
  /\ result (run w (searchTicketsByCreator sample_engine (lit "me") None c))
     = Some (Returned [], c).
Proof.
  intros body w c.
  assert (Hget : on_get w (search_url c)
                   (search_config c (lit "me") (start_of None) (max_of None))
                 = inl (HttpResponse 200 (lit "OK") (JStr body))) by reflexivity.
  assert (Hnone : ~ contains_ticket_element body).
  { apply (no_match_no_element ticketRegex); [left; reflexivity|].
    vm_compute. reflexivity. }
  split; [exact Hget|]. split; [exact Hnone|].
  apply (searchTicketsByCreator_no_ticket sample_engine w c (lit "me") None
           _ body Hget eq_refl Hnone).
Defined.

(** C9, at the input where it fails.  When the GET of [getTicketDetails] is
    answered with success and the body is a text without an element, the
    error thrown
    inside the [try] block, "No <ticket> element found in response.", is
    caught by the [catch] block of the same method, which reads it as a
    rejected request: the caller gets "getTicketDetails REST error:
    undefined undefined", without the cause. *)
Theorem getTicketDetails_cause_lost (E : engine) (w : remote) (c : client)
    (ticketId encoded : jsstring) (r : http_response) (body : jsstring) :
  encodeURIComponent ticketId = Some encoded ->
  on_get w (details_url c encoded) (details_config c) = inl r ->
  data r = JStr body ->
  ~ contains_ticket_element body ->
  exists msg,
    result (run w (getTicketDetails E ticketId c))
    = Some (Thrown (Error msg), c)
    /\ msg = lit "getTicketDetails REST error: undefined undefined"
    /\ includes msg (lit "No <ticket> element found") = false.
Proof.
  intros Henc Hget Hbody Hnone.
  rewrite (run_getTicketDetails E w c _ _ Henc), Hget, Hbody.
  unfold result, string_match. cbn [snd].
  rewrite (no_element_no_match ticketMatchRegex _ (or_intror eq_refl) Hnone).
  eexists. split; [reflexivity|]. split; vm_compute; reflexivity.
Qed.

Lemma getTicketDetails_cause_lost_witness :
  let body := lit "<tickets></tickets>" in
  let w := sample_remote (ok body) (inl []) in
  let c := signed_in in
  encodeURIComponent (lit "55") = Some (lit "55")
  /\ on_get w (details_url c (lit "55")) (details_config c)
     = inl (HttpResponse 200 (lit "OK") (JStr body))
  /\ ~ contains_ticket_element body
  /\ result (run w (getTicketDetails sample_engine (lit "55") c))
     = Some (Thrown (Error (lit "getTicketDetails REST error: undefined undefined")),
             c).
Proof.
  intros body w c.
  assert (Henc : encodeURIComponent (lit "55") = Some (lit "55"))
    by reflexivity.
  assert (Hget : on_get w (details_url c (lit "55")) (details_config c)
                 = inl (HttpResponse 200 (lit "OK") (JStr body))) by reflexivity.
  assert (Hnone : ~ contains_ticket_element body).
  { apply (no_match_no_element ticketMatchRegex); [right; reflexivity|].
    vm_compute. reflexivity. }
  split; [exact Henc|]. split; [exact Hget|]. split; [exact Hnone|].
  destruct (getTicketDetails_cause_lost sample_engine w c (lit "55")
              (lit "55") _ body Henc Hget eq_refl Hnone)
    as (msg & -> & -> & _).
  reflexivity.
Defined.

(** The sibling [catch] block of [createTicket] keeps the cause: the
    message of the caught error follows the name of the operation. *)
Example createTicket_keeps_cause :
  let w := sample_remote unauthorized
             (inr (Error (lit "connect ECONNREFUSED"))) in
  result (run w (createTicket sample_ticket signed_in))
  = Some (Thrown (Error (lit "createTicket SOAP error: connect ECONNREFUSED")),
          with_soapClient (Some (SoapClient 1)) signed_in).
Proof. vm_compute; reflexivity. Qed.

(** A body that is the JSON text 12345 arrives as a number: [match] is not
    a method of it, and [getTicketDetails] throws; [exec] converts it to a
    string without an element, and [searchTicketsByCreator] returns the
    empty array. *)
Example rest_methods_on_a_number :
  let w := sample_remote (inl (HttpResponse 200 (lit "OK") (JNum 12345 0)))
             (inl []) in
  result (run w (getTicketDetails sample_engine (lit "55") signed_in))
  = Some (Thrown (Error (lit "getTicketDetails REST error: undefined undefined")),
          signed_in)
  /\ result (run w (searchTicketsByCreator sample_engine (lit "me") None
                      signed_in))
     = Some (Returned [], signed_in).
Proof. vm_compute. split; reflexivity. Qed.

(** * Further properties of the client *)

(** ** The session over sequences of calls *)

Section Frames.
Context (R : client -> client -> Prop).
Hypothesis R_refl : forall c, R c c.
Hypothesis R_trans : forall c1 c2 c3, R c1 c2 -> R c2 c3 -> R c1 c3.
Hypothesis R_handle : forall c h, soapClient c = None ->
  token_missing (authToken c) = false -> R c (with_soapClient (Some h) c).
Hypothesis R_token : forall c s, R c (with_authToken (Some (trim s)) c).

Lemma frame_getSoapClient : maintains R _getSoapClient.
Proof.
  intros w c o c'. unfold _getSoapClient, bind, get_this, result.
  cbn [io_bind].
  destruct (soapClient c) as [h|] eqn:Hs.
  - intros [= <- <-]. apply R_refl.
  - destruct (token_missing (authToken c)) eqn:Ht.
    + intros [= <- <-]. apply R_refl.
    + unfold soap_createClientAsync, set_soapClient, ret. cbn [io_bind run].
      destruct (on_createClient w (soapWsdl c)) as [h|e];
        cbn [settle io_bind run snd]; intros [= <- <-].
      * apply R_handle; assumption.
      * apply R_refl.
Qed.

Lemma frame_authenticate (E : engine) : maintains R (authenticate E).
Proof.
  intros w c o c'. rewrite run_authenticate. unfold result. cbn [snd].
  destruct (on_get w _ _) as [r|err]; [destruct (data r)|];
    intros [= <- <-]; first [apply R_token|apply R_refl].
Qed.

Lemma frame_invoke (E : engine) (m : method) (w : remote) (c c' : client) :
  invoke E m w c = Some c' -> R c c'.
Proof.
  assert (Hfinal : forall A (r : list call * option (outcome A * client)),
            final r = Some c' -> exists o, result r = Some (o, c')).
  { intros A [tr [[o c'']|]]; unfold final, result; cbn [snd];
      [intros [= ->]; eauto|discriminate]. }
  destruct m as [|p|p|ticketId|login opts]; cbn [invoke]; intros Hstep;
    apply Hfinal in Hstep; destruct Hstep as [o Hstep]; revert Hstep.
  - apply frame_authenticate.
  - apply (maintains_createTicket _ R_refl R_trans), frame_getSoapClient.
  - apply (maintains_getKeywords _ R_refl R_trans), frame_getSoapClient.
  - apply (maintains_getTicketDetails _ R_refl R_trans).
  - apply (maintains_searchTicketsByCreator _ R_refl R_trans).
Qed.
End Frames.

(** X1. No method call changes the configuration of a client ([baseUrl],
    [soapWsdl], [username], [password]), and none drops or replaces a SOAP
    handle once it is cached. *)
Theorem invoke_keeps_configuration (E : engine) (m : method) (w : remote)
    (c c' : client) :
  invoke E m w c = Some c' ->
  baseUrl c' = baseUrl c /\ soapWsdl c' = soapWsdl c
  /\ username c' = username c /\ password c' = password c
  /\ forall h, soapClient c = Some h -> soapClient c' = Some h.
Proof.
  apply (frame_invoke
           (fun c c' =>
              baseUrl c' = baseUrl c /\ soapWsdl c' = soapWsdl c
              /\ username c' = username c /\ password c' = password c
              /\ forall h, soapClient c = Some h -> soapClient c' = Some h)).
  - intros c0. auto.
  - intros c1 c2 c3 (H1 & H2 & H3 & H4 & H5) (G1 & G2 & G3 & G4 & G5).
    repeat split; try congruence. intros h Hh. apply G5, H5, Hh.
  - intros c0 h Hs _. cbn. repeat split; try reflexivity.
    intros h'. rewrite Hs. discriminate.
  - intros c0 s. cbn. auto.
Qed.

Lemma invoke_keeps_configuration_witness :
  let w := sample_remote (ok (lit " TOKEN ")) (inl []) in
  invoke sample_engine Authenticate w sample_client = Some signed_in
  /\ baseUrl signed_in = baseUrl sample_client.
Proof.
  intros w.
  assert (H : invoke sample_engine Authenticate w sample_client
              = Some signed_in) by (vm_compute; reflexivity).
  split; [exact H|].
  apply (invoke_keeps_configuration sample_engine Authenticate w _ _ H).
Defined.

(** X2. What each method may write: [authenticate] leaves [soapClient] as
    it is, [createTicket] and [getKeywords] leave [authToken] as it is, and
    [getTicketDetails] and [searchTicketsByCreator] leave every field as it
    is, whether they return or throw. *)
Theorem invoke_writes (E : engine) (m : method) (w : remote)
    (c c' : client) :
  invoke E m w c = Some c' ->
  match m with
  | Authenticate => soapClient c' = soapClient c
  | CreateTicket _ | GetKeywords _ => authToken c' = authToken c
  | GetTicketDetails _ | SearchTicketsByCreator _ _ => c' = c
  end.
Proof.
  assert (Hfinal : forall A (r : list call * option (outcome A * client)),
            final r = Some c' -> exists o, result r = Some (o, c')).
  { intros A [tr [[o c'']|]]; unfold final, result; cbn [snd];
      [intros [= ->]; eauto|discriminate]. }
  assert (Htrans : forall c1 c2 c3 : client,
            authToken c2 = authToken c1 -> authToken c3 = authToken c2 ->
            authToken c3 = authToken c1) by (intros; congruence).
  assert (Hsoap : maintains (fun c c' => authToken c' = authToken c)
                    _getSoapClient).
  { apply frame_getSoapClient; [reflexivity|reflexivity]. }
  destruct m as [|p|p|ticketId|login opts]; cbn [invoke]; intros Hstep;
    apply Hfinal in Hstep; destruct Hstep as [o Hstep]; revert Hstep.
  - rewrite run_authenticate. unfold result. cbn [snd].
    destruct (on_get w _ _) as [r|err]; [destruct (data r)|];
      intros [= <- <-]; reflexivity.
  - apply (maintains_createTicket
             (fun c c' => authToken c' = authToken c)
             (fun _ => eq_refl) Htrans p Hsoap).
  - apply (maintains_getKeywords
             (fun c c' => authToken c' = authToken c)
             (fun _ => eq_refl) Htrans E p Hsoap).
  - intros H. symmetry. revert H.
    apply (maintains_getTicketDetails eq (fun _ => eq_refl)
             (fun _ _ _ H1 H2 => eq_trans H1 H2)).
  - intros H. symmetry. revert H.
    apply (maintains_searchTicketsByCreator eq (fun _ => eq_refl)
             (fun _ _ _ H1 H2 => eq_trans H1 H2)).
Qed.

Lemma invoke_writes_witness :
  let w := sample_remote unauthorized (inl (lit "true|55|TK-1")) in
  invoke sample_engine (CreateTicket sample_ticket) w signed_in = Some cached
  /\ authToken cached = authToken signed_in.
Proof.
  intros w.
  assert (H : invoke sample_engine (CreateTicket sample_ticket) w signed_in
              = Some cached) by (vm_compute; reflexivity).
  split; [exact H|].
  apply (invoke_writes sample_engine (CreateTicket sample_ticket) w _ _ H).
Defined.

(** X3. In every state a client can reach, the token it holds, if any, has
    no white space at either end. *)
Theorem reachable_token_trimmed (E : engine) (c : client) (t : jsstring) :
  reachable E c -> authToken c = Some t -> trimmed t /\ trim t = t.
Proof.
  intros Hreach. revert t.
  assert (H : forall t, authToken c = Some t -> trimmed t).
  { induction Hreach as [b s u p|m w c c' Hc IH Hstep]; [discriminate|].
    revert IH.
    apply (frame_invoke
             (fun c c' => (forall t, authToken c = Some t -> trimmed t) ->
                          forall t, authToken c' = Some t -> trimmed t)
             (fun _ H => H) (fun _ _ _ H1 H2 H => H2 (H1 H))) with (E := E) (m := m) (w := w);
      [| |exact Hstep].
    - intros c0 h _ _ H0. exact H0.
    - intros c0 s _ t [= <-]. apply trim_trimmed. }
  intros t Ht. split; [apply H, Ht|apply trimmed_trim, H, Ht].
Qed.

Lemma reachable_token_trimmed_witness :
  reachable sample_engine signed_in
  /\ trimmed (lit "TOKEN") /\ trim (lit "TOKEN") = lit "TOKEN".
Proof.
  assert (H : reachable sample_engine signed_in).
  { apply (reachable_invoke sample_engine Authenticate
             (sample_remote (ok (lit " TOKEN ")) (inl [])) sample_client).
    - apply reachable_new.
    - vm_compute; reflexivity. }
  split; [exact H|].
  apply (reachable_token_trimmed sample_engine signed_in (lit "TOKEN") H).
  reflexivity.
Defined.

(** ** createTicket, call by call *)

(** With a cached handle [createTicket] goes straight to the remote
    operation. *)
Lemma run_createTicket_cached (w : remote) (c : client) (h : soap_client)
    (p : ticket_params) :
  soapClient c = Some h ->
  run w (createTicket p c)
  = ([SoapCall h (lit "createTicket") (ticket_args (authToken c) p)],
     Some (createTicket_settled
             (on_call w h (lit "createTicket")
                (ticket_args (authToken c) p)), c)).
Proof.
  intros Hs. unfold createTicket, _getSoapClient, bind, get_this.
  cbn [io_bind]. rewrite Hs. unfold ret, try_catch, soap_callAsync.
  cbn [io_bind run].
  change (on_call w h (lit "createTicket") _)
    with (on_call w h (lit "createTicket") (ticket_args (authToken c) p)).
  destruct (on_call w h (lit "createTicket") (ticket_args (authToken c) p))
    as [returned|err]; cbn [settle io_bind createTicket_settled].
  - destruct (bool_decide (split 124 returned !! 0%nat = Some (lit "true")));
      reflexivity.
  - reflexivity.
Qed.

(** Without one it first asks for the handle, once the token is there. *)
Lemma run_createTicket_first (w : remote) (c : client) (p : ticket_params) :
  soapClient c = None -> token_missing (authToken c) = false ->
  run w (createTicket p c)
  = match on_createClient w (soapWsdl c) with
    | inl h =>
        ([SoapCreateClient (soapWsdl c);
          SoapCall h (lit "createTicket") (ticket_args (authToken c) p)],
         Some (createTicket_settled
                 (on_call w h (lit "createTicket")
                    (ticket_args (authToken c) p)),
               with_soapClient (Some h) c))
    | inr e => ([SoapCreateClient (soapWsdl c)], Some (Thrown e, c))
    end.
Proof.
  intros Hs Ht. unfold createTicket, _getSoapClient, bind, get_this.
  cbn [io_bind]. rewrite Hs, Ht.
  unfold soap_createClientAsync, set_soapClient, ret, try_catch,
    soap_callAsync.
  cbn [io_bind run].
  destruct (on_createClient w (soapWsdl c)) as [h|e];
    cbn [settle io_bind run]; [|reflexivity].
  change (on_call w h (lit "createTicket") _)
    with (on_call w h (lit "createTicket") (ticket_args (authToken c) p)).
  destruct (on_call w h (lit "createTicket") (ticket_args (authToken c) p))
    as [returned|err]; cbn [settle io_bind run createTicket_settled].
  - destruct (bool_decide (split 124 returned !! 0%nat = Some (lit "true")));
      reflexivity.
  - reflexivity.
Qed.

Lemma token_missing_false (t : jsstring) :
  t <> [] -> token_missing (Some t) = false.
Proof.
  intros Ht. unfold token_missing, token_value, truthy.
  rewrite bool_decide_eq_false_2 by exact Ht. reflexivity.
Qed.

Lemma result_createTicket_ready (w : remote) (c : client) (h : soap_client)
    (p : ticket_params) :
  soap_ready w c = Some h ->
  result (run w (createTicket p c))
  = Some (createTicket_settled
            (on_call w h (lit "createTicket") (ticket_args (authToken c) p)),
          with_soapClient (Some h) c).
Proof.
  unfold soap_ready. destruct (soapClient c) as [h'|] eqn:Hs.
  - intros [= ->]. rewrite (run_createTicket_cached w c h p Hs).
    rewrite (with_soapClient_same c h Hs). reflexivity.
  - destruct (token_missing (authToken c)) eqn:Ht; [discriminate|].
    rewrite (run_createTicket_first w c p Hs Ht).
    destruct (on_createClient w (soapWsdl c)) as [h'|e]; [|discriminate].
    intros [= ->]. reflexivity.
Qed.

(** X4. Once the SOAP handle is cached, [createTicket] makes one transport
    call, the remote operation on that handle: it does not ask for a handle
    again and does not check the token again, which goes into the call as
    it is at that moment.  The fields of the client stay as they are. *)
Theorem createTicket_reuses_handle (w : remote) (c : client)
    (h : soap_client) (p : ticket_params) :
  soapClient c = Some h ->
  exists args o,
    run w (createTicket p c)
    = ([SoapCall h (lit "createTicket") args], Some (o, c))
    /\ arg (lit "authToken") args = Some (token_value (authToken c)).
Proof.
  intros Hs. rewrite (run_createTicket_cached w c h p Hs).
  eexists _, _. split; reflexivity.
Qed.

Lemma createTicket_reuses_handle_witness :
  let w := sample_remote unauthorized (inl (lit "true|55|TK-1")) in
  soapClient cached = Some (SoapClient 1)
  /\ exists args o,
       run w (createTicket sample_ticket cached)
       = ([SoapCall (SoapClient 1) (lit "createTicket") args],
          Some (o, cached))
       /\ arg (lit "authToken") args = Some (JStr (lit "TOKEN")).
Proof.
  intros w. split; [reflexivity|].
  apply (createTicket_reuses_handle w cached (SoapClient 1) sample_ticket).
  reflexivity.
Defined.

(** X5. The first SOAP method on a client that holds a token asks for the
    handle with the WSDL address of the client.  When that request is
    rejected, the rejection is thrown as it is, no operation is called and
    no handle is kept.  When it is granted, the handle is kept, whatever
    the operation answers afterwards. *)
Theorem createTicket_acquires_handle (w : remote) (c : client)
    (p : ticket_params) :
  soapClient c = None -> token_missing (authToken c) = false ->
  (forall e, on_createClient w (soapWsdl c) = inr e ->
     run w (createTicket p c)
     = ([SoapCreateClient (soapWsdl c)], Some (Thrown e, c)))
  /\ (forall h, on_createClient w (soapWsdl c) = inl h ->
        exists args o,
          run w (createTicket p c)
          = ([SoapCreateClient (soapWsdl c);
              SoapCall h (lit "createTicket") args],
             Some (o, with_soapClient (Some h) c))).
Proof.
  intros Hs Ht. rewrite (run_createTicket_first w c p Hs Ht).
  split.
  - intros e ->. reflexivity.
  - intros h ->. eexists _, _. reflexivity.
Qed.

Lemma createTicket_acquires_handle_witness :
  let w := sample_remote unauthorized (inl (lit "true|55|TK-1")) in
  soapClient signed_in = None
  /\ token_missing (authToken signed_in) = false
  /\ exists args o,
       run w (createTicket sample_ticket signed_in)
       = ([SoapCreateClient (soapWsdl signed_in);
           SoapCall (SoapClient 1) (lit "createTicket") args],
          Some (o, cached)).
Proof.
  intros w. split; [reflexivity|]. split; [reflexivity|].
  apply (proj2 (createTicket_acquires_handle w signed_in sample_ticket
                  eq_refl eq_refl) (SoapClient 1)).
  reflexivity.
Defined.

(** X6. A token endpoint that answers with white space alone (or with an
    empty body) makes [authenticate] return the empty string; the client
    is then as good as unauthenticated: [createTicket] on it throws the
    missing-token error without any transport call. *)
Theorem blank_token_is_missing (E : engine) (w : remote) (c : client)
    (r : http_response) (body : jsstring) (p : ticket_params) :
  soapClient c = None ->
  on_get w (auth_url c) (auth_config c) = inl r ->
  data r = JStr body -> all_space body ->
  let c1 := with_authToken (Some []) c in
  result (run w (authenticate E c)) = Some (Returned (Some []), c1)
  /\ run w (createTicket p c1) = ([], Some (Thrown missing_token_error, c1)).
Proof.
  intros Hs Hget Hbody Hblank c1. split.
  - rewrite run_authenticate, Hget, Hbody. unfold result. cbn [snd].
    rewrite (trim_all_space _ Hblank). reflexivity.
  - unfold createTicket.
    rewrite (getSoapClient_missing c1 _ Hs eq_refl). reflexivity.
Qed.

Lemma blank_token_is_missing_witness :
  let w := sample_remote (ok [32; 10]) (inl (lit "true|55|TK-1")) in
  let c1 := with_authToken (Some []) sample_client in
  all_space [32; 10]
  /\ run w (createTicket sample_ticket c1)
     = ([], Some (Thrown missing_token_error, c1)).
Proof.
  intros w c1.
  assert (Hblank : all_space [32; 10]) by (repeat constructor).
  split; [exact Hblank|].
  apply (blank_token_is_missing sample_engine w sample_client
           (HttpResponse 200 (lit "OK") (JStr [32; 10])) [32; 10]
           sample_ticket eq_refl eq_refl eq_refl Hblank).
Defined.

(** X7. [authenticate] followed by [createTicket] on a client without a
    handle: when the token endpoint answers a text that is not blank and
    the handle is granted, [authenticate] returns and stores the text
    without the white space around it, which is not empty; the two
    transport calls of [createTicket] are then the request for the handle
    and the remote operation, and the [authToken] argument of the
    operation is that token. *)
Theorem authenticate_then_createTicket (E : engine) (w : remote)
    (c : client) (r : http_response) (body : jsstring) (h : soap_client)
    (p : ticket_params) :
  soapClient c = None ->
  on_get w (auth_url c) (auth_config c) = inl r ->
  data r = JStr body -> ~ all_space body ->
  on_createClient w (soapWsdl c) = inl h ->
  exists before token after,
    body = before ++ token ++ after
    /\ all_space before /\ all_space after /\ trimmed token /\ token <> []
    /\ result (run w (authenticate E c))
       = Some (Returned (Some token), with_authToken (Some token) c)
    /\ exists args o,
         run w (createTicket p (with_authToken (Some token) c))
         = ([SoapCreateClient (soapWsdl c);
             SoapCall h (lit "createTicket") args],
            Some (o, with_soapClient (Some h)
                       (with_authToken (Some token) c)))
         /\ arg (lit "authToken") args = Some (JStr token).
Proof.
  intros Hs Hget Hbody Hblank Hgrant.
  destruct (trim_split body) as (before & after & Hsplit & Hb & Ha).
  assert (Htoken : trim body <> []) by apply trim_nonempty, Hblank.
  exists before, (trim body), after.
  split; [exact Hsplit|]. split; [exact Hb|]. split; [exact Ha|].
  split; [apply trim_trimmed|]. split; [exact Htoken|]. split.
  - rewrite run_authenticate, Hget, Hbody. reflexivity.
  - rewrite (run_createTicket_first w (with_authToken (Some (trim body)) c)
               p Hs (token_missing_false _ Htoken)).
    cbn [soapWsdl with_authToken]. rewrite Hgrant.
    eexists _, _. split; reflexivity.
Qed.

Lemma authenticate_then_createTicket_witness :
  let w := sample_remote (ok (lit " TOKEN ")) (inl (lit "true|55|TK-1")) in
  ~ all_space (lit " TOKEN ")
  /\ exists before token after,
       lit " TOKEN " = before ++ token ++ after
       /\ all_space before /\ all_space after /\ trimmed token
       /\ token <> []
       /\ result (run w (authenticate sample_engine sample_client))
          = Some (Returned (Some token),
                  with_authToken (Some token) sample_client).
Proof.
  intros w.
  assert (Hbody : ~ all_space (lit " TOKEN ")).
  { intros H. apply Forall_inv_tail, Forall_inv in H. discriminate H. }
  split; [exact Hbody|].
  destruct (authenticate_then_createTicket sample_engine w sample_client
              (HttpResponse 200 (lit "OK") (JStr (lit " TOKEN ")))
              (lit " TOKEN ") (SoapClient 1) sample_ticket
              eq_refl eq_refl eq_refl Hbody eq_refl)
    as (before & token & after & H1 & H2 & H3 & H4 & H5 & H6 & _).
  exists before, token, after. auto 10.
Defined.

(** X8. The arguments of the remote operation createTicket: the subject,
    the partner and the keyword as given; [sPLZ] always empty; an option
    that is left out or is the empty string reads as its default, POST for
    the channel and 1 for the type. *)
Theorem createTicket_argument_defaults (w : remote) (c : client)
    (h : soap_client) (p : ticket_params) :
  soapClient c = Some h ->
  exists args,
    trace (run w (createTicket p c)) = [SoapCall h (lit "createTicket") args]
    /\ length args = 13%nat
    /\ arg (lit "sSubject") args = Some (JStr (subject p))
    /\ arg (lit "sPartner") args = Some (JStr (partnerId p))
    /\ arg (lit "sKeyword") args = Some (JStr (keyword p))
    /\ arg (lit "sPLZ") args = Some (JStr [])
    /\ arg (lit "sChannel") args
       = Some (JStr match options p with
                    | Some {| channel := Some (x :: s) |} => x :: s
                    | _ => lit "POST"
                    end)
    /\ arg (lit "sType") args
       = Some (JStr match options p with
                    | Some {| type := Some (x :: s) |} => x :: s
                    | _ => lit "1"
                    end).
Proof.
  intros Hs. rewrite (run_createTicket_cached w c h p Hs).
  eexists. split; [reflexivity|]. split; [reflexivity|].
  do 4 (split; [reflexivity|]).
  destruct p as [sb pa kw [[ca ch de ty tg fv pr ts]|]]; cbn.
  - split; [destruct ch as [[|? ?]|]|destruct ty as [[|? ?]|]]; reflexivity.
  - split; reflexivity.
Qed.

Lemma createTicket_argument_defaults_witness :
  let w := sample_remote unauthorized (inl (lit "true|55|TK-1")) in
  exists args,
    trace (run w (createTicket sample_ticket cached))
    = [SoapCall (SoapClient 1) (lit "createTicket") args]
    /\ arg (lit "sChannel") args = Some (JStr (lit "POST"))
    /\ arg (lit "sType") args = Some (JStr (lit "1")).
Proof.
  intros w.
  destruct (createTicket_argument_defaults w cached (SoapClient 1)
              sample_ticket eq_refl)
    as (args & Htrace & _ & _ & _ & _ & _ & Hchannel & Htype).
  exists args. split; [exact Htrace|]. split; [exact Hchannel|exact Htype].
Defined.

(** X9. Once the handle is there, every failure of [createTicket] is an
    [Error] whose message starts with "createTicket SOAP error: " and which
    carries no [response]; for a rejected operation the message of the
    rejection follows the prefix. *)
Theorem createTicket_failures_wrapped (w : remote) (c : client)
    (h : soap_client) (p : ticket_params) :
  soap_ready w c = Some h ->
  (forall e c', result (run w (createTicket p c)) = Some (Thrown e, c') ->
     exists m, e = Error (lit "createTicket SOAP error: " ++ m))
  /\ (forall err,
        on_call w h (lit "createTicket") (ticket_args (authToken c) p)
        = inr err ->
        result (run w (createTicket p c))
        = Some (Thrown (Error (lit "createTicket SOAP error: "
                                 ++ message err)),
                with_soapClient (Some h) c)).
Proof.
  intros Hready. rewrite (result_createTicket_ready w c h p Hready). split.
  - intros e c'.
    destruct (on_call w h _ _) as [returned|err]; cbn [createTicket_settled].
    + destruct (bool_decide _); intros [= <- _]. eexists. reflexivity.
    + intros [= <- _]. eexists. reflexivity.
  - intros err ->. reflexivity.
Qed.

Lemma createTicket_failures_wrapped_witness :
  let w := sample_remote unauthorized (inr (Error (lit "ECONNRESET"))) in
  soap_ready w signed_in = Some (SoapClient 1)
  /\ result (run w (createTicket sample_ticket signed_in))
     = Some (Thrown (Error (lit "createTicket SOAP error: ECONNRESET")),
             cached).
Proof.
  intros w. split; [reflexivity|].
  apply (proj2 (createTicket_failures_wrapped w signed_in (SoapClient 1)
                  sample_ticket eq_refl) (Error (lit "ECONNRESET"))).
  reflexivity.
Defined.

(** ** The answer of createTicket, field by field *)

Lemma split_no_sep (sep : code_unit) (a : jsstring) :
  Forall (fun c => c <> sep) a -> split sep a = [a].
Proof.
  induction 1 as [|c a Hc _ IH]; simpl; [reflexivity|].
  destruct (N.eqb_spec c sep); [contradiction|]. rewrite IH. reflexivity.
Qed.

Lemma split_app (sep : code_unit) (a rest : jsstring) :
  Forall (fun c => c <> sep) a ->
  split sep (a ++ sep :: rest) = a :: split sep rest.
Proof.
  induction 1 as [|c a Hc _ IH]; simpl.
  - rewrite N.eqb_refl. reflexivity.
  - destruct (N.eqb_spec c sep); [contradiction|]. rewrite IH. reflexivity.
Qed.

Lemma split_nonempty (sep : code_unit) (s : jsstring) : split sep s <> [].
Proof.
  destruct s as [|c s]; simpl; [discriminate|].
  destruct (c =? sep); [discriminate|]. destruct (split sep s); discriminate.
Qed.

(** [parts.join(sep)] gives the string back. *)
Lemma join_split (sep : code_unit) (s : jsstring) :
  join [sep] (split sep s) = s.
Proof.
  induction s as [|c s IH]; [reflexivity|]. simpl.
  destruct (N.eqb_spec c sep) as [->|Hc].
  - pose proof (split_nonempty sep s) as Hne.
    destruct (split sep s) as [|q qs]; [contradiction|].
    cbn [join app]. f_equal. exact IH.
  - pose proof (split_nonempty sep s) as Hne.
    destruct (split sep s) as [|q qs]; [contradiction|].
    rewrite <- IH. destruct qs; reflexivity.
Qed.

(** X10. The answer [true|id|nr] of the remote operation, with [id] and
    [nr] free of bars, makes [createTicket] return exactly [id] and [nr];
    what follows a third bar is ignored.  An answer without the number
    gives an [undefined] number, and the answer [true] alone gives both
    fields [undefined]: neither is an error. *)
Theorem createTicket_reads_fields (w : remote) (c : client)
    (h : soap_client) (p : ticket_params) (returned id nr more : jsstring) :
  soap_ready w c = Some h ->
  (forall args, on_call w h (lit "createTicket") args = inl returned) ->
  no_bar id -> no_bar nr ->
  (returned = lit "true|" ++ id ++ 124 :: nr
   \/ returned = lit "true|" ++ id ++ 124 :: nr ++ 124 :: more ->
   result (run w (createTicket p c))
   = Some (Returned {| ticketid := Some id; ticketnr := Some nr |},
           with_soapClient (Some h) c))
  /\ (returned = lit "true|" ++ id ->
      result (run w (createTicket p c))
      = Some (Returned {| ticketid := Some id; ticketnr := None |},
              with_soapClient (Some h) c))
  /\ (returned = lit "true" ->
      result (run w (createTicket p c))
      = Some (Returned {| ticketid := None; ticketnr := None |},
              with_soapClient (Some h) c)).
Proof.
  intros Hready Hcall Hid Hnr.
  rewrite (result_createTicket_ready w c h p Hready), Hcall.
  cbn [createTicket_settled].
  assert (Htrue : Forall (fun ch => ch <> 124) (lit "true"))
    by (repeat constructor; discriminate).
  split; [|split].
  - intros [-> | ->];
      change (lit "true|" ++ ?x) with (lit "true" ++ 124 :: x);
      rewrite (split_app 124 _ _ Htrue), (split_app 124 id _ Hid).
    + rewrite (split_no_sep 124 nr Hnr). reflexivity.
    + rewrite (split_app 124 nr _ Hnr). reflexivity.
  - intros ->. change (lit "true|" ++ id) with (lit "true" ++ 124 :: id).
    rewrite (split_app 124 _ _ Htrue), (split_no_sep 124 id Hid). reflexivity.
  - intros ->. reflexivity.
Qed.

Lemma createTicket_reads_fields_witness :
  let w := sample_remote unauthorized (inl (lit "true|55|TK-1|more")) in
  no_bar (lit "55") /\ no_bar (lit "TK-1")
  /\ result (run w (createTicket sample_ticket signed_in))
     = Some (Returned {| ticketid := Some (lit "55");
                         ticketnr := Some (lit "TK-1") |}, cached).
Proof.
  intros w.
  assert (Hid : no_bar (lit "55")) by (repeat constructor; discriminate).
  assert (Hnr : no_bar (lit "TK-1")) by (repeat constructor; discriminate).
  split; [exact Hid|]. split; [exact Hnr|].
  apply (proj1 (createTicket_reads_fields w signed_in (SoapClient 1)
                  sample_ticket (lit "true|55|TK-1|more") (lit "55")
                  (lit "TK-1") (lit "more") eq_refl (fun _ => eq_refl)
                  Hid Hnr)).
  right. reflexivity.
Defined.

(** ** getKeywords on other envelopes *)

(** X11. On an envelope that is a JSON object, [getKeywords] reads SUCCESS
    as JavaScript reads a condition: any truthy value (the number 1, a
    non-empty string) counts as success, and the method returns DATA, or
    [undefined] when the envelope has none.  A missing or falsy SUCCESS is
    a failure.  Its message ends with the ERRORTEXT converted to a string,
    with "undefined" when the envelope has none, with "[object Object]"
    for an object.  When the ERRORTEXT cannot be converted (an object with
    an own property [toString], alone or inside an array), the conversion
    throws inside the [try] block and the caller gets the engine's
    TypeError after "getKeywords SOAP error: ". *)
Theorem getKeywords_envelope (E : engine) (w : remote) (c : client)
    (h : soap_client) (p : option keyword_params) (returned : jsstring)
    (fields : list (jsstring * jsvalue)) :
  soap_ready w c = Some h ->
  (forall args, on_call w h (lit "getKeywords") args = inl returned) ->
  JSON_parse returned = Some (JObj fields) ->
  let success := with_default (own_field (lit "SUCCESS") fields) JUndefined in
  let failure text :=
    Thrown (Error (lit "getKeywords SOAP error: getKeywords failed: "
                     ++ text)) in
  let not_converted :=
    Thrown (Error (lit "getKeywords SOAP error: "
                     ++ fault_message E NoPrimitive)) in
  (truthy success = true ->
   result (run w (getKeywords E p c))
   = Some (Returned (with_default (own_field (lit "DATA") fields) JUndefined),
           with_soapClient (Some h) c))
  /\ (truthy success = false ->
      forall v text, own_field (lit "ERRORTEXT") fields = Some v ->
      to_string E v = Some text ->
      result (run w (getKeywords E p c))
      = Some (failure text, with_soapClient (Some h) c))
  /\ (truthy success = false ->
      forall v, own_field (lit "ERRORTEXT") fields = Some v ->
      to_string E v = None ->
      result (run w (getKeywords E p c))
      = Some (not_converted, with_soapClient (Some h) c))
  /\ (truthy success = false ->
      own_field (lit "ERRORTEXT") fields = None ->
      result (run w (getKeywords E p c))
      = Some (failure (lit "undefined"), with_soapClient (Some h) c))
  /\ (forall s, to_string E (JStr s) = Some s)
  /\ (forall fs,
        to_string E (JObj fs)
        = match own_field (lit "toString") fs with
          | Some _ => None
          | None => Some (lit "[object Object]")
          end)
  /\ (forall fs x,
        own_field (lit "toString") fs = Some x ->
        to_string E (JArr [JObj fs]) = None).
Proof.
  intros Hready Hcall Hparse success failure not_converted.
  subst success failure not_converted.
  split; [|split; [|split; [|split; [|split; [|split]]]]].
  - intros Hs. getKeywords_received Hready Hcall.
    rewrite Hparse. unfold get_prop, ret. cbn [io_bind].
    rewrite Hs. reflexivity.
  - intros Hs v text Hv Htext. getKeywords_received Hready Hcall.
    rewrite Hparse. unfold get_prop, js_String, ret. cbn [io_bind].
    rewrite Hs. unfold ret. cbn [io_bind negb].
    rewrite Hv. cbn [with_default io_bind]. rewrite Htext. reflexivity.
  - intros Hs v Hv Hnone. getKeywords_received Hready Hcall.
    rewrite Hparse. unfold get_prop, js_String, ret. cbn [io_bind].
    rewrite Hs. unfold ret. cbn [io_bind negb].
    rewrite Hv. cbn [with_default io_bind]. rewrite Hnone. reflexivity.
  - intros Hs Hv. getKeywords_received Hready Hcall.
    rewrite Hparse. unfold get_prop, js_String, ret. cbn [io_bind].
    rewrite Hs. unfold ret. cbn [io_bind negb].
    rewrite Hv. reflexivity.
  - reflexivity.
  - reflexivity.
  - intros fs x Hx. cbn [to_string]. rewrite Hx. reflexivity.
Qed.

Lemma getKeywords_envelope_witness :
  let returned :=
    lit "{" ++ quoted (lit "SUCCESS") ++ lit ": false, "
    ++ quoted (lit "ERRORTEXT") ++ lit ": {" ++ quoted (lit "toString")
    ++ lit ": 1}}" in
  let fields :=
    [(lit "SUCCESS", JBool false);
     (lit "ERRORTEXT", JObj [(lit "toString", JNum 1 0)])] in
  let w := sample_remote unauthorized (inl returned) in
  JSON_parse returned = Some (JObj fields)
  /\ result (run w (getKeywords sample_engine None signed_in))
     = Some (Thrown (Error (lit "getKeywords SOAP error: Cannot convert object to primitive value")),
             cached).
Proof.
  intros returned fields w.
  assert (Hparse : JSON_parse returned = Some (JObj fields))
    by (vm_compute; reflexivity).
  split; [exact Hparse|].
  apply (proj1 (proj2 (proj2
           (getKeywords_envelope sample_engine w signed_in (SoapClient 1)
              None returned fields eq_refl (fun _ => eq_refl) Hparse)))
           eq_refl (JObj [(lit "toString", JNum 1 0)]) eq_refl eq_refl).
Defined.

(** X12. When the answer of the remote operation is JSON but not an
    object: on [null] the read of SUCCESS throws the engine's TypeError,
    which the method wraps; on a number, a string, a boolean or an array
    SUCCESS reads [undefined], and the method fails with "getKeywords
    failed: undefined". *)
Theorem getKeywords_not_an_object (E : engine) (w : remote) (c : client)
    (h : soap_client) (p : option keyword_params) (returned : jsstring)
    (v : jsvalue) :
  soap_ready w c = Some h ->
  (forall args, on_call w h (lit "getKeywords") args = inl returned) ->
  JSON_parse returned = Some v ->
  match v with
  | JObj _ => True
  | JNull | JUndefined =>
      result (run w (getKeywords E p c))
      = Some (Thrown (Error (lit "getKeywords SOAP error: "
                               ++ fault_message E
                                    (ReadOfNullish v (lit "SUCCESS")))),
              with_soapClient (Some h) c)
  | _ =>
      result (run w (getKeywords E p c))
      = Some (Thrown (Error (lit "getKeywords SOAP error: getKeywords failed: undefined")),
              with_soapClient (Some h) c)
  end.
Proof.
  intros Hready Hcall Hparse.
  destruct v; try exact I; getKeywords_received Hready Hcall;
    rewrite Hparse; reflexivity.
Qed.

Lemma getKeywords_not_an_object_witness :
  let w := sample_remote unauthorized (inl (lit "null")) in
  JSON_parse (lit "null") = Some JNull
  /\ result (run w (getKeywords sample_engine None signed_in))
     = Some (Thrown (Error (lit "getKeywords SOAP error: Cannot read properties of null (reading 'SUCCESS')")),
             cached).
Proof.
  intros w.
  assert (Hparse : JSON_parse (lit "null") = Some JNull)
    by (vm_compute; reflexivity).
  split; [exact Hparse|].
  apply (getKeywords_not_an_object sample_engine w signed_in (SoapClient 1)
           None (lit "null") JNull eq_refl (fun _ => eq_refl) Hparse).
Defined.

(** ** The address of getTicketDetails *)

Lemma encodeURIComponent_None (s : jsstring) :
  encodeURIComponent s = None <-> None ∈ code_points s.
Proof.
  unfold encodeURIComponent. generalize (code_points s). intros l.
  induction l as [|cp l IH]; cbn.
  - split; [discriminate|]. intros H. inversion H.
  - destruct cp as [cp0|]; cbn.
    + destruct (mapM _ l) as [pieces|] eqn:Hl; cbn.
      * split; [discriminate|]. intros H. apply elem_of_cons in H as [H|H];
          [discriminate|]. apply IH in H. discriminate.
      * split; [|reflexivity]. intros _. apply elem_of_cons. right.
        apply IH. reflexivity.
    + split; [|reflexivity]. intros _. apply elem_of_cons. left. reflexivity.
Qed.

(** X13. A ticket id that holds a lone surrogate cannot be encoded:
    [getTicketDetails] throws the engine's URIError as it is, not the
    error of its [catch] block, and sends no request. *)
Theorem getTicketDetails_malformed_id (E : engine) (w : remote) (c : client)
    (ticketId : jsstring) :
  None ∈ code_points ticketId ->
  run w (getTicketDetails E ticketId c)
  = ([], Some (Thrown (Error (fault_message E UriMalformed)), c)).
Proof.
  intros H%encodeURIComponent_None.
  unfold getTicketDetails, bind, get_this. cbn [io_bind]. rewrite H.
  reflexivity.
Qed.

Lemma getTicketDetails_malformed_id_witness :
  let w := sample_remote (ok []) (inl []) in
  None ∈ code_points [55357]
  /\ run w (getTicketDetails sample_engine [55357] signed_in)
     = ([], Some (Thrown (Error (lit "URI malformed")), signed_in)).
Proof.
  intros w.
  assert (Hid : None ∈ code_points [55357])
    by (apply elem_of_cons; left; reflexivity).
  split; [exact Hid|].
  apply (getTicketDetails_malformed_id sample_engine w signed_in _ Hid).
Defined.

Lemma hex_digit_unreserved (i : N) : i < 16 -> uri_unreserved (hex_digit i) = true.
Proof.
  intros Hi. unfold hex_digit, uri_unreserved.
  destruct (N.ltb_spec i 10).
  - replace ((48 <=? 48 + i) && (48 + i <=? 57)) with true;
      [rewrite !orb_true_r; reflexivity|].
    symmetry. apply andb_true_iff. split; apply N.leb_le; lia.
  - replace ((65 <=? 65 + (i - 10)) && (65 + (i - 10) <=? 90)) with true;
      [reflexivity|].
    symmetry. apply andb_true_iff. split; apply N.leb_le; lia.
Qed.

Lemma percent_encode_safe (b : N) :
  b < 256 -> Forall (fun c => uri_safe c = true) (percent_encode b).
Proof.
  intros Hb. unfold percent_encode. repeat constructor.
  - unfold uri_safe. rewrite hex_digit_unreserved; [reflexivity|].
    apply N.Div0.div_lt_upper_bound. lia.
  - unfold uri_safe. rewrite hex_digit_unreserved; [reflexivity|].
    apply N.mod_lt. discriminate.
Qed.

Lemma utf8_bytes (cp : N) :
  cp < 1114112 -> Forall (fun b => b < 256) (utf8_of_code_point cp).
Proof.
  intros Hcp. unfold utf8_of_code_point.
  assert (H64 : forall x, 128 + x mod 64 < 256).
  { intros x. pose proof (N.mod_lt x 64 ltac:(discriminate)). lia. }
  destruct (N.ltb_spec cp 128); [repeat constructor; lia|].
  destruct (N.ltb_spec cp 2048).
  { repeat constructor; [|apply H64].
    assert (cp / 64 < 32) by (apply N.Div0.div_lt_upper_bound; lia). lia. }
  destruct (N.ltb_spec cp 65536).
  { repeat constructor; [|apply H64|apply H64].
    assert (cp / 4096 < 16) by (apply N.Div0.div_lt_upper_bound; lia). lia. }
  repeat constructor; [|apply H64|apply H64|apply H64].
  assert (cp / 262144 < 5) by (apply N.Div0.div_lt_upper_bound; lia). lia.
Qed.

Lemma code_points_bound (s : jsstring) :
  Forall (fun u => u < 65536) s ->
  Forall (fun cp => forall x, cp = Some x -> x < 1114112) (code_points s).
Proof.
  intros Hs. induction Hs as [|hi s Hhi Hs IH]; cbn [code_points];
    [constructor|].
  destruct ((55296 <=? hi) && (hi <=? 56319)) eqn:Hhigh.
  - destruct s as [|lo s]; [repeat constructor; discriminate|].
    destruct ((56320 <=? lo) && (lo <=? 57343)) eqn:Hlow.
    + constructor.
      * intros x [= <-].
        apply andb_true_iff in Hhigh as [_ H1%N.leb_le].
        apply andb_true_iff in Hlow as [_ H2%N.leb_le]. lia.
      * cbn [code_points] in IH. rewrite Hlow in IH.
        destruct ((55296 <=? lo) && (lo <=? 56319)) eqn:Hlo2.
        -- apply andb_true_iff in Hlo2 as [_ H3%N.leb_le].
           apply andb_true_iff in Hlow as [H4%N.leb_le _]. lia.
        -- inversion IH; assumption.
    + constructor; [discriminate|exact IH].
  - destruct ((56320 <=? hi) && (hi <=? 57343)); constructor;
      try exact IH; [discriminate|]. intros x [= <-]. lia.
Qed.

Lemma encodeURIComponent_safe (s enc : jsstring) :
  Forall (fun u => u < 65536) s ->
  encodeURIComponent s = Some enc ->
  Forall (fun c => uri_safe c = true) enc.
Proof.
  intros Hs%code_points_bound. unfold encodeURIComponent.
  revert enc. induction Hs as [|cp l Hcp Hl IH]; intros enc; cbn.
  - intros [= <-]. constructor.
  - destruct cp as [cp0|]; cbn; [|discriminate].
    destruct (mapM _ l) as [pieces|] eqn:Hpieces; cbn; [|discriminate].
    intros [= <-]. apply Forall_app. split; [|apply IH; reflexivity].
    destruct (uri_unreserved cp0) eqn:Hu.
    + repeat constructor. unfold uri_safe. rewrite Hu. reflexivity.
    + pose proof (utf8_bytes cp0 (Hcp cp0 eq_refl)) as Hb.
      induction Hb as [|b bs Hb _ IHb]; cbn [flat_map]; [constructor|].
      apply Forall_app. split; [apply percent_encode_safe, Hb|exact IHb].
Qed.

Lemma uri_unreserved_ascii (c : code_unit) :
  uri_unreserved c = true -> c < 128.
Proof.
  intros H. destruct (N.lt_ge_cases c 128) as [Hlt|Hge]; [exact Hlt|].
  exfalso. unfold uri_unreserved in H. cbn [existsb] in H.
  rewrite (proj2 (N.leb_gt c 90)), (proj2 (N.leb_gt c 122)),
    (proj2 (N.leb_gt c 57)) in H by lia.
  rewrite !andb_false_r in H. cbn [orb] in H.
  repeat match type of H with
         | context [N.eqb c ?k] =>
             rewrite (proj2 (N.eqb_neq c k)) in H by lia
         end.
  discriminate.
Qed.

Lemma code_points_ascii (s : jsstring) :
  Forall (fun c => c < 128) s -> code_points s = map Some s.
Proof.
  induction 1 as [|c s Hc _ IH]; [reflexivity|].
  cbn [code_points map]. rewrite IH.
  rewrite (proj2 (N.leb_gt 55296 c)), (proj2 (N.leb_gt 56320 c)) by lia.
  reflexivity.
Qed.

Lemma encodeURIComponent_unreserved (s : jsstring) :
  Forall (fun c => uri_unreserved c = true) s ->
  encodeURIComponent s = Some s.
Proof.
  intros Hs. unfold encodeURIComponent.
  rewrite code_points_ascii
    by (eapply Forall_impl; [exact Hs|apply uri_unreserved_ascii]).
  induction Hs as [|c s Hc _ IH]; [reflexivity|].
  cbn. rewrite Hc.
  destruct (mapM _ (map Some s)) as [pieces|]; [|discriminate].
  cbn. injection IH as ->. reflexivity.
Qed.

(** X14. The ticket id goes into the address of [getTicketDetails]
    percent-encoded: after [baseUrl/dokuweb/ticket/] come only letters,
    digits, the marks - _ . ! ~ * ' ( ) and the percent sign, so that no
    slash, question mark, ampersand or hash of the id reaches the address;
    an id made of unreserved characters stands there as it is. *)
Theorem getTicketDetails_address (E : engine) (w : remote) (c : client)
    (ticketId encoded : jsstring) :
  Forall (fun u => u < 65536) ticketId ->
  encodeURIComponent ticketId = Some encoded ->
  trace (run w (getTicketDetails E ticketId c))
  = [HttpGet (baseUrl c ++ lit "/dokuweb/ticket/" ++ encoded)
       {| params := [(lit "authtoken", token_value (authToken c))];
          headers := [] |}]
  /\ Forall (fun ch => uri_safe ch = true) encoded
  /\ Forall (fun ch => ch <> 47 /\ ch <> 63 /\ ch <> 38 /\ ch <> 35) encoded
  /\ (Forall (fun ch => uri_unreserved ch = true) ticketId ->
      encoded = ticketId).
Proof.
  intros Hunits Henc.
  pose proof (encodeURIComponent_safe _ _ Hunits Henc) as Hsafe.
  split; [rewrite (run_getTicketDetails E w c _ _ Henc); reflexivity|].
  split; [exact Hsafe|]. split.
  - eapply Forall_impl; [exact Hsafe|]. intros ch Hch.
    repeat split; intros ->; discriminate.
  - intros Hplain. rewrite (encodeURIComponent_unreserved _ Hplain) in Henc.
    congruence.
Qed.

Lemma getTicketDetails_address_witness :
  let w := sample_remote (ok []) (inl []) in
  encodeURIComponent (lit "a/b?c") = Some (lit "a%2Fb%3Fc")
  /\ trace (run w (getTicketDetails sample_engine (lit "a/b?c") signed_in))
     = [HttpGet (lit "https://dokuweb.example/api/dokuweb/ticket/a%2Fb%3Fc")
          {| params := [(lit "authtoken", JStr (lit "TOKEN"))];
             headers := [] |}].
Proof.
  intros w.
  assert (Henc : encodeURIComponent (lit "a/b?c") = Some (lit "a%2Fb%3Fc"))
    by (vm_compute; reflexivity).
  assert (Hunits : Forall (fun u => u < 65536) (lit "a/b?c"))
    by (repeat constructor).
  split; [exact Henc|].
  apply (proj1 (getTicketDetails_address sample_engine w signed_in _ _
                  Hunits Henc)).
Defined.

(** ** When the REST methods return *)

(** X15. With an id that can be encoded and a request answered with
    success, [getTicketDetails] returns a mapping exactly when the body is
    a text that holds an element (an opening [<ticket], white space, a
    non-empty attribute text without [>], the closing [/>]); otherwise,
    also when the body is not a text, it throws.  It never hangs and never
    changes the client. *)
Theorem getTicketDetails_returns_iff (E : engine) (w : remote) (c : client)
    (ticketId encoded : jsstring) (r : http_response) :
  encodeURIComponent ticketId = Some encoded ->
  on_get w (details_url c encoded) (details_config c) = inl r ->
  ((exists attrs, result (run w (getTicketDetails E ticketId c))
                  = Some (Returned attrs, c))
   <-> exists body, data r = JStr body /\ contains_ticket_element body)
  /\ ((exists e, result (run w (getTicketDetails E ticketId c))
                 = Some (Thrown e, c))
      <-> ~ exists body, data r = JStr body /\ contains_ticket_element body).
Proof.
  intros Henc Hget. rewrite (run_getTicketDetails E w c _ _ Henc), Hget.
  unfold result. cbn [snd].
  destruct (data r) as [| | | |body| |];
    try (split; split;
           [intros [attrs [=]]
           |intros (body & [=] & _)
           |intros _ (body & [=] & _)
           |intros _; eexists; reflexivity]).
  unfold string_match. rewrite regexp_exec_0.
  destruct (search ticketMatchRegex 0 body) as [m|] eqn:Hm.
  - pose proof (search_ticket_inv _ _ _ _ (or_intror eq_refl) Hm) as Hin.
    destruct (parse_attrs_ends (group m 1)) as [attrs ->].
    split; split.
    + intros _. exists body. split; [reflexivity|exact Hin].
    + intros _. eexists. reflexivity.
    + intros [e [=]].
    + intros Hnot. exfalso. apply Hnot. exists body.
      split; [reflexivity|exact Hin].
  - assert (Hnot : ~ contains_ticket_element body).
    { intros Hin.
      apply (search_ticket_complete ticketMatchRegex body 0
               (or_intror eq_refl) Hin Hm). }
    split; split.
    + intros [attrs [=]].
    + intros (body' & [= <-] & Hin). contradiction.
    + intros _ (body' & [= <-] & Hin). contradiction.
    + intros _. eexists. reflexivity.
Qed.

Lemma getTicketDetails_returns_iff_witness :
  let w := sample_remote (inl (HttpResponse 200 (lit "OK") (JNum 12345 0)))
             (inl []) in
  result (run w (getTicketDetails sample_engine (lit "55") signed_in))
  = Some (Thrown (Error (lit "getTicketDetails REST error: undefined undefined")),
          signed_in)
  /\ ~ exists body,
         JNum 12345 0 = JStr body /\ contains_ticket_element body.
Proof.
  intros w.
  assert (Hrun :
    result (run w (getTicketDetails sample_engine (lit "55") signed_in))
    = Some (Thrown (Error (lit "getTicketDetails REST error: undefined undefined")),
            signed_in)) by (vm_compute; reflexivity).
  split; [exact Hrun|].
  apply (proj1 (proj2 (getTicketDetails_returns_iff sample_engine w signed_in
                         (lit "55") (lit "55")
                         (HttpResponse 200 (lit "OK") (JNum 12345 0))
                         eq_refl eq_refl))).
  eexists. exact Hrun.
Defined.

(** X16. [searchTicketsByCreator] reads the body of a request answered
    with success as text, and returns an array, possibly empty, whenever
    the body can be read so: always for a text body.  It throws in two
    cases only.  When the request is rejected, the message holds the status
    and the status text of the rejection after "searchTicketsByCreator
    REST error: ".  When the body cannot be converted to text (an object
    with an own property [toString]), the message is
    "searchTicketsByCreator REST error: undefined undefined".  It never
    hangs and never changes the client. *)
Theorem searchTicketsByCreator_throws_iff (E : engine) (w : remote)
    (c : client) (login : jsstring) (opts : option search_options) :
  let answer :=
    on_get w (search_url c)
      (search_config c login (start_of opts) (max_of opts)) in
  (forall r text, answer = inl r -> to_string E (data r) = Some text ->
     exists tickets,
       result (run w (searchTicketsByCreator E login opts c))
       = Some (Returned tickets, c))
  /\ (forall r body, answer = inl r -> data r = JStr body ->
        exists tickets,
          result (run w (searchTicketsByCreator E login opts c))
          = Some (Returned tickets, c))
  /\ (forall r, answer = inl r -> to_string E (data r) = None ->
        result (run w (searchTicketsByCreator E login opts c))
        = Some (Thrown (Error (lit "searchTicketsByCreator REST error: undefined undefined")),
                c))
  /\ (forall err, answer = inr err ->
        result (run w (searchTicketsByCreator E login opts c))
        = Some (Thrown (Error (lit "searchTicketsByCreator REST error: "
                                 ++ show_status err ++ lit " "
                                 ++ show_statusText err)), c))
  /\ (forall e c',
        result (run w (searchTicketsByCreator E login opts c))
        = Some (Thrown e, c') ->
        (exists err, answer = inr err)
        \/ (exists r, answer = inl r /\ to_string E (data r) = None)).
Proof.
  intros answer. subst answer. rewrite run_searchTicketsByCreator. cbv zeta.
  unfold result. cbn [snd].
  destruct (on_get w _ _) as [r|err].
  - destruct (to_string E (data r)) as [text|] eqn:Htext.
    + destruct (parse_tickets_ends text) as [tickets ->].
      split; [|split; [|split; [|split]]].
      * intros r' text' _ _. eexists. reflexivity.
      * intros r' body _ _. eexists. reflexivity.
      * intros r' [= <-]. rewrite Htext. discriminate.
      * intros err [=].
      * intros e c' [=].
    + split; [|split; [|split; [|split]]].
      * intros r' text' [= <-]. rewrite Htext. discriminate.
      * intros r' body [= <-] Hbody. rewrite Hbody in Htext. discriminate.
      * intros r' _ _. reflexivity.
      * intros err [=].
      * intros e c' _. right. exists r. split; [reflexivity|exact Htext].
  - split; [|split; [|split; [|split]]].
    + intros r text [=].
    + intros r body [=].
    + intros r [=].
    + intros err' [= <-]. reflexivity.
    + intros e c' _. left. eexists. reflexivity.
Qed.

Lemma searchTicketsByCreator_throws_iff_witness :
  let data := JObj [(lit "toString", JNum 1 0)] in
  let w := sample_remote (inl (HttpResponse 200 (lit "OK") data)) (inl []) in
  to_string sample_engine data = None
  /\ result (run w (searchTicketsByCreator sample_engine (lit "me") None
                      signed_in))
     = Some (Thrown (Error (lit "searchTicketsByCreator REST error: undefined undefined")),
             signed_in).
Proof.
  intros data w. split; [reflexivity|].
  apply (proj1 (proj2 (proj2
           (searchTicketsByCreator_throws_iff sample_engine w signed_in
              (lit "me") None)))
           (HttpResponse 200 (lit "OK") data) eq_refl eq_refl).
Defined.

(** ** Repeated names *)

Lemma attrs_of_last_value (l : list attr_src)
    (attrs : gmap jsstring jsstring) (k : jsstring) :
  attrs_of l attrs !! k
  = if bool_decide (k = lit "__proto__") then attrs !! k
    else match last_value k l with
         | Some v => Some v
         | None => attrs !! k
         end.
Proof.
  revert attrs. induction l as [|a l IH]; intros attrs.
  - cbn. destruct (bool_decide _); reflexivity.
  - change (attrs_of (a :: l) attrs)
      with (attrs_of l (set_prop (a_name a) (a_value a) attrs)).
    rewrite IH, set_prop_lookup. cbn [last_value].
    destruct (bool_decide_reflect (k = lit "__proto__")) as [Hp|Hp].
    + rewrite bool_decide_eq_false_2; [reflexivity|].
      intros [-> H]. contradiction.
    + destruct (last_value k l); [reflexivity|].
      destruct (bool_decide_reflect (a_name a = k)) as [Ha|Ha].
      * rewrite bool_decide_eq_true_2; [reflexivity|]. split; congruence.
      * rewrite bool_decide_eq_false_2; [reflexivity|]. tauto.
Qed.

(** X17. When the element that [getTicketDetails] reads names an
    attribute more than once, the last value wins; an attribute named
    [__proto__] is not in the mapping; a name that the element does not
    have reads as absent. *)
Theorem getTicketDetails_repeated_names (E : engine) (w : remote)
    (c : client) (ticketId encoded : jsstring) (r : http_response)
    (t : ticket_src) (rest : jsstring) :
  encodeURIComponent ticketId = Some encoded ->
  on_get w (details_url c encoded) (details_config c) = inl r ->
  data r = JStr (render_ticket t ++ rest) -> ticket_ok t = true ->
  exists attrs,
    result (run w (getTicketDetails E ticketId c))
    = Some (Returned attrs, c)
    /\ attrs !! lit "__proto__" = None
    /\ forall k, k <> lit "__proto__" ->
         attrs !! k = last_value k (t_attrs t).
Proof.
  intros Henc Hget Hbody Ht. exists (ticket_attrs t). split; [|split].
  - rewrite (run_getTicketDetails E w c _ _ Henc), Hget.
    rewrite Hbody. unfold result, string_match. cbn [snd].
    rewrite regexp_exec_0.
    rewrite (search_first_ticket ticketMatchRegex t rest 0
               (or_intror eq_refl) Ht).
    rewrite ticket_groups_1, (parse_attrs_ticket t Ht). reflexivity.
  - unfold ticket_attrs. rewrite attrs_of_last_value.
    rewrite bool_decide_eq_true_2 by reflexivity. apply lookup_empty.
  - intros k Hk. unfold ticket_attrs. rewrite attrs_of_last_value.
    rewrite bool_decide_eq_false_2 by exact Hk.
    destruct (last_value k (t_attrs t)); [reflexivity|apply lookup_empty].
Qed.

Lemma getTicketDetails_repeated_names_witness :
  let w := sample_remote (ok (render_ticket ticket_twice)) (inl []) in
  ticket_ok ticket_twice = true
  /\ exists attrs,
       result (run w (getTicketDetails sample_engine (lit "55") signed_in))
       = Some (Returned attrs, signed_in)
       /\ attrs !! lit "status" = Some (lit "closed").
Proof.
  intros w.
  assert (Hok : ticket_ok ticket_twice = true) by (vm_compute; reflexivity).
  split; [exact Hok|].
  destruct (getTicketDetails_repeated_names sample_engine w signed_in
              (lit "55") (lit "55")
              (HttpResponse 200 (lit "OK") (JStr (render_ticket ticket_twice)))
              ticket_twice [] eq_refl eq_refl
              (f_equal JStr (eq_sym (app_nil_r _))) Hok)
    as (attrs & Hrun & _ & Hlast).
  exists attrs. split; [exact Hrun|].
  rewrite Hlast; [reflexivity|]. intros H. discriminate H.
Defined.

(** ** The constructor *)

Lemma strip_trailing_slash_snoc (b : jsstring) :
  strip_trailing_slash (b ++ [47]) = b.
Proof.
  unfold strip_trailing_slash. rewrite rev_app_distr. cbn.
  apply rev_involutive.
Qed.

Lemma strip_trailing_slash_none (b : jsstring) :
  last b <> Some 47 -> strip_trailing_slash b = b.
Proof.
  intros Hb. unfold strip_trailing_slash.
  rewrite <- head_rev_last in Hb.
  destruct (rev b) as [|ch rb] eqn:Hrev.
  - apply (f_equal (@rev N)) in Hrev. rewrite rev_involutive in Hrev.
    exact (eq_sym Hrev).
  - destruct (N.eqb_spec ch 47) as [->|]; [|reflexivity].
    exfalso. apply Hb. reflexivity.
Qed.

(** X18. The constructor drops one slash from the end of the base address
    and no more: a base given with or without that slash makes the same
    client, a second slash stays.  A new client holds neither a token nor a
    SOAP handle. *)
Theorem new_client_base (b s u p : jsstring) :
  last b <> Some 47 ->
  new_client (b ++ lit "/") s u p = new_client b s u p
  /\ baseUrl (new_client b s u p) = b
  /\ baseUrl (new_client (b ++ lit "//") s u p) = b ++ lit "/"
  /\ auth_url (new_client (b ++ lit "/") s u p)
     = b ++ lit "/dokuweb/auth/token"
  /\ authToken (new_client b s u p) = None
  /\ soapClient (new_client b s u p) = None.
Proof.
  intros Hb. unfold new_client, auth_url. cbn [baseUrl authToken soapClient].
  change (lit "/") with [47]. change (lit "//") with ([47] ++ [47]).
  rewrite app_assoc, !strip_trailing_slash_snoc.
  rewrite (strip_trailing_slash_none b Hb). repeat split; reflexivity.
Qed.

Lemma new_client_base_witness :
  last (lit "https://dokuweb.example/api") <> Some 47
  /\ sample_client
     = new_client (lit "https://dokuweb.example/api")
         (lit "https://dokuweb.example/api/webservices/Tickets.cfc?wsdl")
         (lit "user") (lit "secret").
Proof.
  assert (Hb : last (lit "https://dokuweb.example/api") <> Some 47).
  { intros H. vm_compute in H. discriminate H. }
  split; [exact Hb|].
  exact (proj1 (new_client_base (lit "https://dokuweb.example/api")
                  (lit "https://dokuweb.example/api/webservices/Tickets.cfc?wsdl")
                  (lit "user") (lit "secret") Hb)).
Defined.

(** ** getKeywords, call by call *)

Lemma run_getKeywords_cached (E : engine) (w : remote) (c : client)
    (h : soap_client) (p : option keyword_params) :
  soapClient c = Some h ->
  trace (run w (getKeywords E p c))
  = [SoapCall h (lit "getKeywords") (keywords_args (authToken c) p)]
  /\ forall err,
       on_call w h (lit "getKeywords") (keywords_args (authToken c) p)
       = inr err ->
       result (run w (getKeywords E p c))
       = Some (Thrown (Error (lit "getKeywords SOAP error: " ++ message err)),
               c).
Proof.
  intros Hs. unfold getKeywords, _getSoapClient, bind, get_this.
  cbn [io_bind]. rewrite Hs. unfold ret, try_catch, soap_callAsync.
  cbn [io_bind run].
  change (on_call w h (lit "getKeywords") _)
    with (on_call w h (lit "getKeywords") (keywords_args (authToken c) p)).
  destruct (on_call w h (lit "getKeywords") (keywords_args (authToken c) p))
    as [returned|err]; cbn [settle io_bind].
  - split; [|discriminate]. unfold json_parse.
    destruct (JSON_parse returned) as [v|]; [|reflexivity].
    unfold ret. cbn [io_bind].
    destruct v as [| | | | |items|fields]; try reflexivity;
      unfold get_prop, js_String, ret; cbn [io_bind];
      match goal with
      | |- context [negb ?b] => destruct b
      end; try reflexivity;
      cbn [negb]; unfold ret; cbn [io_bind];
      match goal with
      | |- context [to_string ?E ?v] => destruct (to_string E v)
      end; reflexivity.
  - split; [reflexivity|]. intros err' [= <-]. reflexivity.
Qed.

(** ** What the loops can return *)

Lemma class_no_quote (s : jsstring) : in_class (ClsNoneOf [34]) s -> no_quote s.
Proof.
  intros H. eapply Forall_impl; [exact H|]. intros c Hc ->. discriminate.
Qed.

Lemma attr_match_here_inv (s rest : jsstring) (caps : gmap nat jsstring) :
  match_here attrRegex s = Some (rest, caps) ->
  exists name value,
    s = name ++ [61; 34] ++ value ++ 34 :: rest
    /\ name <> [] /\ word_chars name /\ no_quote value
    /\ caps = attr_groups name value.
Proof.
  intros Hm. pose proof Hm as H. revert H.
  unfold match_here, attrRegex. cbn [rmatch quant_min].
  destruct s as [|c s]; [discriminate|].
  destruct (class_matches ClsWord c) eqn:Hc; [|discriminate].
  intros H. apply quant_greedy_inv in H as (a & s' & -> & Ha & H).
  destruct (strip_prefix [61; 34] s') as [s1|] eqn:H1; [|discriminate].
  apply strip_prefix_Some in H1. subst s'. cbn [quant_min] in H.
  apply quant_greedy_inv in H as (b & s' & -> & Hb & H).
  destruct (strip_prefix [34] s') as [s2|] eqn:H2; [|discriminate].
  apply strip_prefix_Some in H2. subst s'. injection H as <- _.
  assert (Hword : word_chars (c :: a)) by (constructor; assumption).
  apply class_no_quote in Hb.
  exists (c :: a), b. split; [same_text|]. split; [discriminate|].
  split; [exact Hword|]. split; [exact Hb|].
  pose proof (attr_match_here (c :: a) b s2 ltac:(discriminate) Hword Hb)
    as Hfwd.
  replace ((c :: a) ++ [61; 34] ++ b ++ 34 :: s2)
    with (c :: a ++ [61; 34] ++ b ++ [34] ++ s2) in Hfwd by same_text.
  rewrite Hm in Hfwd. injection Hfwd as ->. reflexivity.
Qed.

Lemma ticket_match_here_groups (r : regex) (s rest : jsstring)
    (caps : gmap nat jsstring) :
  r = ticketRegex \/ r = ticketMatchRegex ->
  match_here r s = Some (rest, caps) ->
  exists w a,
    s = lit "<ticket" ++ w :: a ++ lit "/>" ++ rest
    /\ is_space w = true /\ no_gt a /\ caps = ticket_groups w a.
Proof.
  intros Hr Hm.
  destruct (ticket_match_here_inv r s rest caps Hr Hm)
    as (w & a & -> & Hw & Hne & Ha).
  exists w, a. split; [reflexivity|]. split; [exact Hw|]. split; [exact Ha|].
  assert (Heq : Some (rest, caps) = Some (rest, ticket_groups w a))
    by (rewrite <- Hm; apply (ticket_match_here r w a rest Hr Hw Hne Ha)).
  injection Heq as ->. reflexivity.
Qed.

(** A match found by the search is a match at some position of the text. *)
Lemma search_inv (r : regex) (s : jsstring) (i : nat) (m : match_result) :
  search r i s = Some m ->
  exists pre s' rest,
    s = pre ++ s' /\ match_here r s' = Some (rest, groups m).
Proof.
  revert i. induction s as [|c s IH]; intros i; cbn [search];
    destruct (match_here r _) as [[rest caps]|] eqn:Hm.
  - intros [= <-]. exists [], [], rest. split; [reflexivity|exact Hm].
  - discriminate.
  - intros [= <-]. exists [], (c :: s), rest. split; [reflexivity|exact Hm].
  - intros H. apply IH in H as (pre & s' & rest & -> & H).
    exists (c :: pre), s', rest. split; [reflexivity|exact H].
Qed.

Lemma regexp_exec_inv (r : regex) (s : jsstring) (i : nat)
    (m : match_result) :
  regexp_exec r s i = Some m ->
  exists pre s' rest,
    s = pre ++ s' /\ match_here r s' = Some (rest, groups m).
Proof.
  unfold regexp_exec. destruct (length s <? i)%nat; [discriminate|].
  intros H. apply search_inv in H as (pre & s' & rest & Hs & H).
  exists (take i s ++ pre), s', rest. split; [|exact H].
  rewrite <- app_assoc, <- Hs, take_drop. reflexivity.
Qed.

(** What every turn of a loop keeps, for the matches the pattern can
    produce on the text, holds of what the loop returns. *)
Lemma exec_loop_invariant {A : Type} (P : A -> Prop) (r : regex)
    (s : jsstring) (body : match_result -> A -> A) :
  (forall i m acc, regexp_exec r s i = Some m -> P acc -> P (body m acc)) ->
  forall (fuel i : nat) (acc a : A),
    P acc -> exec_loop fuel r s i body acc = Some a -> P a.
Proof.
  intros Hbody. induction fuel as [|fuel IH]; intros i acc a Hacc;
    [discriminate|].
  cbn [exec_loop]. destruct (regexp_exec r s i) as [m|] eqn:Hm.
  - apply IH. apply (Hbody i m acc Hm Hacc).
  - intros [= <-]. exact Hacc.
Qed.

Lemma parse_attrs_read_from (attrString : jsstring)
    (attrs : gmap jsstring jsstring) :
  parse_attrs attrString = Some attrs -> read_from attrString attrs.
Proof.
  unfold parse_attrs.
  apply (exec_loop_invariant (read_from attrString)).
  - intros i m acc Hm Hacc k v.
    apply regexp_exec_inv in Hm as (pre & s' & rest & -> & Hm).
    apply attr_match_here_inv in Hm
      as (name & value & -> & Hne & Hword & Hvalue & Hcaps).
    unfold group. rewrite Hcaps.
    change (default [] (attr_groups name value !! 1%nat)) with name.
    change (default [] (attr_groups name value !! 2%nat)) with value.
    unfold set_prop. case_bool_decide as Hproto; [apply Hacc|].
    destruct (decide (name = k)) as [<-|Hk].
    + rewrite lookup_insert_eq. intros [= <-].
      repeat split; try assumption. exists pre, rest. reflexivity.
    + rewrite lookup_insert_ne by exact Hk. apply Hacc.
  - intros k v Hk. rewrite lookup_empty in Hk. discriminate.
Qed.

Lemma written_in_inside (pre a post k v : jsstring) :
  written_in a k v -> written_in (pre ++ a ++ post) k v.
Proof.
  intros (p & q & ->). exists (pre ++ p), (q ++ post). same_text.
Qed.

Lemma written_in_no_gt (a k v : jsstring) :
  no_gt a -> written_in a k v -> no_gt v.
Proof.
  intros Ha (p & q & ->). unfold no_gt in *.
  rewrite !Forall_app in Ha. destruct Ha as (_ & _ & _ & Hv & _). exact Hv.
Qed.

Lemma regexp_exec_ticket_inv (r : regex) (body : jsstring) (i : nat)
    (m : match_result) (attrs : gmap jsstring jsstring) :
  r = ticketRegex \/ r = ticketMatchRegex ->
  regexp_exec r body i = Some m ->
  parse_attrs (group m 1) = Some attrs ->
  read_from_element body attrs.
Proof.
  intros Hr Hm Hattrs.
  apply regexp_exec_inv in Hm as (pre & s' & rest & -> & Hm).
  apply (ticket_match_here_groups r _ _ _ Hr) in Hm
    as (w & a & -> & Hw & Ha & Hcaps).
  unfold group in Hattrs. rewrite Hcaps in Hattrs.
  change (default [] (ticket_groups w a !! 1%nat)) with a in Hattrs.
  apply parse_attrs_read_from in Hattrs.
  exists pre, w, a, rest. split; [reflexivity|]. split; [exact Hw|].
  intros k v Hk. destruct (Hattrs k v Hk) as (H1 & H2 & H3 & H4 & H5).
  repeat split; try assumption. apply (written_in_no_gt a k v Ha H5).
Qed.

(** X19. Whatever [getTicketDetails] returns was read from the body of the
    answer: the request was answered, the body is a text that holds an
    element, and every
    entry of the mapping is written in the attribute text of that element
    as its name, an equals sign and its value between double quotes.  The
    names are words, none is [__proto__], and no value holds a double
    quote or the sign that closes a tag. *)
Theorem getTicketDetails_reads_what_is_written (E : engine) (w : remote)
    (c : client) (ticketId : jsstring) (attrs : gmap jsstring jsstring) :
  result (run w (getTicketDetails E ticketId c)) = Some (Returned attrs, c) ->
  exists url config r body,
    trace (run w (getTicketDetails E ticketId c)) = [HttpGet url config]
    /\ on_get w url config = inl r
    /\ data r = JStr body
    /\ read_from_element body attrs.
Proof.
  destruct (encodeURIComponent ticketId) as [encoded|] eqn:Henc.
  - rewrite (run_getTicketDetails E w c _ _ Henc). unfold result, trace.
    cbn [fst snd].
    destruct (on_get w _ _) as [r|err] eqn:Hget; [|discriminate].
    destruct (data r) as [| | | |body| |] eqn:Hbody; try discriminate.
    destruct (string_match body ticketMatchRegex) as [m|] eqn:Hm;
      [|discriminate].
    destruct (parse_attrs (group m 1)) as [attrs'|] eqn:Hattrs;
      [|discriminate].
    intros [= <-].
    exists (details_url c encoded), (details_config c), r, body.
    split; [reflexivity|]. split; [exact Hget|]. split; [exact Hbody|].
    apply (regexp_exec_ticket_inv ticketMatchRegex body 0 m attrs');
      [right; reflexivity|exact Hm|exact Hattrs].
  - unfold getTicketDetails, bind, get_this. cbn [io_bind]. rewrite Henc.
    discriminate.
Qed.

Lemma getTicketDetails_reads_what_is_written_witness :
  let body := render_ticket ticket_55 ++ lit "</tickets>" in
  let w := sample_remote (ok body) (inl []) in
  let attrs : gmap jsstring jsstring :=
    {[ lit "ticketid" := lit "55";
       lit "subject" := lit "Heizung & Wasser = kalt/warm" ]} in
  result (run w (getTicketDetails sample_engine (lit "55") signed_in))
  = Some (Returned attrs, signed_in)
  /\ exists r,
       on_get w (details_url signed_in (lit "55")) (details_config signed_in)
       = inl r
       /\ read_from_element body attrs.
Proof.
  intros body w attrs.
  assert (Hrun :
    result (run w (getTicketDetails sample_engine (lit "55") signed_in))
    = Some (Returned attrs, signed_in)) by (vm_compute; reflexivity).
  split; [exact Hrun|].
  destruct (getTicketDetails_reads_what_is_written sample_engine w signed_in
              (lit "55") attrs Hrun)
    as (url & config & r & body' & Htrace & Hget & Hbody & Hread).
  injection Htrace as <- <-. exists r. split; [exact Hget|].
  injection Hget as <-. injection Hbody as <-. exact Hread.
Defined.

Lemma parse_tickets_read_from (xml : jsstring)
    (tickets : list (gmap jsstring jsstring)) :
  parse_tickets xml = Some tickets ->
  Forall (read_from_element xml) tickets.
Proof.
  unfold parse_tickets.
  destruct (exec_loop _ _ _ _ _ _) as [acc|] eqn:Hloop; [|discriminate].
  cbn [mjoin option_join]. intros ->.
  refine (exec_loop_invariant
            (fun acc => forall ts, acc = Some ts ->
                                   Forall (read_from_element xml) ts)
            ticketRegex xml _ _ _ _ _ _ _ Hloop tickets eq_refl).
  - intros i m acc Hm Hacc ts.
    destruct acc as [ts0|]; [|discriminate].
    destruct (parse_attrs (group m 1)) as [attrs|] eqn:Hattrs;
      [|discriminate].
    intros [= <-]. apply Forall_app. split; [apply Hacc; reflexivity|].
    constructor; [|constructor].
    apply (regexp_exec_ticket_inv ticketRegex xml i m attrs);
      [left; reflexivity|exact Hm|exact Hattrs].
  - intros ts [= <-]. constructor.
Qed.

(** X20. Whatever [searchTicketsByCreator] returns was read from the body
    of the answer: the request was answered, the body could be read as
    text, and every mapping of the array comes from one element of that
    text, each of its entries written in the
    attribute text of that element as its name, an equals sign and its
    value between double quotes.  The names are words, none is
    [__proto__], and no value holds a double quote or the sign that closes
    a tag. *)
Theorem searchTicketsByCreator_reads_what_is_written (E : engine)
    (w : remote) (c : client) (login : jsstring)
    (opts : option search_options)
    (tickets : list (gmap jsstring jsstring)) :
  result (run w (searchTicketsByCreator E login opts c))
  = Some (Returned tickets, c) ->
  exists r body,
    on_get w (search_url c)
      (search_config c login (start_of opts) (max_of opts)) = inl r
    /\ to_string E (data r) = Some body
    /\ Forall (read_from_element body) tickets.
Proof.
  rewrite run_searchTicketsByCreator. cbv zeta. unfold result. cbn [snd].
  destruct (on_get w _ _) as [r|err]; [|discriminate].
  destruct (to_string E (data r)) as [body|] eqn:Hbody; [|discriminate].
  destruct (parse_tickets body) as [ts|] eqn:Hts; [|discriminate].
  intros [= <-]. exists r, body. split; [reflexivity|].
  split; [exact Hbody|]. apply parse_tickets_read_from, Hts.
Qed.

Lemma searchTicketsByCreator_reads_what_is_written_witness :
  let body := render_tickets [ticket_55; ticket_56] ++ lit "</tickets>" in
  let w := sample_remote (ok body) (inl []) in
  exists tickets,
    result (run w (searchTicketsByCreator sample_engine (lit "me") None
                     signed_in))
    = Some (Returned tickets, signed_in)
    /\ length tickets = 2%nat
    /\ Forall (read_from_element body) tickets.
Proof.
  intros body w.
  destruct (parse_tickets body) as [tickets|] eqn:Hts;
    [|vm_compute in Hts; discriminate Hts].
  assert (Hrun :
    result (run w (searchTicketsByCreator sample_engine (lit "me") None
                     signed_in))
    = Some (Returned tickets, signed_in)).
  { rewrite run_searchTicketsByCreator. cbv zeta. unfold result. cbn [snd].
    change (on_get w _ _) with (ok body). unfold ok.
    cbn [data to_string]. rewrite Hts. reflexivity. }
  destruct (searchTicketsByCreator_reads_what_is_written sample_engine w
              signed_in (lit "me") None tickets Hrun)
    as (r & body' & Hget & Hbody & Hread).
  injection Hget as <-. injection Hbody as <-.
  exists tickets. split; [exact Hrun|]. split; [|exact Hread].
  revert Hts. vm_compute. intros [= <-]. reflexivity.
Defined.

(** X21. Once the handle is cached, [getKeywords] makes one transport
    call whatever the operation answers, JSON or not: the remote operation
    on that handle, with the token as it is at that moment and the channel
    and the ticket system as given, the empty string for what was left
    out.  A rejected operation is thrown as an [Error] whose message is the
    message of the rejection after "getKeywords SOAP error: ". *)
Theorem getKeywords_request (E : engine) (w : remote) (c : client)
    (h : soap_client) (p : option keyword_params) :
  soapClient c = Some h ->
  exists args,
    trace (run w (getKeywords E p c)) = [SoapCall h (lit "getKeywords") args]
    /\ length args = 3%nat
    /\ arg (lit "authToken") args = Some (token_value (authToken c))
    /\ arg (lit "sChannel") args
       = Some (JStr match p with
                    | Some {| k_channel := Some s |} => s
                    | _ => []
                    end)
    /\ arg (lit "sTicketsystem") args
       = Some (JStr match p with
                    | Some {| k_ticketSystem := Some s |} => s
                    | _ => []
                    end)
    /\ forall err,
         on_call w h (lit "getKeywords") args = inr err ->
         result (run w (getKeywords E p c))
         = Some (Thrown (Error (lit "getKeywords SOAP error: "
                                  ++ message err)), c).
Proof.
  intros Hs. destruct (run_getKeywords_cached E w c h p Hs) as [Htrace Herr].
  exists (keywords_args (authToken c) p).
  split; [exact Htrace|]. split; [reflexivity|]. split; [reflexivity|].
  split; [|split; [|exact Herr]].
  - destruct p as [[[ch|] ts]|]; reflexivity.
  - destruct p as [[ch [ts|]]|]; reflexivity.
Qed.

Lemma getKeywords_request_witness :
  let w := sample_remote unauthorized (inr (Error (lit "ECONNRESET"))) in
  exists args,
    trace (run w (getKeywords sample_engine
                    (Some (KeywordParams (Some (lit "EMAIL")) None)) cached))
    = [SoapCall (SoapClient 1) (lit "getKeywords") args]
    /\ arg (lit "sChannel") args = Some (JStr (lit "EMAIL"))
    /\ arg (lit "sTicketsystem") args = Some (JStr [])
    /\ result (run w (getKeywords sample_engine
                        (Some (KeywordParams (Some (lit "EMAIL")) None))
                        cached))
       = Some (Thrown (Error (lit "getKeywords SOAP error: ECONNRESET")),
               cached).
Proof.
  intros w.
  destruct (getKeywords_request sample_engine w cached (SoapClient 1)
              (Some (KeywordParams (Some (lit "EMAIL")) None)) eq_refl)
    as (args & Htrace & _ & _ & Hchannel & Hsystem & Herr).
  exists args. split; [exact Htrace|]. split; [exact Hchannel|].
  split; [exact Hsystem|]. apply (Herr (Error (lit "ECONNRESET"))).
  reflexivity.
Defined.

(** X22. The token guard sits in front of the request for a handle only.
    On a client that holds a handle, a token endpoint that answers with
    white space alone leaves the empty string as the token, and the next
    [createTicket] sends it: one call of the remote operation, with the
    empty string for [authToken], and no missing-token error. *)
Theorem cached_handle_skips_token_guard (E : engine) (w : remote)
    (c : client) (h : soap_client) (r : http_response) (body : jsstring)
    (p : ticket_params) :
  soapClient c = Some h ->
  on_get w (auth_url c) (auth_config c) = inl r ->
  data r = JStr body -> all_space body ->
  let c1 := with_authToken (Some []) c in
  result (run w (authenticate E c)) = Some (Returned (Some []), c1)
  /\ exists args o,
       run w (createTicket p c1)
       = ([SoapCall h (lit "createTicket") args], Some (o, c1))
       /\ arg (lit "authToken") args = Some (JStr []).
Proof.
  intros Hs Hget Hbody Hblank c1. split.
  - rewrite run_authenticate, Hget, Hbody. unfold result. cbn [snd].
    rewrite (trim_all_space _ Hblank). reflexivity.
  - rewrite (run_createTicket_cached w c1 h p Hs).
    eexists _, _. split; reflexivity.
Qed.

Lemma cached_handle_skips_token_guard_witness :
  let w := sample_remote (ok [32; 10]) (inl (lit "true|55|TK-1")) in
  let c1 := with_authToken (Some []) cached in
  exists args o,
    run w (createTicket sample_ticket c1)
    = ([SoapCall (SoapClient 1) (lit "createTicket") args], Some (o, c1))
    /\ arg (lit "authToken") args = Some (JStr []).
Proof.
  intros w c1.
  apply (cached_handle_skips_token_guard sample_engine w cached
           (SoapClient 1) (HttpResponse 200 (lit "OK") (JStr [32; 10]))
           [32; 10] sample_ticket eq_refl eq_refl eq_refl).
  repeat constructor.
Defined.

(** X23. In every state a client can reach, a cached SOAP handle comes
    with a token: the handle is only ever requested after [authenticate]
    has stored one, and no method sets the token back to [null]. *)
Theorem reachable_handle_has_token (E : engine) (c : client)
    (h : soap_client) :
  reachable E c -> soapClient c = Some h ->
  exists t, authToken c = Some t.
Proof.
  intros Hreach Hs. pose proof (reachable_handle_needs_token E c Hreach) as H.
  destruct (authToken c) as [t|] eqn:Ht; [eauto|].
  rewrite (H Ht) in Hs. discriminate.
Qed.

Lemma reachable_handle_has_token_witness :
  reachable sample_engine cached /\ exists t, authToken cached = Some t.
Proof.
  assert (H : reachable sample_engine cached).
  { apply (reachable_invoke sample_engine (CreateTicket sample_ticket)
             (sample_remote unauthorized (inl (lit "true|55|TK-1")))
             signed_in).
    - apply (reachable_invoke sample_engine Authenticate
               (sample_remote (ok (lit " TOKEN ")) (inl [])) sample_client).
      + apply reachable_new.
      + vm_compute; reflexivity.
    - vm_compute; reflexivity. }
  split; [exact H|].
  apply (reachable_handle_has_token sample_engine cached (SoapClient 1) H).
  reflexivity.
Defined.
